(** * Local load balancer: selection, health, circuit breaker, failover

    A shallow embedding of the decision logic of the Python load balancer
    ([services/service_instance.py], [load_balancer/algorithms.py],
    [load_balancer/balancer.py], [health/health_checker.py],
    [circuit_breaker/breaker.py], [failover/failover_manager.py],
    [analytics/traffic_analytics.py]) and the properties of it that the
    specification states.

    Conventions of the embedding.
    - Python [int] is [Z]; a cursor that starts at 0 and is only ever
      incremented and used as a list index is [nat].
    - Clock readings ([time.time()], [datetime.now()]) and durations are
      rationals [Q]; the code only subtracts and compares them.
    - Python objects that are shared between components (service instances)
      live in a heap and are passed around as locations, so that a mutation
      made through one holder is seen by every other holder.
    - A call that may raise returns an [Outcome]. *)

From Stdlib Require Import ZArith QArith Lia Ascii String.
From stdpp Require Import base option list strings gmap.

(** ** Python outcomes *)

(** [except Exception] catches an exception exactly when its class derives
    from [Exception]; [KeyboardInterrupt], [SystemExit] and the like derive
    from [BaseException] only. *)
Inductive ExcClass := ExceptionClass | BaseExceptionOnly.

#[global] Instance ExcClass_eq_dec : EqDecision ExcClass.
Proof. solve_decision. Defined.

Record PyExc := { exc_class : ExcClass; exc_msg : string }.

(** [raise Exception(msg)] *)
Definition Exception (msg : string) : PyExc :=
  {| exc_class := ExceptionClass; exc_msg := msg |}.

Inductive Outcome (A : Type) :=
| Returned (a : A)
| Raised (e : PyExc).
Arguments Returned {A} a.
Arguments Raised {A} e.

(** ** services/service_instance.py *)

Inductive HealthStatus := HEALTHY | UNHEALTHY | DEGRADED | UNKNOWN.

#[global] Instance HealthStatus_eq_dec : EqDecision HealthStatus.
Proof. solve_decision. Defined.

Module ServiceInstance.
Local Open Scope Z_scope.

Record t := mk {
  name : string;
  url : string;
  weight : Z;
  health_status : HealthStatus;
  last_health_check : option Q;
  consecutive_failures : Z;
  active_connections : Z;
  total_requests : Z;
  successful_requests : Z;
  failed_requests : Z;
  total_response_time : Q;
  created_at : Q;
  last_request_at : option Q
}.

(** [ServiceInstance(name, url, weight)], created at clock reading [now]. *)
Definition __init__ (name url : string) (weight : Z) (now : Q) : t :=
  mk name url weight UNKNOWN None 0 0 0 0 0 0%Q now None.

Definition set_health (self : t) (h : HealthStatus) (cf : Z) (now : Q) : t :=
  mk (name self) (url self) (weight self) h (Some now) cf
     (active_connections self) (total_requests self)
     (successful_requests self) (failed_requests self)
     (total_response_time self) (created_at self) (last_request_at self).

Definition set_active_connections (self : t) (n : Z) : t :=
  mk (name self) (url self) (weight self) (health_status self)
     (last_health_check self) (consecutive_failures self) n
     (total_requests self) (successful_requests self) (failed_requests self)
     (total_response_time self) (created_at self) (last_request_at self).

Definition mark_healthy (self : t) (now : Q) : t :=
  set_health self HEALTHY 0 now.

Definition mark_unhealthy (self : t) (now : Q) : t :=
  set_health self UNHEALTHY (consecutive_failures self + 1) now.

Definition mark_degraded (self : t) (now : Q) : t :=
  set_health self DEGRADED (consecutive_failures self) now.

Definition is_healthy (self : t) : bool :=
  match health_status self with HEALTHY => true | _ => false end.

Definition increment_connections (self : t) : t :=
  set_active_connections self (active_connections self + 1).

Definition decrement_connections (self : t) : t :=
  set_active_connections self (Z.max 0 (active_connections self - 1)).

Definition record_request (self : t) (success : bool) (response_time now : Q) : t :=
  mk (name self) (url self) (weight self) (health_status self)
     (last_health_check self) (consecutive_failures self)
     (active_connections self) (total_requests self + 1)
     (if success then successful_requests self + 1 else successful_requests self)
     (if success then failed_requests self else failed_requests self + 1)
     (total_response_time self + response_time)%Q (created_at self) (Some now).

Definition get_average_response_time (self : t) : Q :=
  if total_requests self =? 0 then 0%Q
  else (total_response_time self / inject_Z (total_requests self))%Q.

End ServiceInstance.

#[global] Instance ServiceInstance_inhabited : Inhabited ServiceInstance.t :=
  populate (ServiceInstance.__init__ "" "" 1%Z 0%Q).

(** ** The object heap

    Service instances are created by the load balancer and then held, by
    reference, by the balancer's pool, by the lists handed to the selection
    algorithms and by the failover manager's dictionaries. A location is the
    index of the object in the heap; objects are never freed. *)

Abbreviation loc := nat (only parsing).
Abbreviation Heap := (list ServiceInstance.t) (only parsing).

(** Reading the object behind a reference. *)
Definition deref (h : Heap) (r : loc) : ServiceInstance.t := h !!! r.

(** Mutating the object behind a reference in place. *)
Definition mutate (f : ServiceInstance.t -> ServiceInstance.t) (r : loc) (h : Heap) : Heap :=
  alter f r h.

(** Allocating a new object. *)
Definition alloc (i : ServiceInstance.t) (h : Heap) : loc * Heap :=
  (length h, h ++ [i]).

(** ** load_balancer/algorithms.py *)

Module RoundRobinAlgorithm.

Record t := { current_index : nat }.

Definition __init__ : t := {| current_index := 0 |}.

(** The algorithm only indexes the list it is given, so it is stated for
    lists of any element type. *)
Definition select_instance {A} (self : t) (instances : list A) : option A * t :=
  match instances with
  | [] => (None, self)
  | _ =>
      let instance := instances !! (current_index self mod length instances) in
      (instance, {| current_index := S (current_index self) |})
  end.

(** [n] consecutive calls on the same list: the values returned, in order,
    and the algorithm's state afterwards. *)
Fixpoint select_many {A} (n : nat) (self : t) (instances : list A) : list (option A) * t :=
  match n with
  | O => ([], self)
  | S n' =>
      let '(r, self1) := select_instance self instances in
      let '(rs, self2) := select_many n' self1 instances in
      (r :: rs, self2)
  end.

End RoundRobinAlgorithm.

(** Python's [min(iterable, key=...)]: the first element whose key is
    smallest ([best] is replaced only by a strictly smaller key). *)
Fixpoint py_min_from {A K} (lt : K -> K -> bool) (key : A -> K) (best : A) (l : list A) : A :=
  match l with
  | [] => best
  | x :: l' => py_min_from lt key (if lt (key x) (key best) then x else best) l'
  end.

Definition py_min {A K} (lt : K -> K -> bool) (key : A -> K) (l : list A) : option A :=
  match l with
  | [] => None
  | x :: l' => Some (py_min_from lt key x l')
  end.

Module WeightedRoundRobinAlgorithm.

(** [last_instances] is [None] until the first call. The candidate lists are
    lists of object references; Python compares them element by element, and
    service instances (which define no [__eq__]) by identity. *)
Record t := {
  current_index : nat;
  weighted_instances : list loc;
  last_instances : option (list loc)
}.

Definition __init__ : t :=
  {| current_index := 0; weighted_instances := []; last_instances := None |}.

(** [range(instance.weight)] is empty for a weight below 1. *)
Definition _build_weighted_list (h : Heap) (instances : list loc) : list loc :=
  r ← instances; replicate (Z.to_nat (ServiceInstance.weight (deref h r))) r.

Definition select_instance (h : Heap) (self : t) (instances : list loc) : option loc * t :=
  match instances with
  | [] => (None, self)
  | first :: _ =>
      let self1 :=
        if bool_decide (Some instances = last_instances self) then self
        else {| current_index := current_index self;
                weighted_instances := _build_weighted_list h instances;
                last_instances := Some instances |} in
      match weighted_instances self1 with
      | [] => (Some first, self1)
      | _ =>
          let instance :=
            weighted_instances self1
              !! (current_index self1 mod length (weighted_instances self1)) in
          (instance,
           {| current_index := S (current_index self1);
              weighted_instances := weighted_instances self1;
              last_instances := last_instances self1 |})
      end
  end.

(** [n] consecutive calls with the same candidate list, over a heap that
    does not change in between. *)
Fixpoint select_many (n : nat) (h : Heap) (self : t) (instances : list loc) : list (option loc) * t :=
  match n with
  | O => ([], self)
  | S n' =>
      let '(r, self1) := select_instance h self instances in
      let '(rs, self2) := select_many n' h self1 instances in
      (r :: rs, self2)
  end.

End WeightedRoundRobinAlgorithm.

Module LeastConnectionsAlgorithm.

Definition select_instance (h : Heap) (instances : list loc) : option loc :=
  py_min Z.ltb (λ r, ServiceInstance.active_connections (deref h r)) instances.

End LeastConnectionsAlgorithm.

Module RandomAlgorithm.

(** [random.choice(instances)]; [rnd] is the number the generator draws. *)
Definition select_instance (rnd : nat) (instances : list loc) : option loc :=
  match instances with
  | [] => None
  | _ => instances !! (rnd mod length instances)
  end.

End RandomAlgorithm.

Module LeastResponseTimeAlgorithm.

Definition select_instance (h : Heap) (instances : list loc) : option loc :=
  py_min (λ a b, negb (Qle_bool b a))
         (λ r, ServiceInstance.get_average_response_time (deref h r)) instances.

End LeastResponseTimeAlgorithm.

(** The algorithm object a balancer holds: one of the five subclasses of
    [LoadBalancingAlgorithm], with its state. *)
Inductive Algorithm :=
| RoundRobin (s : RoundRobinAlgorithm.t)
| WeightedRoundRobin (s : WeightedRoundRobinAlgorithm.t)
| LeastConnections
| Random
| LeastResponseTime.

Definition ascii_lower (c : ascii) : ascii :=
  let n := nat_of_ascii c in
  if (65 <=? n) && (n <=? 90) then ascii_of_nat (n + 32) else c.

Fixpoint lower (s : string) : string :=
  match s with
  | EmptyString => EmptyString
  | String c s' => String (ascii_lower c) (lower s')
  end.

Definition get_algorithm (algorithm_name : string) : Algorithm :=
  let n := lower algorithm_name in
  if String.eqb n "round_robin" then RoundRobin RoundRobinAlgorithm.__init__
  else if String.eqb n "weighted" then WeightedRoundRobin WeightedRoundRobinAlgorithm.__init__
  else if String.eqb n "least_connections" then LeastConnections
  else if String.eqb n "random" then Random
  else if String.eqb n "least_response_time" then LeastResponseTime
  else RoundRobin RoundRobinAlgorithm.__init__.

(** Dynamic dispatch of [algorithm.select_instance(instances)]. *)
Definition algorithm_select (h : Heap) (rnd : nat) (a : Algorithm) (instances : list loc) : option loc * Algorithm :=
  match a with
  | RoundRobin s =>
      let '(r, s') := RoundRobinAlgorithm.select_instance s instances in
      (r, RoundRobin s')
  | WeightedRoundRobin s =>
      let '(r, s') := WeightedRoundRobinAlgorithm.select_instance h s instances in
      (r, WeightedRoundRobin s')
  | LeastConnections => (LeastConnectionsAlgorithm.select_instance h instances, a)
  | Random => (RandomAlgorithm.select_instance rnd instances, a)
  | LeastResponseTime => (LeastResponseTimeAlgorithm.select_instance h instances, a)
  end.

(** The cache of a weighted round robin is coherent when the expansion it
    holds names only instances of the candidate list it was built for. A
    new algorithm is coherent, and selecting keeps it so. *)
Definition wrr_coherent (s : WeightedRoundRobinAlgorithm.t) : Prop :=
  ∀ l, WeightedRoundRobinAlgorithm.last_instances s = Some l ->
       ∀ r, r ∈ WeightedRoundRobinAlgorithm.weighted_instances s -> r ∈ l.

Definition algorithm_coherent (a : Algorithm) : Prop :=
  match a with
  | WeightedRoundRobin s => wrr_coherent s
  | _ => True
  end.

(** ** load_balancer/balancer.py *)

(** What [response.json()] does: the decoded body, or a decoding error.
    Recent versions of [requests] raise their own [JSONDecodeError], which is
    a [RequestException]; older ones let a plain [ValueError] through. *)
Inductive JsonResult :=
| JsonValue (body : string)
| JsonRequestsError (msg : string)
| JsonOtherError (e : PyExc).

(** What the HTTP transport does with one request. *)
Inductive TransportResult :=
| Response (status_code : Z) (elapsed : Q) (json : JsonResult)
| TimeoutError
| RequestError (msg : string)
| OtherError (e : PyExc).

(** The injected transport: method, URL, JSON payload, timeout. *)
Definition Transport := string -> string -> option string -> Q -> TransportResult.

(** The first component of the pair [forward_request] returns. *)
Inductive Body :=
| UpstreamJson (body : string)
| ErrorDict (error : string) (key value : string).

Module LoadBalancer.

Record t := {
  instances : list loc;
  algorithm : Algorithm;
  algorithm_name : string
}.

Definition __init__ (algorithm : string) : t :=
  {| instances := []; algorithm := get_algorithm algorithm; algorithm_name := algorithm |}.

Definition set_algorithm (self : t) (a : Algorithm) : t :=
  {| instances := instances self; algorithm := a; algorithm_name := algorithm_name self |}.

Definition add_instance (self : t) (h : Heap) (name url : string) (weight : Z) (now : Q) : t * Heap :=
  let '(r, h') := alloc (ServiceInstance.__init__ name url weight now) h in
  ({| instances := instances self ++ [r];
      algorithm := algorithm self;
      algorithm_name := algorithm_name self |}, h').

Definition remove_instance (self : t) (h : Heap) (name : string) : t :=
  {| instances := filter (λ r, ServiceInstance.name (deref h r) ≠ name) (instances self);
     algorithm := algorithm self;
     algorithm_name := algorithm_name self |}.

Definition get_healthy_instances (self : t) (h : Heap) : list loc :=
  filter (λ r, ServiceInstance.is_healthy (deref h r) = true) (instances self).

Definition get_next_instance (self : t) (h : Heap) (rnd : nat) : option loc * t :=
  match get_healthy_instances self h with
  | [] => (None, self)
  | healthy_instances =>
      let '(instance, a) := algorithm_select h rnd (algorithm self) healthy_instances in
      (instance, set_algorithm self a)
  end.

Definition get_instance_by_name (self : t) (h : Heap) (name : string) : option loc :=
  list_find (λ r, ServiceInstance.name (deref h r) = name) (instances self) ≫= λ p, Some p.2.

(** The request [forward_request] issues for [method]: [requests.get] sends
    no payload. *)
Definition perform (transport : Transport) (method url : string) (data : option string) (timeout : Q) : TransportResult :=
  if String.eqb method "GET" then transport "GET" url None timeout
  else transport method url data timeout.

(** [now] is the clock reading [record_request] takes. *)
Definition forward_request (self : t) (h : Heap) (rnd : nat) (transport : Transport) (now : Q) (path method : string) (data : option string) (timeout : Q) : Outcome (Body * Z) * t * Heap :=
  match get_next_instance self h rnd with
  | (None, self1) =>
      (Returned (ErrorDict "No healthy instances available" "status" "error", 503%Z), self1, h)
  | (Some r, self1) =>
      let h1 := mutate ServiceInstance.increment_connections r h in
      let name := ServiceInstance.name (deref h1 r) in
      let on_timeout h :=
        let h := mutate (λ i, ServiceInstance.record_request i false timeout now) r h in
        let h := mutate ServiceInstance.decrement_connections r h in
        (Returned (ErrorDict "Request timeout" "service" name, 504%Z), self1, h) in
      let on_request_exception msg h :=
        let h := mutate (λ i, ServiceInstance.record_request i false 0%Q now) r h in
        let h := mutate ServiceInstance.decrement_connections r h in
        (Returned (ErrorDict msg "service" name, 502%Z), self1, h) in
      match perform transport method (ServiceInstance.url (deref h1 r) ++ path) data timeout with
      | Response status_code response_time json =>
          let success := (status_code <? 400)%Z in
          let h2 := mutate (λ i, ServiceInstance.record_request i success response_time now) r h1 in
          let h3 := mutate ServiceInstance.decrement_connections r h2 in
          match json with
          | JsonValue body => (Returned (UpstreamJson body, status_code), self1, h3)
          | JsonRequestsError msg => on_request_exception msg h3
          | JsonOtherError e => (Raised e, self1, h3)
          end
      | TimeoutError => on_timeout h1
      | RequestError msg => on_request_exception msg h1
      | OtherError e => (Raised e, self1, h1)
      end
  end.

(** The numeric entries of the dictionary [get_stats] returns (the others
    are formatted strings and the per-instance dictionaries). *)
Record Stats := {
  total_instances : nat;
  healthy_instances : nat;
  total_requests : Z;
  total_failures : Z
}.

(** [sum(...)] over the pool, in pool order. *)
Definition sum_over (f : ServiceInstance.t -> Z) (h : Heap) (l : list loc) : Z :=
  foldl (λ acc r, (acc + f (deref h r))%Z) 0%Z l.

Definition get_stats (self : t) (h : Heap) : Stats :=
  {| total_instances := length (instances self);
     healthy_instances := length (get_healthy_instances self h);
     total_requests := sum_over ServiceInstance.total_requests h (instances self);
     total_failures := sum_over ServiceInstance.failed_requests h (instances self) |}.

End LoadBalancer.

(** ** health/health_checker.py *)

(** What the probe [requests.get(health_url, timeout=...)] does: it answers
    with a status, raises [requests.exceptions.Timeout], raises another
    [RequestException], or raises an exception of another class (for
    instance the [ValueError] of a timeout that is not positive), which no
    [except] clause of [check_instance_health] catches. *)
Inductive ProbeResult :=
| ProbeStatus (status_code : Z)
| ProbeTimeout
| ProbeRequestError (msg : string)
| ProbeOtherError (e : PyExc).

(** The records the health checker writes to its logger. *)
Inductive HealthLog :=
| LogHealthy (name : string)
| LogBadStatus (name : string) (status_code : Z)
| LogTimeout (name : string)
| LogCheckFailed (name : string) (msg : string)
| LogMarkedUnhealthy (name : string) (failures : Z).

Module HealthChecker.

Record t := {
  check_interval : Q;
  timeout : Q;
  unhealthy_threshold : Z;
  running : bool
}.

Definition __init__ (check_interval timeout : Q) (unhealthy_threshold : Z) : t :=
  {| check_interval := check_interval; timeout := timeout;
     unhealthy_threshold := unhealthy_threshold; running := false |}.

(** The [try] statement of [check_instance_health]: the probe and what each
    of its outcomes does to the instance. The result is how the statement
    ends (normally, or with the exception that escapes it), the instance and
    the records logged. *)
Definition probe_step (instance : ServiceInstance.t) (probe : ProbeResult) (now : Q) : Outcome unit * ServiceInstance.t * list HealthLog :=
  let name := ServiceInstance.name instance in
  match probe with
  | ProbeStatus status_code =>
      if (status_code =? 200)%Z
      then (Returned tt, ServiceInstance.mark_healthy instance now, [LogHealthy name])
      else (Returned tt, ServiceInstance.mark_unhealthy instance now,
            [LogBadStatus name status_code])
  | ProbeTimeout =>
      (Returned tt, ServiceInstance.mark_unhealthy instance now, [LogTimeout name])
  | ProbeRequestError msg =>
      (Returned tt, ServiceInstance.mark_unhealthy instance now, [LogCheckFailed name msg])
  | ProbeOtherError e =>
      (Raised e, instance, [])
  end.

(** The guard of the statement that follows the [try]. *)
Definition should_escalate (self : t) (instance : ServiceInstance.t) : bool :=
  (unhealthy_threshold self <=? ServiceInstance.consecutive_failures instance)%Z
  && negb (bool_decide (ServiceInstance.health_status instance = UNHEALTHY)).

(** [now] and [now'] are the clock readings of the first and of the second
    marking. An exception that escapes the [try] statement ends the call:
    the statement after it is not reached. *)
Definition check_instance_health (self : t) (instance : ServiceInstance.t) (probe : ProbeResult) (now now' : Q) : Outcome unit * ServiceInstance.t * list HealthLog :=
  let '(outcome, instance1, log) := probe_step instance probe now in
  match outcome with
  | Raised e => (Raised e, instance1, log)
  | Returned _ =>
      if should_escalate self instance1 then
        let instance2 := ServiceInstance.mark_unhealthy instance1 now' in
        (Returned tt, instance2,
         log ++ [LogMarkedUnhealthy (ServiceInstance.name instance2)
                   (ServiceInstance.consecutive_failures instance2)])
      else (Returned tt, instance1, log)
  end.

(** Successive calls of [check_instance_health] for one instance, each with
    the outcome of its probe and the two clock readings; the caller goes on
    with the next call also after one that raised. *)
Definition check_many (self : t) (instance : ServiceInstance.t) (probes : list (ProbeResult * Q * Q)) : ServiceInstance.t :=
  foldl (λ i p, (check_instance_health self i p.1.1 p.1.2 p.2).1.2) instance probes.

(** The loop of [check_all_instances] over the instances still to check:
    they are checked one after the other; an exception that escapes one
    check ends the loop, and the instances after it are not checked.
    [probe r] is what the probe of the instance at [r] does, [now r] and
    [now' r] are the clock readings of its markings. *)
Fixpoint check_each (self : t) (probe : loc -> ProbeResult) (now now' : loc -> Q) (instances : list loc) (h : Heap) (log : list HealthLog) : Outcome unit * Heap * list HealthLog :=
  match instances with
  | [] => (Returned tt, h, log)
  | r :: rest =>
      let '(outcome, instance, records) :=
        check_instance_health self (deref h r) (probe r) (now r) (now' r) in
      let h1 := mutate (λ _, instance) r h in
      match outcome with
      | Raised e => (Raised e, h1, log ++ records)
      | Returned _ => check_each self probe now now' rest h1 (log ++ records)
      end
  end.

(** [check_all_instances]: the loop over the pool, in pool order. *)
Definition check_all_instances (self : t) (lb : LoadBalancer.t) (h : Heap) (probe : loc -> ProbeResult) (now now' : loc -> Q) : Outcome unit * Heap * list HealthLog :=
  check_each self probe now now' (LoadBalancer.instances lb) h [].

(** One entry of the ['instances'] list of the summary. *)
Record InstanceHealth := {
  ih_name : string;
  ih_url : string;
  ih_status : HealthStatus;
  ih_consecutive_failures : Z;
  ih_last_check : option Q
}.

Record Summary := {
  total_instances : nat;
  healthy : nat;
  unhealthy : nat;
  degraded : nat;
  unknown : nat;
  instances : list InstanceHealth
}.

(** The body of the loop of [get_health_summary]:
    [summary[status] = summary.get(status, 0) + 1] and the append. *)
Definition summary_step (h : Heap) (summary : Summary) (r : loc) : Summary :=
  let instance := deref h r in
  let status := ServiceInstance.health_status instance in
  let bump (s : HealthStatus) (n : nat) : nat :=
    if bool_decide (status = s) then S n else n in
  {| total_instances := total_instances summary;
     healthy := bump HEALTHY (healthy summary);
     unhealthy := bump UNHEALTHY (unhealthy summary);
     degraded := bump DEGRADED (degraded summary);
     unknown := bump UNKNOWN (unknown summary);
     instances :=
       instances summary
       ++ [{| ih_name := ServiceInstance.name instance;
              ih_url := ServiceInstance.url instance;
              ih_status := status;
              ih_consecutive_failures := ServiceInstance.consecutive_failures instance;
              ih_last_check := ServiceInstance.last_health_check instance |}] |}.

Definition get_health_summary (lb : LoadBalancer.t) (h : Heap) : Summary :=
  foldl (summary_step h)
    {| total_instances := length (LoadBalancer.instances lb);
       healthy := 0; unhealthy := 0; degraded := 0; unknown := 0; instances := [] |}
    (LoadBalancer.instances lb).

End HealthChecker.

(** ** circuit_breaker/breaker.py *)

Inductive CircuitState := CLOSED | OPEN | HALF_OPEN.

Module CircuitBreaker.
Local Open Scope Z_scope.

Record t := mk {
  failure_threshold : Z;
  timeout : Q;
  half_open_max_calls : Z;
  state : CircuitState;
  failure_count : Z;
  success_count : Z;
  last_failure_time : option Q;
  half_open_calls : Z
}.

Definition __init__ (failure_threshold : Z) (timeout : Q) (half_open_max_calls : Z) : t :=
  mk failure_threshold timeout half_open_max_calls CLOSED 0 0 None 0.

Definition _transition_to_closed (self : t) : t :=
  mk (failure_threshold self) (timeout self) (half_open_max_calls self)
     CLOSED 0 0 (last_failure_time self) 0.

Definition _transition_to_open (self : t) : t :=
  mk (failure_threshold self) (timeout self) (half_open_max_calls self)
     OPEN (failure_count self) 0 (last_failure_time self) 0.

Definition _transition_to_half_open (self : t) : t :=
  mk (failure_threshold self) (timeout self) (half_open_max_calls self)
     HALF_OPEN 0 0 (last_failure_time self) 0.

Definition _on_success (self : t) : t :=
  let self1 :=
    mk (failure_threshold self) (timeout self) (half_open_max_calls self)
       (state self) (failure_count self) (success_count self + 1)
       (last_failure_time self) (half_open_calls self) in
  match state self1 with
  | HALF_OPEN =>
      if half_open_max_calls self1 <=? success_count self1
      then _transition_to_closed self1 else self1
  | _ => self1
  end.

(** [now] is the reading of [time.time()]. *)
Definition _on_failure (self : t) (now : Q) : t :=
  let self1 :=
    mk (failure_threshold self) (timeout self) (half_open_max_calls self)
       (state self) (failure_count self + 1) (success_count self)
       (Some now) (half_open_calls self) in
  match state self1 with
  | HALF_OPEN => _transition_to_open self1
  | CLOSED =>
      if failure_threshold self1 <=? failure_count self1
      then _transition_to_open self1 else self1
  | OPEN => self1
  end.

Definition _should_attempt_reset (self : t) (now : Q) : bool :=
  match last_failure_time self with
  | None => true
  | Some last => Qle_bool (timeout self) (now - last)
  end.

Definition reset (self : t) : t := _transition_to_closed self.

Definition circuit_open_error : PyExc :=
  Exception "Circuit breaker is OPEN. Service unavailable.".

Definition half_open_limit_error : PyExc :=
  Exception "Circuit breaker HALF_OPEN call limit reached".

(** First statement of [call]: an open circuit either moves to half-open or
    rejects. *)
Definition check_open (self : t) (now : Q) : PyExc + t :=
  match state self with
  | OPEN =>
      if _should_attempt_reset self now
      then inr (_transition_to_half_open self)
      else inl circuit_open_error
  | _ => inr self
  end.

(** Second statement of [call]: the half-open call limit. *)
Definition check_half_open_limit (self : t) : PyExc + t :=
  match state self with
  | HALF_OPEN =>
      if half_open_max_calls self <=? half_open_calls self
      then inl half_open_limit_error
      else inr (mk (failure_threshold self) (timeout self) (half_open_max_calls self)
                   (state self) (failure_count self) (success_count self)
                   (last_failure_time self) (half_open_calls self + 1))
  | _ => inr self
  end.

(** What holds of a breaker however it was driven: the counters are
    non-negative; a closed breaker has issued no trial call and has fewer
    failures on record than its threshold (or none); an open breaker has the
    time of its last failure on record and no success or trial call counted;
    a half-open breaker has no failure counted, no more successes than trial
    calls, and no more trial calls than it allows (none when
    [half_open_max_calls] is negative). *)
Definition consistent (self : t) : Prop :=
  0 <= failure_count self ∧ 0 <= success_count self ∧ 0 <= half_open_calls self
  ∧ match state self with
    | CLOSED =>
        half_open_calls self = 0
        ∧ (failure_count self = 0 ∨ failure_count self < failure_threshold self)
    | OPEN =>
        last_failure_time self ≠ None
        ∧ success_count self = 0 ∧ half_open_calls self = 0
    | HALF_OPEN =>
        failure_count self = 0
        ∧ success_count self <= half_open_calls self
        ∧ half_open_calls self <= Z.max 0 (half_open_max_calls self)
    end.

(** The three constructor arguments, which no method assigns. *)
Definition config (self : t) : Z * Q * Z :=
  (failure_threshold self, timeout self, half_open_max_calls self).

Section Call.

(** The world outside the breaker: whatever the wrapped function reads and
    changes, and the clock [time.time()] reads. *)
Context {World : Type} (time_time : World -> Q).

(** A wrapped function with its arguments applied: run in a world, it
    returns or raises and leaves a world behind. *)
Definition Func (A : Type) : Type := World -> Outcome A * World.

(** Third statement of [call]: the [try] around the wrapped function. *)
Definition execute {A} (self : t) (func : Func A) (w : World) : Outcome A * t * World :=
  let '(o, w') := func w in
  match o with
  | Returned result => (Returned result, _on_success self, w')
  | Raised e =>
      match exc_class e with
      | ExceptionClass => (Raised e, _on_failure self (time_time w'), w')
      | BaseExceptionOnly => (Raised e, self, w')
      end
  end.

Definition call {A} (self : t) (func : Func A) (w : World) : Outcome A * t * World :=
  match check_open self (time_time w) with
  | inl e => (Raised e, self, w)
  | inr self1 =>
      match check_half_open_limit self1 with
      | inl e => (Raised e, self1, w)
      | inr self2 => execute self2 func w
      end
  end.

(** The breaker after a series of calls; each call comes with the world it
    is made in (the world moves on between calls). *)
Definition call_many {A} (self : t) (calls : list (Func A * World)) : t :=
  foldl (λ b c, (call b c.1 c.2).1.2) self calls.

(** What the wrapped function of a call does in the world of the call. *)
Definition outcome {A} (c : Func A * World) : Outcome A := (c.1 c.2).1.

(** The wrapped function returns. *)
Definition succeeds {A} (c : Func A * World) : bool :=
  match outcome c with Returned _ => true | Raised _ => false end.

(** The wrapped function raises an exception that [except Exception]
    catches. *)
Definition fails {A} (c : Func A * World) : bool :=
  match outcome c with
  | Returned _ => false
  | Raised e => bool_decide (exc_class e = ExceptionClass)
  end.

(** The number of failed calls in a series. *)
Definition failures {A} (calls : list (Func A * World)) : Z :=
  Z.of_nat (length (filter (λ c, fails c = true) calls)).

(** What a holder of the breaker can do with it. *)
Inductive Op (A : Type) :=
| OpCall (c : Func A * World)
| OpReset.
Arguments OpCall {A} c.
Arguments OpReset {A}.

Definition step {A} (self : t) (op : Op A) : t :=
  match op with
  | OpCall c => (call self c.1 c.2).1.2
  | OpReset => reset self
  end.

Definition run {A} (self : t) (ops : list (Op A)) : t := foldl step self ops.

End Call.

End CircuitBreaker.

(** ** analytics/traffic_analytics.py *)

(** One entry of [request_history]. *)
Record RequestRecord := {
  rr_timestamp : Q;
  rr_instance : string;
  rr_success : bool;
  rr_response_time : Q
}.

Module TrafficAnalytics.
Local Open Scope Z_scope.

(** The two [defaultdict(int)] and the [defaultdict(list)] are finite maps;
    reading a missing key with [d[k]] yields the default (and [d.get(k, x)]
    yields [x]). *)
Record t := {
  requests_by_instance : gmap string Z;
  errors_by_instance : gmap string Z;
  response_times : gmap string (list Q);
  request_history : list RequestRecord;
  start_time : Q
}.

Definition __init__ (now : Q) : t :=
  {| requests_by_instance := ∅; errors_by_instance := ∅; response_times := ∅;
     request_history := []; start_time := now |}.

(** [d[k] += 1] on a [defaultdict(int)]. *)
Definition incr (k : string) (d : gmap string Z) : gmap string Z :=
  <[k := default 0 (d !! k) + 1]> d.

(** [now] is the reading of [datetime.now()]. *)
Definition record_request (self : t) (instance_name : string) (success : bool) (response_time now : Q) : t :=
  let history :=
    request_history self
    ++ [{| rr_timestamp := now; rr_instance := instance_name;
           rr_success := success; rr_response_time := response_time |}] in
  {| requests_by_instance := incr instance_name (requests_by_instance self);
     errors_by_instance :=
       if success then errors_by_instance self
       else incr instance_name (errors_by_instance self);
     response_times :=
       <[instance_name :=
           default [] (response_times self !! instance_name) ++ [response_time]]>
         (response_times self);
     request_history :=
       if (1000 <? length history)%nat then tail history else history;
     start_time := start_time self |}.

(** The integer entries of the dictionaries [get_instance_stats] and
    [get_overall_stats] return (the others are floats and formatted
    strings). *)
Record Counts := {
  total_requests : Z;
  successful_requests : Z;
  failed_requests : Z
}.

Definition get_instance_stats (self : t) (instance_name : string) : Counts :=
  let total_requests := default 0 (requests_by_instance self !! instance_name) in
  let total_errors := default 0 (errors_by_instance self !! instance_name) in
  {| total_requests := total_requests;
     successful_requests := total_requests - total_errors;
     failed_requests := total_errors |}.

(** [sum(d.values())] *)
Definition sum_values (d : gmap string Z) : Z :=
  map_fold (λ _ v acc, v + acc) 0 d.

Definition get_overall_stats (self : t) : Counts :=
  let total_requests := sum_values (requests_by_instance self) in
  let total_errors := sum_values (errors_by_instance self) in
  {| total_requests := total_requests;
     successful_requests := total_requests - total_errors;
     failed_requests := total_errors |}.

(** [request_history[-limit:]] for an integer [limit]: the slice starts at
    [len - limit] when [limit] is positive (at 0 when that is negative), at
    index 0 when [limit] is 0, and at index [-limit] when [limit] is
    negative. *)
Definition get_recent_requests (self : t) (limit : Z) : list RequestRecord :=
  let n := length (request_history self) in
  if 0 <? limit then drop (n - Z.to_nat limit) (request_history self)
  else drop (Z.to_nat (- limit)) (request_history self).

Definition reset (self : t) (now : Q) : t := __init__ now.

(** A series of [record_request] calls:
    (instance name, success, response time, clock reading). *)
Definition record_many (self : t) (requests : list (string * bool * Q * Q)) : t :=
  foldl (λ a r, record_request a r.1.1.1 r.1.1.2 r.1.2 r.2) self requests.

End TrafficAnalytics.

(** The history entry a recorded request leaves. *)
Definition history_entry (r : string * bool * Q * Q) : RequestRecord :=
  {| rr_timestamp := r.2; rr_instance := r.1.1.1;
     rr_success := r.1.1.2; rr_response_time := r.1.2 |}.

(** ** failover/failover_manager.py *)

(** A Python [dict] with string keys: insertion-ordered, one entry per key;
    assigning to a key that is present replaces the value where it stands. *)
Definition dict (V : Type) : Type := list (string * V).

Fixpoint dict_set {V} (k : string) (v : V) (d : dict V) : dict V :=
  match d with
  | [] => [(k, v)]
  | (k', v') :: d' =>
      if decide (k' = k) then (k, v) :: d' else (k', v') :: dict_set k v d'
  end.

Fixpoint dict_get {V} (k : string) (d : dict V) : option V :=
  match d with
  | [] => None
  | (k', v') :: d' => if decide (k' = k) then Some v' else dict_get k d'
  end.

Inductive EventType := Failover | Failback.

#[global] Instance EventType_eq_dec : EqDecision EventType.
Proof. solve_decision. Defined.

Record Event := {
  ev_timestamp : Q;
  ev_type : EventType;
  ev_from : string;
  ev_to : string;
  ev_reason : string
}.

Module FailoverManager.

(** The manager's dictionaries hold references to the balancer's instance
    objects. The balancer itself, which the manager also refers to, is
    passed to the two methods that read it. *)
Record t := {
  enable_failback : bool;
  primary_instances : dict loc;
  backup_instances : dict loc;
  failover_history : list Event
}.

Definition __init__ (enable_failback : bool) : t :=
  {| enable_failback := enable_failback; primary_instances := [];
     backup_instances := []; failover_history := [] |}.

Definition set_primary (self : t) (lb : LoadBalancer.t) (h : Heap) (instance_name : string) : t :=
  match LoadBalancer.get_instance_by_name lb h instance_name with
  | Some instance =>
      {| enable_failback := enable_failback self;
         primary_instances := dict_set instance_name instance (primary_instances self);
         backup_instances := backup_instances self;
         failover_history := failover_history self |}
  | None => self
  end.

Definition set_backup (self : t) (lb : LoadBalancer.t) (h : Heap) (primary_name backup_name : string) : t :=
  match LoadBalancer.get_instance_by_name lb h backup_name with
  | Some backup =>
      {| enable_failback := enable_failback self;
         primary_instances := primary_instances self;
         backup_instances := dict_set primary_name backup (backup_instances self);
         failover_history := failover_history self |}
  | None => self
  end.

Definition record_event (self : t) (e : Event) : t :=
  {| enable_failback := enable_failback self;
     primary_instances := primary_instances self;
     backup_instances := backup_instances self;
     failover_history := failover_history self ++ [e] |}.

Definition _perform_failover (self : t) (h : Heap) (primary backup : loc) (now : Q) : t :=
  record_event self
    {| ev_timestamp := now; ev_type := Failover;
       ev_from := ServiceInstance.name (deref h primary);
       ev_to := ServiceInstance.name (deref h backup);
       ev_reason := "primary_unhealthy" |}.

Definition _perform_failback (self : t) (h : Heap) (primary backup : loc) (now : Q) : t :=
  record_event self
    {| ev_timestamp := now; ev_type := Failback;
       ev_from := ServiceInstance.name (deref h backup);
       ev_to := ServiceInstance.name (deref h primary);
       ev_reason := "primary_recovered" |}.

(** The body of the loop of [check_and_failover]. *)
Definition failover_step (h : Heap) (now : Q) (self : t) (entry : string * loc) : t :=
  let '(primary_name, primary_instance) := entry in
  if negb (ServiceInstance.is_healthy (deref h primary_instance)) then
    match dict_get primary_name (backup_instances self) with
    | Some backup =>
        if ServiceInstance.is_healthy (deref h backup)
        then _perform_failover self h primary_instance backup now
        else self
    | None => self
    end
  else self.

(** [now] stands for the readings of [time.time()] during the call; the
    timestamps take part in no decision. *)
Definition check_and_failover (self : t) (h : Heap) (now : Q) : t :=
  foldl (failover_step h now) self (primary_instances self).

(** The body of the loop of [check_and_failback]. *)
Definition failback_step (h : Heap) (now : Q) (self : t) (entry : string * loc) : t :=
  let '(primary_name, primary_instance) := entry in
  if ServiceInstance.is_healthy (deref h primary_instance) then
    match dict_get primary_name (backup_instances self) with
    | Some backup =>
        if (ServiceInstance.total_requests (deref h primary_instance)
            <? ServiceInstance.total_requests (deref h backup))%Z
        then _perform_failback self h primary_instance backup now
        else self
    | None => self
    end
  else self.

Definition check_and_failback (self : t) (h : Heap) (now : Q) : t :=
  if enable_failback self
  then foldl (failback_step h now) self (primary_instances self)
  else self.

Definition get_failover_history (self : t) : list Event := failover_history self.

(** Python's [l[-n:]] for a positive literal [n]: the last [n] elements, or
    all of them when there are fewer. *)
Definition last_n {A} (n : nat) (l : list A) : list A :=
  drop (length l - n) l.

Record FailoverStats := {
  total_failovers : nat;
  total_failbacks : nat;
  recent_events : list Event
}.

Definition get_failover_stats (self : t) : FailoverStats :=
  {| total_failovers := length (filter (λ f, ev_type f = Failover) (failover_history self));
     total_failbacks := length (filter (λ f, ev_type f = Failback) (failover_history self));
     recent_events := last_n 5 (failover_history self) |}.

End FailoverManager.

(** The failover events of a log that leave the instance called [name]. *)
Definition failovers_from (name : string) (log : list Event) : list Event :=
  filter (λ e, ev_type e = Failover ∧ ev_from e = name) log.

(** ** Operations on a pool

    What callers, the dispatcher and the health monitor do to the instances
    of a pool, one operation at a time. A health check or a dispatch that
    raises leaves the pool as the call left it, and the next operation works
    on that. *)
Inductive PoolOp :=
| OpAddInstance (name url : string) (weight : Z) (now : Q)
| OpRemoveInstance (name : string)
| OpIncrementConnections (r : loc)
| OpDecrementConnections (r : loc)
| OpRecordRequest (r : loc) (success : bool) (response_time now : Q)
| OpMarkHealthy (r : loc) (now : Q)
| OpMarkUnhealthy (r : loc) (now : Q)
| OpMarkDegraded (r : loc) (now : Q)
| OpCheckHealth (checker : HealthChecker.t) (r : loc) (probe : ProbeResult) (now now' : Q)
| OpForwardRequest (rnd : nat) (transport : Transport) (now : Q) (path method : string) (data : option string) (timeout : Q).

Definition pool_step (st : LoadBalancer.t * Heap) (op : PoolOp) : LoadBalancer.t * Heap :=
  let '(lb, h) := st in
  match op with
  | OpAddInstance name url weight now => LoadBalancer.add_instance lb h name url weight now
  | OpRemoveInstance name => (LoadBalancer.remove_instance lb h name, h)
  | OpIncrementConnections r => (lb, mutate ServiceInstance.increment_connections r h)
  | OpDecrementConnections r => (lb, mutate ServiceInstance.decrement_connections r h)
  | OpRecordRequest r success response_time now =>
      (lb, mutate (λ i, ServiceInstance.record_request i success response_time now) r h)
  | OpMarkHealthy r now => (lb, mutate (λ i, ServiceInstance.mark_healthy i now) r h)
  | OpMarkUnhealthy r now => (lb, mutate (λ i, ServiceInstance.mark_unhealthy i now) r h)
  | OpMarkDegraded r now => (lb, mutate (λ i, ServiceInstance.mark_degraded i now) r h)
  | OpCheckHealth checker r probe now now' =>
      (lb, mutate (λ i, (HealthChecker.check_instance_health checker i probe now now').1.2) r h)
  | OpForwardRequest rnd transport now path method data timeout =>
      let '(_, lb', h') :=
        LoadBalancer.forward_request lb h rnd transport now path method data timeout in
      (lb', h')
  end.

Definition pool_run (st : LoadBalancer.t * Heap) (ops : list PoolOp) : LoadBalancer.t * Heap :=
  foldl pool_step st ops.

(** Every object of the heap has a non-negative connection count. *)
Definition connections_nonneg (h : Heap) : Prop :=
  Forall (λ i, (0 <= ServiceInstance.active_connections i)%Z) h.

(** A method of [ServiceInstance] keeps the count non-negative. *)
Definition keeps_nonneg (f : ServiceInstance.t -> ServiceInstance.t) : Prop :=
  ∀ i, (0 <= ServiceInstance.active_connections i)%Z ->
       (0 <= ServiceInstance.active_connections (f i))%Z.

(** The probe outcome the health checker treats as success: status 200. *)
Definition probe_succeeded (probe : ProbeResult) : bool :=
  match probe with
  | ProbeStatus status_code => (status_code =? 200)%Z
  | _ => false
  end.

(** The probe outcomes the health checker handles as a failure: any other
    status, a timeout, another [RequestException]. *)
Definition probe_failed (probe : ProbeResult) : bool :=
  match probe with
  | ProbeStatus status_code => negb (status_code =? 200)%Z
  | ProbeTimeout | ProbeRequestError _ => true
  | ProbeOtherError _ => false
  end.

(** The exception that escapes [check_instance_health], if the probe raises
    one that is not handled. *)
Definition probe_raises (probe : ProbeResult) : option PyExc :=
  match probe with
  | ProbeOtherError e => Some e
  | _ => None
  end.

(** The checks of a series whose probe failed in a handled way. *)
Definition handled_failures (probes : list (ProbeResult * Q * Q)) : list (ProbeResult * Q * Q) :=
  filter (λ p, probe_failed p.1.1 = true) probes.

(** Repeated calls of [check_and_failover], one per clock reading, with no
    change to the heap in between. *)
Definition check_and_failover_many (self : FailoverManager.t) (h : Heap) (nows : list Q) : FailoverManager.t :=
  foldl (λ fm now, FailoverManager.check_and_failover fm h now) self nows.

(** The event one entry of [primary_instances] gives rise to in
    [check_and_failover], if any. *)
Definition failover_event (backups : dict loc) (h : Heap) (now : Q) (entry : string * loc) : option Event :=
  if ServiceInstance.is_healthy (deref h entry.2) then None
  else
    backup ← dict_get entry.1 backups;
    if ServiceInstance.is_healthy (deref h backup)
    then Some {| ev_timestamp := now; ev_type := Failover;
                 ev_from := ServiceInstance.name (deref h entry.2);
                 ev_to := ServiceInstance.name (deref h backup);
                 ev_reason := "primary_unhealthy" |}
    else None.

(** Every entry of the dictionary is filed under the name of its instance,
    as [set_primary] files it. *)
Definition names_match (h : Heap) (d : dict loc) : Prop :=
  ∀ k r, (k, r) ∈ d -> ServiceInstance.name (deref h r) = k.

(** The event one entry of [primary_instances] gives rise to in
    [check_and_failback], if any. *)
Definition failback_event (backups : dict loc) (h : Heap) (now : Q) (entry : string * loc) : option Event :=
  if ServiceInstance.is_healthy (deref h entry.2) then
    backup ← dict_get entry.1 backups;
    if (ServiceInstance.total_requests (deref h entry.2)
        <? ServiceInstance.total_requests (deref h backup))%Z
    then Some {| ev_timestamp := now; ev_type := Failback;
                 ev_from := ServiceInstance.name (deref h backup);
                 ev_to := ServiceInstance.name (deref h entry.2);
                 ev_reason := "primary_recovered" |}
    else None
  else None.

(** The failback events of a log that return to the instance called
    [name]. *)
Definition failbacks_to (name : string) (log : list Event) : list Event :=
  filter (λ e, ev_type e = Failback ∧ ev_to e = name) log.

(** Every reference of the pool points into the heap. *)
Definition pool_wf (lb : LoadBalancer.t) (h : Heap) : Prop :=
  Forall (λ r, r < length h) (LoadBalancer.instances lb).

(** The request counters of an instance add up. *)
Definition requests_add_up (i : ServiceInstance.t) : Prop :=
  (ServiceInstance.successful_requests i + ServiceInstance.failed_requests i
   = ServiceInstance.total_requests i)%Z
  ∧ (0 <= ServiceInstance.successful_requests i)%Z
  ∧ (0 <= ServiceInstance.failed_requests i)%Z.

(** The transport outcomes [forward_request] turns into a response of its
    own: an answer whose body decodes, a timeout, a request error. *)
Definition handled (tr : TransportResult) : bool :=
  match tr with
  | Response _ _ (JsonValue _) | TimeoutError | RequestError _ => true
  | _ => false
  end.

(** The outcomes [forward_request] records as successful requests. *)
Definition request_succeeded (tr : TransportResult) : bool :=
  match tr with
  | Response status_code _ _ => (status_code <? 400)%Z
  | _ => false
  end.

(** What a dispatch does to the instance it selected, by transport
    outcome. *)
Definition dispatch_effect (tr : TransportResult) (timeout now : Q) (i : ServiceInstance.t) : ServiceInstance.t :=
  let started := ServiceInstance.increment_connections i in
  match tr with
  | Response status_code response_time json =>
      let finished :=
        ServiceInstance.decrement_connections
          (ServiceInstance.record_request started (status_code <? 400)%Z
             response_time now) in
      match json with
      | JsonRequestsError _ =>
          ServiceInstance.decrement_connections
            (ServiceInstance.record_request finished false 0%Q now)
      | _ => finished
      end
  | TimeoutError =>
      ServiceInstance.decrement_connections
        (ServiceInstance.record_request started false timeout now)
  | RequestError _ =>
      ServiceInstance.decrement_connections
        (ServiceInstance.record_request started false 0%Q now)
  | OtherError _ => started
  end.

(** The search of [get_instance_by_name], over any list of references. *)
Definition find_name (h : Heap) (name : string) (l : list loc) : option loc :=
  list_find (λ r, ServiceInstance.name (deref h r) = name) l ≫= λ p, Some p.2.

(** How many references of a list point to an instance in state [s]. *)
Definition count_status (h : Heap) (s : HealthStatus) (l : list loc) : nat :=
  length (filter (λ r, ServiceInstance.health_status (deref h r) = s) l).

(** A pool as [add_instance] builds it: every reference points into the
    heap and no object is pooled twice. *)
Definition pool_ok (lb : LoadBalancer.t) (h : Heap) : Prop :=
  pool_wf lb h ∧ NoDup (LoadBalancer.instances lb)
  ∧ algorithm_coherent (LoadBalancer.algorithm lb).

(** What an instance is created with and no method assigns. *)
Definition identity (i : ServiceInstance.t) : string * string * Z * Q :=
  (ServiceInstance.name i, ServiceInstance.url i, ServiceInstance.weight i,
   ServiceInstance.created_at i).

(** The recorded requests that went to [name], and those of them that
    failed. *)
Definition requests_to (name : string) (rs : list (string * bool * Q * Q)) : list (string * bool * Q * Q) :=
  filter (λ r, r.1.1.1 = name) rs.

Definition failed_among (rs : list (string * bool * Q * Q)) : list (string * bool * Q * Q) :=
  filter (λ r, r.1.1.2 = false) rs.

(** How often a call returned the instance [x]. *)
Definition times_selected `{EqDecision A} (x : A) (rs : list (option A)) : nat :=
  length (filter (λ r, r = Some x) rs).

(** How often [x] occurs in a candidate list. *)
Definition occurrences `{EqDecision A} (x : A) (l : list A) : nat :=
  length (filter (λ y, y = x) l).

(** What [n] consecutive reads of [l[cursor % len(l)]] yield when the cursor
    starts at [k] and advances by one after each read. *)
Definition slots {A} (k n : nat) (l : list A) : list (option A) :=
  (λ j, l !! ((k + j) `mod` length l)) <$> seq 0 n.

Definition ceil_div (n d : nat) : nat :=
  n `div` d + (if n `mod` d =? 0 then 0 else 1).

(** ** Scenarios of tests.py

    The objects the unit tests build, used below to instantiate the
    properties. *)

(** A world that is nothing but its clock. *)
Definition clock_time (w : Q) : Q := w.

(** The wrapped functions of [test_04_circuit_breaker]: one raises
    [Exception("Error")], one returns ["success"]; neither moves the clock. *)
Definition raise_error : @CircuitBreaker.Func Q string :=
  λ w, (Raised (Exception "Error"), w).

Definition return_success : @CircuitBreaker.Func Q string :=
  λ w, (Returned "success", w).

(** [CircuitBreaker(failure_threshold=3, timeout=1)] *)
Definition test_breaker : CircuitBreaker.t := CircuitBreaker.__init__ 3 1 3.

(** The breaker after three failed calls at clock reading 0. *)
Definition opened_breaker : CircuitBreaker.t :=
  CircuitBreaker.call_many clock_time test_breaker
    [(raise_error, 0%Q); (raise_error, 0%Q); (raise_error, 0%Q)].

(** The pool of [test_05_failover_mechanism], its manager, and the heap once
    the test has marked the primary unhealthy and the backup healthy. *)
Definition failover_pool : LoadBalancer.t * Heap :=
  let '(lb, h) :=
    LoadBalancer.add_instance (LoadBalancer.__init__ "round_robin") []
      "primary" "http://localhost:5001" 1 0 in
  LoadBalancer.add_instance lb h "backup" "http://localhost:5002" 1 0.

Definition failover_manager : FailoverManager.t :=
  let '(lb, h) := failover_pool in
  FailoverManager.set_backup
    (FailoverManager.set_primary (FailoverManager.__init__ true) lb h "primary")
    lb h "primary" "backup".

Definition failover_heap : Heap :=
  mutate (λ i, ServiceInstance.mark_healthy i 0) 1
    (mutate (λ i, ServiceInstance.mark_unhealthy i 0) 0 failover_pool.2).

(** The pool of [test_02_weighted_algorithm]: weights 3 and 1. *)
Definition weighted_pool : LoadBalancer.t * Heap :=
  let '(lb, h) :=
    LoadBalancer.add_instance (LoadBalancer.__init__ "weighted") []
      "service-1" "http://localhost:5001" 3 0 in
  LoadBalancer.add_instance lb h "service-2" "http://localhost:5002" 1 0.

(** A transport whose every request times out. *)
Definition timing_out : Transport := λ _ _ _ _, TimeoutError.

(** A transport that raises something other than a request error. *)
Definition crashing : Transport := λ _ _ _ _, OtherError (Exception "boom").

(** Two instances without positive weight. *)
Definition weightless_heap : Heap :=
  [ServiceInstance.__init__ "service-1" "http://localhost:5001" 0 0;
   ServiceInstance.__init__ "service-2" "http://localhost:5002" (-1) 0].

(** The breaker of [test_04_circuit_breaker] after the timeout and one
    successful trial call: half-open, one of three trial calls issued. *)
Definition trial_breaker : CircuitBreaker.t :=
  (CircuitBreaker.call clock_time opened_breaker return_success (3 # 2)).1.2.

(** A probe that answers 200 for the first instance and times out for the
    others. *)
Definition first_only : loc -> ProbeResult :=
  λ r, if (r =? 0)%nat then ProbeStatus 200 else ProbeTimeout.

(** A probe that raises an exception that is not a [RequestException] for
    the first instance and answers 200 for the others. *)
Definition first_raises : loc -> ProbeResult :=
  λ r, if (r =? 0)%nat
       then ProbeOtherError (Exception "invalid timeout")
       else ProbeStatus 200.

(** [CircuitBreaker(failure_threshold=3, timeout=1, half_open_max_calls=0)]
    after three failed calls at clock reading 0. *)
Definition no_trial_breaker : CircuitBreaker.t :=
  CircuitBreaker.call_many clock_time (CircuitBreaker.__init__ 3 1 0)
    [(raise_error, 0%Q); (raise_error, 0%Q); (raise_error, 0%Q)].

(** * Properties *)

(** ** Round robin *)

Section RoundRobinFacts.
Context {A : Type}.
Implicit Types (l : list A) (self : RoundRobinAlgorithm.t).

Lemma select_instance_nonempty self l :
  l ≠ [] →
  RoundRobinAlgorithm.select_instance self l =
    (l !! (RoundRobinAlgorithm.current_index self `mod` length l),
     {| RoundRobinAlgorithm.current_index := S (RoundRobinAlgorithm.current_index self) |}).
Proof. by destruct l. Qed.

Lemma select_many_slots n : ∀ self l,
  l ≠ [] →
  RoundRobinAlgorithm.select_many n self l =
    (slots (RoundRobinAlgorithm.current_index self) n l,
     {| RoundRobinAlgorithm.current_index := RoundRobinAlgorithm.current_index self + n |}).
Proof.
  induction n as [|n IH]; intros [k] l Hl.
  - cbn. by rewrite Nat.add_0_r.
  - cbn [RoundRobinAlgorithm.select_many].
    rewrite select_instance_nonempty, IH by done. cbn.
    unfold slots. cbn [seq fmap list_fmap].
    rewrite Nat.add_0_r. f_equal; [|f_equal; lia].
    f_equal. rewrite <-fmap_S_seq, <-list_fmap_compose.
    apply list_fmap_ext. intros _ j _. cbn. do 2 f_equal. lia.
Qed.

Lemma slots_app k n1 n2 l :
  slots k (n1 + n2) l = slots k n1 l ++ slots (k + n1) n2 l.
Proof.
  unfold slots. rewrite seq_app, fmap_app. f_equal.
  replace (0 + n1) with (n1 + 0) by lia.
  rewrite <-(fmap_add_seq n1 0), <-list_fmap_compose.
  apply list_fmap_ext. intros _ j _. cbn. do 2 f_equal. lia.
Qed.

Lemma slots_period k n l : slots (k + length l) n l = slots k n l.
Proof.
  unfold slots. apply list_fmap_ext. intros _ j _. cbn. f_equal.
  replace (k + length l + j) with (k + j + 1 * length l) by lia.
  apply Nat.Div0.mod_add.
Qed.

Lemma rotate_nat_add_mod k i n : 0 < n → rotate_nat_add k i n = (k + i) `mod` n.
Proof.
  intros Hn. unfold rotate_nat_add.
  rewrite <-Nat2Z.inj_add, <-Nat2Z.inj_mod. apply Nat2Z.id.
Qed.

(** Up to one full round, the calls walk through the list rotated by the
    cursor. *)
Lemma slots_rotate k r l :
  r ≤ length l → slots k r l = Some <$> take r (rotate k l).
Proof.
  intros Hr. apply list_eq. intros i. unfold slots.
  rewrite !list_lookup_fmap.
  destruct (decide (i < r)) as [Hi|Hi].
  - rewrite lookup_seq_lt, lookup_take_lt by done.
    rewrite lookup_rotate_r, rotate_nat_add_mod by lia. cbn.
    destruct (lookup_lt_is_Some_2 l ((k + i) `mod` length l)) as [x ->]; [|done].
    apply Nat.mod_upper_bound. lia.
  - by rewrite lookup_seq_ge, lookup_take_ge by lia.
Qed.

Lemma slots_rounds k q r l :
  slots k (q * length l + r) l =
    mjoin (replicate q (slots k (length l) l)) ++ slots k r l.
Proof.
  induction q as [|q IH]; [done|].
  replace (S q * length l + r) with (length l + (q * length l + r)) by lia.
  rewrite slots_app, slots_period, IH. cbn. by rewrite <-app_assoc.
Qed.

Lemma join_replicate_fmap {B} (f : A → B) q (xs : list A) :
  mjoin (replicate q (f <$> xs)) = f <$> mjoin (replicate q xs).
Proof.
  induction q as [|q IH]; [done|].
  change ((f <$> xs) ++ mjoin (replicate q (f <$> xs)) =
          f <$> (xs ++ mjoin (replicate q xs))).
  by rewrite IH, fmap_app.
Qed.

(** The values returned by [n] consecutive calls: whole rounds of the
    rotated list, then the beginning of one more. *)
Lemma slots_rotation_repeated k n l :
  l ≠ [] →
  slots k n l =
    Some <$> (mjoin (replicate (n `div` length l) (rotate k l))
              ++ take (n `mod` length l) (rotate k l)).
Proof.
  intros Hl. assert (0 < length l) by (destruct l; [done|cbn; lia]).
  rewrite (Nat.div_mod_eq n (length l)) at 1.
  rewrite (Nat.mul_comm (length l)), slots_rounds.
  rewrite !slots_rotate by (pose proof (Nat.mod_upper_bound n (length l)); lia).
  rewrite firstn_all2 by (by rewrite length_rotate).
  by rewrite join_replicate_fmap, fmap_app.
Qed.
End RoundRobinFacts.

Section Counting.
Context `{EqDecision A}.
Implicit Types (l : list A) (x : A).

Lemma occurrences_app x l1 l2 :
  occurrences x (l1 ++ l2) = occurrences x l1 + occurrences x l2.
Proof. unfold occurrences. by rewrite filter_app, length_app. Qed.

Lemma occurrences_rotate x k l : occurrences x (rotate k l) = occurrences x l.
Proof.
  unfold rotate. rewrite occurrences_app.
  pose proof (occurrences_app x (take (k `mod` length l) l)
                (drop (k `mod` length l) l)) as Hsplit.
  rewrite take_drop in Hsplit. lia.
Qed.

Lemma occurrences_take x r l : occurrences x (take r l) ≤ occurrences x l.
Proof.
  pose proof (occurrences_app x (take r l) (drop r l)) as Hsplit.
  rewrite take_drop in Hsplit. lia.
Qed.

Lemma occurrences_rounds x q l :
  occurrences x (mjoin (replicate q l)) = q * occurrences x l.
Proof.
  induction q as [|q IH]; [done|].
  change (mjoin (replicate (S q) l)) with (l ++ mjoin (replicate q l)).
  rewrite occurrences_app, IH. lia.
Qed.

Lemma times_selected_Some x l : times_selected x (Some <$> l) = occurrences x l.
Proof.
  unfold times_selected, occurrences.
  induction l as [|y l IH]; [done|]. rewrite fmap_cons, !filter_cons.
  destruct (decide (y = x)) as [->|Hne].
  - rewrite decide_True by done. cbn. by rewrite IH.
  - rewrite decide_False by congruence. done.
Qed.

Lemma occurrences_NoDup x l : NoDup l → x ∈ l → occurrences x l = 1.
Proof.
  unfold occurrences. induction 1 as [|y l Hy Hnd IH]; intros Hx.
  - by apply elem_of_nil in Hx.
  - rewrite filter_cons. destruct (decide (y = x)) as [->|Hne].
    + cbn. f_equal. destruct (filter (λ y, y = x) l) as [|z ?] eqn:Hf; [done|].
      assert (z ∈ filter (λ y, y = x) l) as Hz by (rewrite Hf; left).
      apply list_elem_of_filter in Hz as [-> ?]. done.
    + apply elem_of_cons in Hx as [->|Hx]; [done|]. by apply IH.
Qed.
End Counting.

(** C3. On a non-empty list that stays the same, [N] consecutive round-robin
    selections are whole rounds of the list rotated by the cursor followed by
    the beginning of one more round; every instance is therefore returned
    [⌊N/L⌋] or [⌈N/L⌉] times (once per slot it occupies in the list). *)
Theorem round_robin_fair `{EqDecision A} (instances : list A)
    (self : RoundRobinAlgorithm.t) (N : nat) :
  instances ≠ [] →
  let L := length instances in
  let rotated := rotate (RoundRobinAlgorithm.current_index self) instances in
  let selections := (RoundRobinAlgorithm.select_many N self instances).1 in
  selections =
    Some <$> (mjoin (replicate (N `div` L) rotated) ++ take (N `mod` L) rotated)
  ∧ (∀ x, occurrences x instances * (N `div` L)
          ≤ times_selected x selections
          ≤ occurrences x instances * ceil_div N L)
  ∧ (NoDup instances → ∀ x, x ∈ instances →
       times_selected x selections = N `div` L
       ∨ times_selected x selections = ceil_div N L).
Proof.
  intros Hne L rotated selections.
  assert (selections =
    Some <$> (mjoin (replicate (N `div` L) rotated) ++ take (N `mod` L) rotated))
    as Hsel.
  { unfold selections. rewrite select_many_slots by done. cbn [fst].
    by apply slots_rotation_repeated. }
  assert (∀ x, occurrences x instances * (N `div` L)
          ≤ times_selected x selections
          ≤ occurrences x instances * ceil_div N L) as Hcount.
  { intros x. rewrite Hsel, times_selected_Some, occurrences_app, occurrences_rounds.
    pose proof (occurrences_take x (N `mod` L) rotated) as Htake.
    pose proof (occurrences_rotate x (RoundRobinAlgorithm.current_index self)
                  instances) as Hrot.
    fold rotated in Hrot. rewrite Hrot in *.
    unfold ceil_div, L in *.
    destruct (Nat.eqb_spec (N `mod` length instances) 0) as [Hz|Hnz].
    - rewrite Hz, take_0. change (occurrences x []) with 0. lia.
    - lia. }
  split; [done|]. split; [done|].
  intros Hnd x Hx. specialize (Hcount x).
  rewrite (occurrences_NoDup x instances Hnd Hx) in Hcount.
  unfold ceil_div, L in *. destruct (N `mod` length instances =? 0). all: lia.
Qed.

Lemma round_robin_fair_witness :
  ["a"; "b"; "c"] ≠ ([] : list string)
  ∧ (RoundRobinAlgorithm.select_many 7 {| RoundRobinAlgorithm.current_index := 1 |}
       ["a"; "b"; "c"]).1
    = [Some "b"; Some "c"; Some "a"; Some "b"; Some "c"; Some "a"; Some "b"].
Proof.
  split; [done|].
  exact (proj1 (round_robin_fair ["a"; "b"; "c"]
                  {| RoundRobinAlgorithm.current_index := 1 |} 7 ltac:(done))).
Defined.

(** ** Weighted round robin *)

Section WeightedRoundRobinFacts.
Import WeightedRoundRobinAlgorithm.
Implicit Types (h : Heap) (self : t) (instances expansion : list loc).

(** Once the expansion has been built for the candidate list, a call is a
    plain round-robin read of the expansion. *)
Lemma select_instance_steady h self instances :
  instances ≠ [] →
  last_instances self = Some instances →
  weighted_instances self ≠ [] →
  select_instance h self instances =
    (weighted_instances self !! (current_index self `mod` length (weighted_instances self)),
     {| current_index := S (current_index self);
        weighted_instances := weighted_instances self;
        last_instances := last_instances self |}).
Proof.
  intros Hne Hlast Hw. unfold select_instance.
  destruct instances as [|first rest]; [done|].
  rewrite bool_decide_true by done.
  by destruct (weighted_instances self).
Qed.

Lemma select_many_steady n : ∀ h self instances,
  instances ≠ [] →
  last_instances self = Some instances →
  weighted_instances self ≠ [] →
  (select_many n h self instances).1 =
    slots (current_index self) n (weighted_instances self).
Proof.
  induction n as [|n IH]; intros h self instances Hne Hlast Hw; [done|].
  cbn [select_many]. rewrite select_instance_steady by done.
  specialize (IH h {| current_index := S (current_index self);
                      weighted_instances := weighted_instances self;
                      last_instances := last_instances self |} instances Hne Hlast Hw).
  destruct (select_many n h _ instances) as [rs self2]. cbn in *. subst rs.
  unfold slots. cbn [seq fmap list_fmap]. rewrite Nat.add_0_r. f_equal.
  rewrite <-fmap_S_seq, <-list_fmap_compose.
  apply list_fmap_ext. intros _ j _. cbn. do 2 f_equal. lia.
Qed.

(** A freshly constructed algorithm builds the expansion on its first call
    and then reads it round robin. *)
Lemma select_many_fresh n h instances :
  instances ≠ [] →
  _build_weighted_list h instances ≠ [] →
  (select_many n h __init__ instances).1 =
    slots 0 n (_build_weighted_list h instances).
Proof.
  intros Hne Hw.
  set (built := {| current_index := 0;
                   weighted_instances := _build_weighted_list h instances;
                   last_instances := Some instances |}).
  assert (select_instance h __init__ instances = select_instance h built instances)
    as Hfirst.
  { unfold select_instance. destruct instances as [|first rest]; [done|].
    rewrite bool_decide_false by done.
    by rewrite bool_decide_true by done. }
  trans (select_many n h built instances).1;
    [|by apply (select_many_steady n h built instances)].
  destruct n as [|n]; [done|]. cbn [select_many]. by rewrite Hfirst.
Qed.

End WeightedRoundRobinFacts.

(** C6. A freshly constructed weighted round robin, called 12 times with the
    same two candidates of weights 3 and 1, returns the first 9 times and the
    second 3 times (three rounds of the expansion [a; a; a; b]). *)
Theorem weighted_round_robin_3_1 (h : Heap) (a b : loc) :
  a ≠ b →
  ServiceInstance.weight (deref h a) = 3%Z →
  ServiceInstance.weight (deref h b) = 1%Z →
  let selections :=
    (WeightedRoundRobinAlgorithm.select_many 12 h
       WeightedRoundRobinAlgorithm.__init__ [a; b]).1 in
  selections = Some <$> [a; a; a; b; a; a; a; b; a; a; a; b]
  ∧ times_selected a selections = 9
  ∧ times_selected b selections = 3.
Proof.
  intros Hab Ha Hb selections.
  assert (WeightedRoundRobinAlgorithm._build_weighted_list h [a; b] = [a; a; a; b])
    as Hbuilt.
  { unfold WeightedRoundRobinAlgorithm._build_weighted_list. cbn.
    by rewrite Ha, Hb. }
  assert (selections = Some <$> [a; a; a; b; a; a; a; b; a; a; a; b]) as Hsel.
  { unfold selections. rewrite select_many_fresh by (by rewrite ?Hbuilt).
    by rewrite Hbuilt. }
  split; [done|]. rewrite Hsel, !times_selected_Some. unfold occurrences.
  split.
  - repeat first [rewrite filter_cons_True by done
                 | rewrite filter_cons_False by congruence]. done.
  - repeat first [rewrite filter_cons_True by done
                 | rewrite filter_cons_False by congruence]. done.
Qed.

(** ** Connection counts *)

Create HintDb nonneg.

Section ConnectionCounts.
Local Open Scope Z_scope.
Implicit Types (h : Heap) (i : ServiceInstance.t) (r : loc).

Lemma mutate_nonneg f r h :
  keeps_nonneg f → connections_nonneg h → connections_nonneg (mutate f r h).
Proof. intros Hf Hh. apply Forall_alter; auto. Qed.

Lemma increment_keeps_nonneg : keeps_nonneg ServiceInstance.increment_connections.
Proof. intros i Hi. cbn. lia. Qed.

(** [decrement_connections] clamps at zero, whatever the count was. *)
Lemma decrement_nonneg i :
  0 ≤ ServiceInstance.active_connections (ServiceInstance.decrement_connections i).
Proof. cbn. lia. Qed.

Lemma decrement_keeps_nonneg : keeps_nonneg ServiceInstance.decrement_connections.
Proof. intros i _. apply decrement_nonneg. Qed.

Lemma record_request_keeps_nonneg success response_time now :
  keeps_nonneg (λ i, ServiceInstance.record_request i success response_time now).
Proof. by intros i Hi. Qed.

Lemma set_health_keeps_nonneg st cf now :
  keeps_nonneg (λ i, ServiceInstance.set_health i st (cf i) now).
Proof. by intros i Hi. Qed.

Lemma check_instance_health_keeps_nonneg checker probe now now' :
  keeps_nonneg (λ i, (HealthChecker.check_instance_health checker i probe now now').1.2).
Proof.
  intros i Hi. unfold HealthChecker.check_instance_health, HealthChecker.probe_step.
  destruct probe as [status_code| |msg|e]; [destruct (status_code =? 200)| | |done];
    match goal with |- context [HealthChecker.should_escalate ?c ?x] =>
      destruct (HealthChecker.should_escalate c x) end; done.
Qed.

Lemma alloc_nonneg name url weight now h :
  connections_nonneg h →
  connections_nonneg (alloc (ServiceInstance.__init__ name url weight now) h).2.
Proof. intros Hh. apply Forall_app. split; [done|]. by repeat constructor. Qed.

#[local] Hint Resolve mutate_nonneg increment_keeps_nonneg decrement_keeps_nonneg
  record_request_keeps_nonneg : nonneg.

(** Whatever the transport does, a dispatch leaves every count
    non-negative. *)
Lemma forward_request_nonneg lb h rnd transport now path method data timeout :
  connections_nonneg h →
  connections_nonneg
    (LoadBalancer.forward_request lb h rnd transport now path method data timeout).2.
Proof.
  intros Hh. unfold LoadBalancer.forward_request.
  destruct (LoadBalancer.get_next_instance lb h rnd) as [[r|] lb1]; [|done].
  destruct (LoadBalancer.perform _ _ _ _ _) as [status_code elapsed [body|msg|e]| |msg|e];
    cbn [snd]; auto 10 with nonneg.
Qed.

Lemma pool_step_nonneg st op :
  connections_nonneg st.2 → connections_nonneg (pool_step st op).2.
Proof.
  destruct st as [lb h]. cbn [snd]. intros Hh.
  destruct op; cbn [pool_step snd]; auto with nonneg.
  - by apply alloc_nonneg.
  - apply mutate_nonneg; [|done]. by intros i Hi.
  - apply mutate_nonneg; [|done]. by intros i Hi.
  - apply mutate_nonneg; [|done]. by intros i Hi.
  - apply mutate_nonneg; [|done]. apply check_instance_health_keeps_nonneg.
  - pose proof (forward_request_nonneg lb h rnd transport now path method data timeout Hh)
      as Hfwd.
    by destruct (LoadBalancer.forward_request _ _ _ _ _ _ _ _ _) as [[o lb'] h'].
Qed.

Lemma pool_run_nonneg ops : ∀ st,
  connections_nonneg st.2 → connections_nonneg (pool_run st ops).2.
Proof.
  induction ops as [|op ops IH]; intros st Hst; [done|].
  cbn. apply IH. by apply pool_step_nonneg.
Qed.

End ConnectionCounts.

(** C5. Whatever sequence of pool operations is applied (increments,
    decrements, dispatches with any transport outcome, health marks, adding
    and removing instances), the connection count of every instance stays a
    non-negative integer. *)
Theorem active_connections_never_negative (lb : LoadBalancer.t) (h : Heap)
    (ops : list PoolOp) (r : loc) :
  connections_nonneg h →
  connections_nonneg (pool_run (lb, h) ops).2
  ∧ (0 ≤ ServiceInstance.active_connections (deref (pool_run (lb, h) ops).2 r))%Z.
Proof.
  intros Hh.
  pose proof (pool_run_nonneg ops (lb, h) Hh) as Hrun.
  split; [done|]. unfold deref. rewrite list_lookup_total_alt.
  destruct (_ !! r) as [i|] eqn:Hr; [|done].
  by apply (proj1 (Forall_lookup _ _) Hrun r i).
Qed.

(** ** Health checks *)

Section HealthFacts.
Local Open Scope Z_scope.
Import HealthChecker.
Implicit Types (self : HealthChecker.t) (i : ServiceInstance.t) (probe : ProbeResult).

(** What the probe step leaves behind, by outcome. *)
Lemma probe_step_success i probe now :
  probe_succeeded probe = true →
  (probe_step i probe now).1 = (Returned tt, ServiceInstance.mark_healthy i now).
Proof.
  destruct probe as [status_code| |msg|e]; cbn; [|done..].
  by intros ->.
Qed.

Lemma probe_step_failure i probe now :
  probe_failed probe = true →
  (probe_step i probe now).1 = (Returned tt, ServiceInstance.mark_unhealthy i now).
Proof.
  destruct probe as [status_code| |msg|e]; cbn; [|done..].
  by destruct (status_code =? 200).
Qed.

Lemma probe_step_raises i e now :
  probe_step i (ProbeOtherError e) now = (Raised e, i, []).
Proof. done. Qed.

(** A probe succeeds, fails in a handled way, or raises. *)
Lemma probe_cases probe :
  (probe_succeeded probe = true ∧ probe_failed probe = false
   ∧ probe_raises probe = None)
  ∨ (probe_succeeded probe = false ∧ probe_failed probe = true
     ∧ probe_raises probe = None)
  ∨ (probe_succeeded probe = false ∧ probe_failed probe = false
     ∧ ∃ e, probe = ProbeOtherError e).
Proof.
  destruct probe as [status_code| |msg|e]; cbn; [|by right; left..|by right; right; eauto].
  destruct (status_code =? 200); [by left|by right; left].
Qed.

(** After a probe step that ends normally the instance is unhealthy or has
    no failure on record. *)
Lemma probe_step_unhealthy_or_zero i probe now :
  (probe_step i probe now).1.1 = Returned tt →
  ServiceInstance.health_status (probe_step i probe now).1.2 = UNHEALTHY
  ∨ ServiceInstance.consecutive_failures (probe_step i probe now).1.2 = 0.
Proof.
  destruct (probe_cases probe) as [(Hp & _)|[(_ & Hp & _)|(_ & _ & e & ->)]].
  - right. by rewrite probe_step_success.
  - left. by rewrite probe_step_failure.
  - done.
Qed.

Lemma should_escalate_after_probe self i probe now :
  1 ≤ unhealthy_threshold self →
  (probe_step i probe now).1.1 = Returned tt →
  should_escalate self (probe_step i probe now).1.2 = false.
Proof.
  intros Hth Hret. unfold should_escalate.
  destruct (probe_step_unhealthy_or_zero i probe now Hret) as [-> | ->].
  - by rewrite andb_false_r.
  - apply andb_false_intro1. lia.
Qed.

Lemma check_instance_health_is_probe_step self i probe now now' :
  1 ≤ unhealthy_threshold self →
  check_instance_health self i probe now now' = probe_step i probe now.
Proof.
  intros Hth. unfold check_instance_health.
  pose proof (should_escalate_after_probe self i probe now Hth) as Hesc.
  destruct (probe_step i probe now) as [[[[]|e] i1] log]; [|done].
  cbn in Hesc. by rewrite Hesc.
Qed.

(** With a threshold below 1 the statement after the [try] does fire: a
    successful probe is followed by a second marking. *)
Lemma check_instance_health_threshold_0 i now now' :
  let checked :=
    (check_instance_health (HealthChecker.__init__ 5 2 0) i (ProbeStatus 200) now now').1.2 in
  ServiceInstance.health_status checked = UNHEALTHY
  ∧ ServiceInstance.consecutive_failures checked = 1.
Proof. done. Qed.

(** With a threshold below 1 every check that ends normally leaves the
    instance Unhealthy. *)
Lemma check_instance_health_no_threshold self i probe now now' :
  unhealthy_threshold self ≤ 0 →
  (probe_succeeded probe = true →
     (check_instance_health self i probe now now').1
     = (Returned tt,
        ServiceInstance.mark_unhealthy (ServiceInstance.mark_healthy i now) now'))
  ∧ (probe_failed probe = true →
     (check_instance_health self i probe now now').1
     = (Returned tt, ServiceInstance.mark_unhealthy i now)).
Proof.
  intros Hth. unfold check_instance_health. split; intros Hp.
  - pose proof (probe_step_success i probe now Hp) as Hstep.
    destruct (probe_step i probe now) as [[out i1] log]. cbn in Hstep.
    injection Hstep as -> ->. unfold should_escalate. cbn.
    by destruct (Z.leb_spec (unhealthy_threshold self) 0); [|lia].
  - pose proof (probe_step_failure i probe now Hp) as Hstep.
    destruct (probe_step i probe now) as [[out i1] log]. cbn in Hstep.
    injection Hstep as -> ->. unfold should_escalate. cbn.
    by rewrite andb_false_r.
Qed.

End HealthFacts.

(** C7. For a checker whose threshold is at least 1: a probe that answers
    with a status other than 200 (another 2xx included), times out or fails
    with a [RequestException] marks the instance Unhealthy and adds one to
    [consecutive_failures]; a probe that answers 200 marks it Healthy and
    sets [consecutive_failures] to 0; a probe that raises any other
    exception lets it escape and leaves the instance as it was. The probe
    step does this for every checker. With a threshold below 1 the check
    ends Unhealthy in every handled case, with [consecutive_failures] 1
    after a 200. *)
Theorem health_probe_outcome (self : HealthChecker.t) (i : ServiceInstance.t)
    (probe : ProbeResult) (now now' : Q) :
  let probed := (HealthChecker.probe_step i probe now).1.2 in
  let check := HealthChecker.check_instance_health self i probe now now' in
  let checked := check.1.2 in
  match probe with
  | ProbeOtherError e =>
      HealthChecker.probe_step i probe now = (Raised e, i, [])
      ∧ check = (Raised e, i, [])
  | _ =>
      (HealthChecker.probe_step i probe now).1.1 = Returned tt
      ∧ check.1.1 = Returned tt
      ∧ (if probe_succeeded probe
         then ServiceInstance.health_status probed = HEALTHY
              ∧ ServiceInstance.consecutive_failures probed = 0%Z
         else ServiceInstance.health_status probed = UNHEALTHY
              ∧ ServiceInstance.consecutive_failures probed
                = (ServiceInstance.consecutive_failures i + 1)%Z)
      ∧ ((1 ≤ HealthChecker.unhealthy_threshold self)%Z →
         if probe_succeeded probe
         then ServiceInstance.health_status checked = HEALTHY
              ∧ ServiceInstance.consecutive_failures checked = 0%Z
         else ServiceInstance.health_status checked = UNHEALTHY
              ∧ ServiceInstance.consecutive_failures checked
                = (ServiceInstance.consecutive_failures i + 1)%Z)
      ∧ ((HealthChecker.unhealthy_threshold self ≤ 0)%Z →
         ServiceInstance.health_status checked = UNHEALTHY
         ∧ ServiceInstance.consecutive_failures checked
           = if probe_succeeded probe then 1%Z
             else (ServiceInstance.consecutive_failures i + 1)%Z)
  end.
Proof.
  intros probed check checked.
  assert (probe_raises probe = None →
          (HealthChecker.probe_step i probe now).1.1 = Returned tt
          ∧ check.1.1 = Returned tt
          ∧ (if probe_succeeded probe
             then ServiceInstance.health_status probed = HEALTHY
                  ∧ ServiceInstance.consecutive_failures probed = 0%Z
             else ServiceInstance.health_status probed = UNHEALTHY
                  ∧ ServiceInstance.consecutive_failures probed
                    = (ServiceInstance.consecutive_failures i + 1)%Z)
          ∧ ((1 ≤ HealthChecker.unhealthy_threshold self)%Z →
             if probe_succeeded probe
             then ServiceInstance.health_status checked = HEALTHY
                  ∧ ServiceInstance.consecutive_failures checked = 0%Z
             else ServiceInstance.health_status checked = UNHEALTHY
                  ∧ ServiceInstance.consecutive_failures checked
                    = (ServiceInstance.consecutive_failures i + 1)%Z)
          ∧ ((HealthChecker.unhealthy_threshold self ≤ 0)%Z →
             ServiceInstance.health_status checked = UNHEALTHY
             ∧ ServiceInstance.consecutive_failures checked
               = if probe_succeeded probe then 1%Z
                 else (ServiceInstance.consecutive_failures i + 1)%Z)) as Hhandled.
  { intros Hnone.
    assert ((HealthChecker.probe_step i probe now).1
            = (Returned tt, if probe_succeeded probe
                            then ServiceInstance.mark_healthy i now
                            else ServiceInstance.mark_unhealthy i now)) as Hstep.
    { destruct (probe_cases probe) as [(Hp & _)|[(Hp & Hf & _)|(_ & _ & e & ->)]];
        [| |done].
      - rewrite Hp. by apply probe_step_success.
      - rewrite Hp. by apply probe_step_failure. }
    assert (check.1.1 = Returned tt) as Hret.
    { unfold check, HealthChecker.check_instance_health.
      destruct (HealthChecker.probe_step i probe now) as [[out i1] log].
      cbn in Hstep. injection Hstep as -> _.
      by destruct (HealthChecker.should_escalate self i1). }
    assert (if probe_succeeded probe
            then ServiceInstance.health_status probed = HEALTHY
                 ∧ ServiceInstance.consecutive_failures probed = 0%Z
            else ServiceInstance.health_status probed = UNHEALTHY
                 ∧ ServiceInstance.consecutive_failures probed
                   = (ServiceInstance.consecutive_failures i + 1)%Z) as Hprobed.
    { unfold probed. replace (HealthChecker.probe_step i probe now).1.2
        with (if probe_succeeded probe
              then ServiceInstance.mark_healthy i now
              else ServiceInstance.mark_unhealthy i now) by (by rewrite Hstep).
      by destruct (probe_succeeded probe). }
    split; [by rewrite Hstep|]. split; [done|]. split; [done|]. split.
    - intros Hth. unfold checked, check.
      by rewrite check_instance_health_is_probe_step.
    - intros Hth. unfold checked, check.
      destruct (check_instance_health_no_threshold self i probe now now' Hth)
        as [Hs Hf].
      destruct (probe_cases probe) as [(Hp & _)|[(Hp & Hpf & _)|(_ & _ & e & ->)]];
        [| |done]; rewrite Hp.
      + by rewrite (Hs Hp).
      + by rewrite (Hf Hpf). }
  destruct probe as [status_code| |msg|e]; [by apply Hhandled..|].
  split; [done|]. unfold check. done.
Qed.

(** C9. With a threshold of at least 1 the statement that follows the probe
    in [check_instance_health] never fires: after a probe step that ends
    normally the instance is already Unhealthy or has [consecutive_failures]
    0, so the guard is false, the call is the probe step alone, it logs no
    escalation record, and [consecutive_failures] has grown by one or been
    reset to 0; when the probe raises an exception that is not handled the
    call ends before that statement, with the instance as it was. *)
Theorem escalation_unreachable (self : HealthChecker.t) (i : ServiceInstance.t)
    (probe : ProbeResult) (now now' : Q) :
  (1 ≤ HealthChecker.unhealthy_threshold self)%Z →
  let probed := (HealthChecker.probe_step i probe now).1.2 in
  let checked := HealthChecker.check_instance_health self i probe now now' in
  checked = HealthChecker.probe_step i probe now
  ∧ (∀ name failures, LogMarkedUnhealthy name failures ∉ checked.2)
  ∧ match probe with
    | ProbeOtherError e => checked = (Raised e, i, [])
    | _ =>
        checked.1.1 = Returned tt
        ∧ (ServiceInstance.health_status probed = UNHEALTHY
           ∨ ServiceInstance.consecutive_failures probed = 0%Z)
        ∧ HealthChecker.should_escalate self probed = false
        ∧ (ServiceInstance.consecutive_failures checked.1.2
             = (ServiceInstance.consecutive_failures i + 1)%Z
           ∨ ServiceInstance.consecutive_failures checked.1.2 = 0%Z)
    end.
Proof.
  intros Hth probed checked.
  assert (checked = HealthChecker.probe_step i probe now) as Hchk
    by (by apply check_instance_health_is_probe_step).
  split; [done|]. rewrite Hchk. split.
  - intros name failures.
    destruct probe as [status_code| |msg|e]; cbn;
      [destruct (status_code =? 200)%Z|..]; cbn;
      first [by rewrite list_elem_of_singleton | apply not_elem_of_nil].
  - assert (probe_raises probe = None →
            (HealthChecker.probe_step i probe now).1.1 = Returned tt
            ∧ (ServiceInstance.health_status probed = UNHEALTHY
               ∨ ServiceInstance.consecutive_failures probed = 0%Z)
            ∧ HealthChecker.should_escalate self probed = false
            ∧ (ServiceInstance.consecutive_failures
                 (HealthChecker.probe_step i probe now).1.2
                 = (ServiceInstance.consecutive_failures i + 1)%Z
               ∨ ServiceInstance.consecutive_failures
                   (HealthChecker.probe_step i probe now).1.2 = 0%Z)) as Hhandled.
    { intros Hnone.
      assert ((HealthChecker.probe_step i probe now).1.1 = Returned tt) as Hret.
      { destruct (probe_cases probe) as [(Hp & _)|[(_ & Hp & _)|(_ & _ & e & ->)]];
          [| |done].
        - by rewrite probe_step_success.
        - by rewrite probe_step_failure. }
      split; [done|]. split; [by apply probe_step_unhealthy_or_zero|].
      split; [by apply should_escalate_after_probe|].
      destruct (probe_cases probe) as [(Hp & _)|[(_ & Hp & _)|(_ & _ & e & ->)]];
        [| |done].
      + right. by rewrite probe_step_success.
      + left. by rewrite probe_step_failure. }
    destruct probe as [status_code| |msg|e]; [by apply Hhandled..|done].
Qed.

(** ** Circuit breaker *)

Section BreakerFacts.
Local Open Scope Z_scope.
Import CircuitBreaker.
Context {World : Type} (time_time : World → Q).
Implicit Types (b : CircuitBreaker.t).

Lemma call_many_cons {A} b (c : Func A * World) calls :
  call_many time_time b (c :: calls) =
    call_many time_time (call time_time b c.1 c.2).1.2 calls.
Proof. done. Qed.

Lemma call_many_snoc {A} b (calls : list (Func A * World)) c :
  call_many time_time b (calls ++ [c]) =
    (call time_time (call_many time_time b calls) c.1 c.2).1.2.
Proof. unfold call_many. by rewrite foldl_snoc. Qed.

(** A closed circuit admits every call. *)
Lemma call_closed {A} b (f : Func A) w :
  state b = CLOSED → call time_time b f w = execute time_time b f w.
Proof.
  intros Hst. unfold call, check_open, check_half_open_limit. by rewrite !Hst.
Qed.

Lemma execute_succeeds {A} b (c : Func A * World) :
  succeeds c = true → (execute time_time b c.1 c.2).1.2 = _on_success b.
Proof.
  unfold succeeds, outcome, execute.
  by destruct (c.1 c.2) as [[result|e] w'].
Qed.

Lemma execute_fails {A} b (c : Func A * World) :
  fails c = true →
  (execute time_time b c.1 c.2).1.2 = _on_failure b (time_time (c.1 c.2).2).
Proof.
  unfold fails, outcome, execute.
  destruct (c.1 c.2) as [[result|e] w']; cbn; [done|].
  intros He%bool_decide_eq_true. by rewrite He.
Qed.

(** A call that neither returns nor fails (the function raised outside
    [Exception]) leaves the breaker as the admission checks left it. *)
Lemma execute_neither {A} b (c : Func A * World) :
  succeeds c = false → fails c = false →
  (execute time_time b c.1 c.2).1.2 = b.
Proof.
  unfold succeeds, fails, outcome, execute.
  destruct (c.1 c.2) as [[result|e] w']; cbn; [done|].
  intros _ He%bool_decide_eq_false. by destruct (exc_class e).
Qed.

Lemma failures_cons {A} (c : Func A * World) calls :
  failures (c :: calls) = (if fails c then 1 else 0) + failures calls.
Proof.
  unfold failures. rewrite filter_cons.
  destruct (fails c); [rewrite decide_True by done|rewrite decide_False by done];
    cbn [length]; lia.
Qed.

Lemma failures_nonneg {A} (calls : list (Func A * World)) : 0 ≤ failures calls.
Proof. unfold failures. lia. Qed.

(** In the closed state a success leaves [failure_count] alone. *)
Lemma closed_success_keeps_failure_count {A} b (c : Func A * World) :
  state b = CLOSED → succeeds c = true →
  let b' := (call time_time b c.1 c.2).1.2 in
  state b' = CLOSED ∧ failure_count b' = failure_count b
  ∧ failure_threshold b' = failure_threshold b.
Proof.
  intros Hst Hc. cbn zeta. rewrite call_closed, execute_succeeds by done.
  unfold _on_success. cbn. by rewrite Hst.
Qed.

(** While the failures stay below the threshold the circuit stays closed
    and counts them, whatever else happens in between. *)
Lemma closed_counts_failures {A} (calls : list (Func A * World)) : ∀ b,
  state b = CLOSED →
  failure_count b + failures calls < failure_threshold b →
  let b' := call_many time_time b calls in
  state b' = CLOSED
  ∧ failure_count b' = failure_count b + failures calls
  ∧ failure_threshold b' = failure_threshold b.
Proof.
  induction calls as [|c calls IH]; intros b Hst Hlt; cbn zeta.
  - unfold failures. cbn. split; [done|]. split; [lia|done].
  - rewrite call_many_cons. rewrite failures_cons in *.
    pose proof (failures_nonneg calls) as Hnn.
    set (b1 := (call time_time b c.1 c.2).1.2).
    assert (state b1 = CLOSED
            ∧ failure_count b1 = failure_count b + (if fails c then 1 else 0)
            ∧ failure_threshold b1 = failure_threshold b) as (Hst1 & Hfc1 & Hth1).
    { unfold b1. rewrite call_closed by done.
      destruct (fails c) eqn:Hf.
      - rewrite execute_fails by done. unfold _on_failure. cbn. rewrite Hst.
        destruct (Z.leb_spec (failure_threshold b) (failure_count b + 1));
          [lia|done].
      - destruct (succeeds c) eqn:Hs.
        + rewrite execute_succeeds by done. unfold _on_success. cbn.
          rewrite Hst. cbn. split; [done|]. split; [lia|done].
        + rewrite execute_neither by done. split; [done|]. split; [lia|done]. }
    destruct (IH b1) as (Hst' & Hfc' & Hth'); [done|lia|].
    split; [done|]. split; [lia|congruence].
Qed.

(** The failure that brings the count to the threshold opens the circuit. *)
Lemma closed_opens_at_threshold {A} b (c : Func A * World) :
  state b = CLOSED → fails c = true →
  failure_threshold b ≤ failure_count b + 1 →
  state (call time_time b c.1 c.2).1.2 = OPEN.
Proof.
  intros Hst Hc Hth. rewrite call_closed, execute_fails by done.
  unfold _on_failure. cbn. rewrite Hst.
  by destruct (Z.leb_spec (failure_threshold b) (failure_count b + 1)); [|lia].
Qed.

(** An open circuit whose timeout has not elapsed rejects the call: the
    wrapped function is not run, the breaker and the world stay as they
    were. *)
Lemma open_rejects {A} b last (f : Func A) w :
  state b = OPEN → last_failure_time b = Some last →
  (time_time w - last < timeout b)%Q →
  call time_time b f w = (Raised circuit_open_error, b, w).
Proof.
  intros Hst Hlast Hlt. unfold call, check_open, _should_attempt_reset.
  rewrite Hst, Hlast.
  destruct (Qle_bool (timeout b) (time_time w - last)) eqn:Hle; [|done].
  apply Qle_bool_iff in Hle. by apply Qle_not_lt in Hle.
Qed.

(** An open circuit whose timeout has elapsed moves to half-open and, when
    at least one trial call is allowed, runs the wrapped function there. *)
Lemma open_admits {A} b last (f : Func A) w :
  state b = OPEN → last_failure_time b = Some last →
  (timeout b <= time_time w - last)%Q →
  1 ≤ half_open_max_calls b →
  ∃ b',
    check_open b (time_time w) = inr (_transition_to_half_open b)
    ∧ check_half_open_limit (_transition_to_half_open b) = inr b'
    ∧ state b' = HALF_OPEN
    ∧ call time_time b f w = execute time_time b' f w.
Proof.
  intros Hst Hlast Hle Hmax.
  assert (check_open b (time_time w) = inr (_transition_to_half_open b)) as Hopen.
  { unfold check_open, _should_attempt_reset. rewrite Hst, Hlast.
    by apply Qle_bool_iff in Hle as ->. }
  unfold call. rewrite Hopen. unfold check_half_open_limit. cbn.
  destruct (Z.leb_spec (half_open_max_calls b) 0); [lia|]. eauto.
Qed.

(** Calling an open circuit after the timeout is calling the circuit it
    becomes on its way to half-open. *)
Lemma call_open_elapsed {A} b last (f : Func A) w :
  state b = OPEN → last_failure_time b = Some last →
  (timeout b <= time_time w - last)%Q →
  1 ≤ half_open_max_calls b →
  call time_time b f w = call time_time (_transition_to_half_open b) f w.
Proof.
  intros Hst Hlast Hle Hmax. unfold call at 1.
  unfold check_open, _should_attempt_reset. rewrite Hst, Hlast.
  apply Qle_bool_iff in Hle as ->. unfold call, check_open. cbn.
  by destruct (Z.leb_spec (half_open_max_calls b) 0); [lia|].
Qed.

(** With no trial call allowed, the call made after the timeout moves the
    breaker to half-open and is rejected there. *)
Lemma open_elapsed_no_trial_call {A} b last (f : Func A) w :
  state b = OPEN → last_failure_time b = Some last →
  (timeout b <= time_time w - last)%Q →
  half_open_max_calls b ≤ 0 →
  call time_time b f w =
    (Raised half_open_limit_error, _transition_to_half_open b, w).
Proof.
  intros Hst Hlast Hle Hmax. unfold call, check_open, _should_attempt_reset.
  rewrite Hst, Hlast. apply Qle_bool_iff in Hle as ->. cbn.
  by destruct (Z.leb_spec (half_open_max_calls b) 0); [|lia].
Qed.

(** A successful trial call in half-open. *)
Lemma half_open_success {A} b (c : Func A * World) :
  state b = HALF_OPEN → half_open_calls b < half_open_max_calls b →
  succeeds c = true →
  (call time_time b c.1 c.2).1.2 =
    _on_success
      (mk (failure_threshold b) (timeout b) (half_open_max_calls b)
          HALF_OPEN (failure_count b) (success_count b)
          (last_failure_time b) (half_open_calls b + 1)).
Proof.
  intros Hst Hlt Hc. unfold call, check_open, check_half_open_limit.
  rewrite Hst. cbv beta iota. rewrite Hst.
  destruct (Z.leb_spec (half_open_max_calls b) (half_open_calls b)); [lia|].
  by rewrite execute_succeeds.
Qed.

(** Successes in half-open, fewer than are missing to
    [half_open_max_calls], leave the circuit half-open. *)
Lemma half_open_successes_stay {A} (calls : list (Func A * World)) : ∀ b,
  state b = HALF_OPEN →
  success_count b = half_open_calls b →
  success_count b + Z.of_nat (length calls) < half_open_max_calls b →
  Forall (λ c, succeeds c = true) calls →
  state (call_many time_time b calls) = HALF_OPEN.
Proof.
  induction calls as [|c calls IH]; intros b Hst Heq Hlen Hok; [done|].
  rewrite call_many_cons. apply Forall_cons in Hok as [Hc Hok].
  cbn [length] in Hlen.
  rewrite half_open_success by (done || lia).
  unfold _on_success. cbn.
  destruct (Z.leb_spec (half_open_max_calls b) (success_count b + 1)); [lia|].
  apply IH; cbn; [done|lia|lia|done].
Qed.

(** Successes in half-open, as many as are still missing to
    [half_open_max_calls], close the circuit and zero its counters. *)
Lemma half_open_successes_close {A} (calls : list (Func A * World)) : ∀ b,
  state b = HALF_OPEN →
  success_count b = half_open_calls b →
  calls ≠ [] →
  success_count b + Z.of_nat (length calls) = half_open_max_calls b →
  Forall (λ c, succeeds c = true) calls →
  let b' := call_many time_time b calls in
  state b' = CLOSED ∧ failure_count b' = 0 ∧ success_count b' = 0
  ∧ half_open_calls b' = 0.
Proof.
  induction calls as [|c calls IH]; intros b Hst Heq Hne Hlen Hok; [done|].
  cbn zeta. rewrite call_many_cons.
  apply Forall_cons in Hok as [Hc Hok].
  set (b1 := (call time_time b c.1 c.2).1.2).
  cbn [length] in Hlen.
  assert (b1 = _on_success
                 (mk (failure_threshold b) (timeout b) (half_open_max_calls b)
                     HALF_OPEN (failure_count b) (success_count b)
                     (last_failure_time b) (half_open_calls b + 1))) as Hb1
    by (apply half_open_success; (done || lia)).
  unfold _on_success in Hb1. cbn in Hb1.
  destruct calls as [|c' calls'].
  - destruct (Z.leb_spec (half_open_max_calls b) (success_count b + 1)) as [_|Hlt];
      [|cbn in Hlen; lia].
    by rewrite Hb1.
  - destruct (Z.leb_spec (half_open_max_calls b) (success_count b + 1)) as [Hge|_];
      [cbn [length] in Hlen; lia|].
    apply IH; rewrite ?Hb1; cbn; [done|lia|done| |done].
    cbn [length] in Hlen. lia.
Qed.

End BreakerFacts.

Section BreakerLifecycle.
Local Open Scope Z_scope.
Import CircuitBreaker.
Context {World : Type} (time_time : World → Q).

(** Three failed calls in a row on a new breaker with threshold 3. *)
Lemma three_failures {A} timeout hmax (c1 c2 c3 : Func A * World) :
  fails c1 = true → fails c2 = true → fails c3 = true →
  let b0 := CircuitBreaker.__init__ 3 timeout hmax in
  call_many time_time b0 [c1] =
    mk 3 timeout hmax CLOSED 1 0 (Some (time_time (c1.1 c1.2).2)) 0
  ∧ call_many time_time b0 [c1; c2] =
    mk 3 timeout hmax CLOSED 2 0 (Some (time_time (c2.1 c2.2).2)) 0
  ∧ call_many time_time b0 [c1; c2; c3] =
    mk 3 timeout hmax OPEN 3 0 (Some (time_time (c3.1 c3.2).2)) 0.
Proof.
  intros H1 H2 H3 b0.
  assert (call_many time_time b0 [c1] =
          mk 3 timeout hmax CLOSED 1 0 (Some (time_time (c1.1 c1.2).2)) 0) as E1.
  { rewrite call_many_cons, call_closed, execute_fails by done. done. }
  assert (call_many time_time b0 [c1; c2] =
          mk 3 timeout hmax CLOSED 2 0 (Some (time_time (c2.1 c2.2).2)) 0) as E2.
  { change [c1; c2] with ([c1] ++ [c2]).
    rewrite (call_many_snoc time_time b0 [c1] c2), E1.
    rewrite call_closed, execute_fails by done. done. }
  split; [done|]. split; [done|].
  change [c1; c2; c3] with ([c1; c2] ++ [c3]).
  rewrite (call_many_snoc time_time b0 [c1; c2] c3), E2.
  rewrite call_closed, execute_fails by done. done.
Qed.

(** C1. A breaker built with [failure_threshold = 3] starts closed; three
    failed calls in a row open it; a call made before [timeout] has elapsed
    since the last failure is rejected with the circuit-open error without
    running the wrapped function; a call made once [timeout] has elapsed
    first moves the breaker to half-open and then (a breaker that allows at
    least one trial call) runs the wrapped function, whereas a breaker that
    allows none rejects it with the call-limit exception, the wrapped
    function not run; and
    [half_open_max_calls] successful calls in a row from there, the admitted
    one being the first, keep the breaker half-open until the last of them
    closes it with [failure_count], [success_count] and [half_open_calls] all
    zero. *)
Theorem circuit_breaker_lifecycle {A} (timeout : Q) (hmax : Z)
    (c1 c2 c3 : Func A * World) :
  fails c1 = true → fails c2 = true → fails c3 = true →
  let b0 := CircuitBreaker.__init__ 3 timeout hmax in
  let b3 := call_many time_time b0 [c1; c2; c3] in
  let last := time_time (c3.1 c3.2).2 in
  state b0 = CLOSED
  ∧ state (call_many time_time b0 [c1]) = CLOSED
  ∧ state (call_many time_time b0 [c1; c2]) = CLOSED
  ∧ state b3 = OPEN
  ∧ last_failure_time b3 = Some last
  ∧ (∀ B (f : Func B) (w : World),
       (time_time w - last < timeout)%Q →
       call time_time b3 f w = (Raised circuit_open_error, b3, w))
  ∧ (∀ B (f : Func B) (w : World),
       (timeout <= time_time w - last)%Q →
       1 ≤ hmax →
       ∃ b',
         check_open b3 (time_time w) = inr (_transition_to_half_open b3)
         ∧ check_half_open_limit (_transition_to_half_open b3) = inr b'
         ∧ state b' = HALF_OPEN
         ∧ call time_time b3 f w = execute time_time b' f w)
  ∧ (∀ B (f : Func B) (w : World),
       (timeout <= time_time w - last)%Q →
       hmax ≤ 0 →
       call time_time b3 f w
       = (Raised half_open_limit_error, _transition_to_half_open b3, w))
  ∧ (∀ B (c : Func B * World) (rest : list (Func B * World)),
       (timeout <= time_time c.2 - last)%Q →
       Forall (λ c, succeeds c = true) (c :: rest) →
       Z.of_nat (length (c :: rest)) = hmax →
       let b' := call_many time_time b3 (c :: rest) in
       (∀ k, (0 < k < length (c :: rest))%nat →
          state (call_many time_time b3 (take k (c :: rest))) = HALF_OPEN)
       ∧ state b' = CLOSED ∧ failure_count b' = 0 ∧ success_count b' = 0
       ∧ half_open_calls b' = 0).
Proof.
  intros H1 H2 H3 b0 b3 last.
  destruct (three_failures timeout hmax c1 c2 c3 H1 H2 H3) as (E1 & E2 & E3).
  fold b0 in E1, E2, E3. fold b3 in E3. fold last in E3.
  split; [done|]. split; [by rewrite E1|]. split; [by rewrite E2|].
  split; [by rewrite E3|]. split; [by rewrite E3|].
  split; [|split; [|split]].
  - intros B f w Hlt. apply (open_rejects time_time b3 last); by rewrite E3.
  - intros B f w Hle Hmax. apply (open_admits time_time b3 last); by rewrite E3.
  - intros B f w Hle Hmax.
    apply (open_elapsed_no_trial_call time_time b3 last); by rewrite E3.
  - intros B c rest Hle Hok Hlen. cbn zeta.
    assert (1 ≤ hmax) as Hmax by (cbn [length] in Hlen; lia).
    split.
    + intros [|k] Hk; [lia|]. rewrite firstn_cons.
      rewrite call_many_cons, (call_open_elapsed time_time b3 last), <-call_many_cons
        by (by rewrite E3).
      rewrite <-firstn_cons.
      apply half_open_successes_stay; rewrite ?E3; cbn [state success_count
        half_open_calls half_open_max_calls _transition_to_half_open]; [done..| |].
      * rewrite length_take. lia.
      * by apply Forall_take.
    + rewrite call_many_cons, (call_open_elapsed time_time b3 last), <-call_many_cons
        by (by rewrite E3).
      apply half_open_successes_close; rewrite ?E3; cbn; try done.
Qed.

(** C8. In the closed state a successful call leaves [failure_count] as it
    is, so failures add up across successes: starting from a closed breaker
    with [failure_count = 0], the breaker stays closed, counting, while fewer
    than [failure_threshold] calls have failed, and the failed call that
    brings the number to [failure_threshold] opens it, however many
    successful calls lie in between. *)
Theorem closed_failures_need_not_be_consecutive {A} (b : CircuitBreaker.t)
    (calls : list (Func A * World)) (c : Func A * World) :
  state b = CLOSED →
  (succeeds c = true →
     state (call time_time b c.1 c.2).1.2 = CLOSED
     ∧ failure_count (call time_time b c.1 c.2).1.2 = failure_count b)
  ∧ (failure_count b = 0 → failures calls < failure_threshold b →
     state (call_many time_time b calls) = CLOSED
     ∧ failure_count (call_many time_time b calls) = failures calls)
  ∧ (failure_count b = 0 → failures calls + 1 = failure_threshold b →
     fails c = true →
     state (call_many time_time b (calls ++ [c])) = OPEN).
Proof.
  intros Hst. split; [|split].
  - intros Hc.
    by destruct (closed_success_keeps_failure_count time_time b c Hst Hc) as (? & ? & _).
  - intros Hfc Hlt.
    destruct (closed_counts_failures time_time calls b Hst) as (? & ? & _); [lia|].
    split; [done|lia].
  - intros Hfc Heq Hc. rewrite call_many_snoc.
    destruct (closed_counts_failures time_time calls b Hst) as (? & ? & ?); [lia|].
    apply closed_opens_at_threshold; [done..|lia].
Qed.

(** A half-open circuit that has issued its trial calls rejects further
    calls without running the wrapped function. *)
Lemma half_open_limit_rejects {A} (b : CircuitBreaker.t) (f : Func A) w :
  state b = HALF_OPEN → half_open_max_calls b ≤ half_open_calls b →
  call time_time b f w = (Raised half_open_limit_error, b, w).
Proof.
  intros Hst Hle. unfold call, check_open. rewrite Hst. cbv beta iota.
  unfold check_half_open_limit. rewrite Hst.
  by destruct (Z.leb_spec (half_open_max_calls b) (half_open_calls b)); [|lia].
Qed.

Lemma get_next_instance_none lb h rnd :
  LoadBalancer.get_healthy_instances lb h = [] →
  LoadBalancer.get_next_instance lb h rnd = (None, lb).
Proof. unfold LoadBalancer.get_next_instance. by intros ->. Qed.

(** C2, as the code has it. A rejection by the breaker is raised: [call]
    raises a plain [Exception] (catchable by [except Exception], told apart
    from other failures only by its message) without running the wrapped
    function, both when the circuit is open and its timeout has not elapsed
    and when the half-open call limit is reached. Finding no healthy instance
    is returned as a value: [get_next_instance] returns [None], and
    [forward_request] returns the error body with status 503; neither
    raises. *)
Theorem rejection_signals :
  (∀ A (b : CircuitBreaker.t) last (f : Func A) w,
     state b = OPEN → last_failure_time b = Some last →
     (time_time w - last < CircuitBreaker.timeout b)%Q →
     call time_time b f w = (Raised circuit_open_error, b, w))
  ∧ (∀ A (b : CircuitBreaker.t) (f : Func A) w,
     state b = HALF_OPEN → half_open_max_calls b ≤ half_open_calls b →
     call time_time b f w = (Raised half_open_limit_error, b, w))
  ∧ exc_class circuit_open_error = ExceptionClass
  ∧ exc_class half_open_limit_error = ExceptionClass
  ∧ circuit_open_error ≠ half_open_limit_error
  ∧ (∀ lb h rnd,
     LoadBalancer.get_healthy_instances lb h = [] →
     LoadBalancer.get_next_instance lb h rnd = (None, lb))
  ∧ (∀ lb h rnd transport now path method data timeout,
     LoadBalancer.get_healthy_instances lb h = [] →
     LoadBalancer.forward_request lb h rnd transport now path method data timeout
     = (Returned (ErrorDict "No healthy instances available" "status" "error", 503),
        lb, h)).
Proof.
  split; [intros; by eapply open_rejects|].
  split; [intros; by apply half_open_limit_rejects|].
  do 3 (split; [done|]).
  split; [intros; by apply get_next_instance_none|].
  intros lb h rnd transport now path method data timeout Hnone.
  unfold LoadBalancer.forward_request. by rewrite get_next_instance_none.
Qed.

End BreakerLifecycle.

(** ** Failover *)

Section FailoverFacts.
Import FailoverManager.
Implicit Types (self fm : FailoverManager.t) (h : Heap) (d : dict loc).

Lemma omap_cons_eq {A B} (f : A → option B) x l :
  omap f (x :: l) = match f x with Some y => y :: omap f l | None => omap f l end.
Proof. done. Qed.

Lemma failover_step_event h now self entry :
  failover_step h now self entry =
    match failover_event (backup_instances self) h now entry with
    | Some e => record_event self e
    | None => self
    end.
Proof.
  destruct entry as [k r]. unfold failover_step, failover_event.
  cbn [fst snd negb].
  destruct (ServiceInstance.is_healthy (deref h r)); [done|]. cbn [negb].
  destruct (dict_get k (backup_instances self)) as [rb|]; [|done].
  cbn [mbind option_bind].
  by destruct (ServiceInstance.is_healthy (deref h rb)).
Qed.

(** One check appends, in dictionary order, the event of every primary that
    is not healthy and has a healthy backup, and changes nothing else. *)
Lemma check_and_failover_appends_from entries : ∀ self h now,
  let fm' := foldl (failover_step h now) self entries in
  failover_history fm' =
    failover_history self ++ omap (failover_event (backup_instances self) h now) entries
  ∧ primary_instances fm' = primary_instances self
  ∧ backup_instances fm' = backup_instances self.
Proof.
  induction entries as [|entry entries IH]; intros self h now; cbn zeta.
  - cbn. by rewrite app_nil_r.
  - cbn [foldl]. rewrite failover_step_event, omap_cons_eq.
    destruct (failover_event (backup_instances self) h now entry) as [e|].
    + destruct (IH (record_event self e) h now) as (Hh & Hp & Hb).
      rewrite Hh, Hp, Hb. cbn. by rewrite <-app_assoc.
    + apply IH.
Qed.

Lemma check_and_failover_appends self h now :
  let fm' := check_and_failover self h now in
  failover_history fm' =
    failover_history self
    ++ omap (failover_event (backup_instances self) h now) (primary_instances self)
  ∧ primary_instances fm' = primary_instances self
  ∧ backup_instances fm' = backup_instances self.
Proof. apply check_and_failover_appends_from. Qed.

Lemma failovers_from_app name log1 log2 :
  failovers_from name (log1 ++ log2) = failovers_from name log1 ++ failovers_from name log2.
Proof. apply filter_app. Qed.

(** Entries filed under other names contribute no event of [name]. *)
Lemma failovers_from_other name backups h now d :
  names_match h d → name ∉ d.*1 →
  failovers_from name (omap (failover_event backups h now) d) = [].
Proof.
  induction d as [|[k r] d IH]; intros Hnm Hnot; [done|].
  assert (names_match h d) as Hnm' by (intros ???; apply Hnm; by right).
  assert (name ∉ d.*1) as Hnot' by (intros ?; apply Hnot; by right).
  rewrite omap_cons_eq.
  destruct (failover_event backups h now (k, r)) as [e|] eqn:He; [|by apply IH].
  unfold failovers_from. rewrite filter_cons_False; [by apply IH|].
  intros [_ Hfrom]. apply Hnot. rewrite fmap_cons. apply elem_of_cons. left.
  unfold failover_event in He. cbn [fst snd] in He.
  destruct (ServiceInstance.is_healthy (deref h r)); [done|].
  destruct (dict_get k backups) as [rb|]; [|done]. cbn [mbind option_bind] in He.
  destruct (ServiceInstance.is_healthy (deref h rb)); [|done].
  injection He as <-. cbn in Hfrom. rewrite <-Hfrom.
  apply Hnm. by left.
Qed.

Lemma dict_get_split {V} k (v : V) (l : dict V) :
  dict_get k l = Some v →
  ∃ l1 l2, l = l1 ++ (k, v) :: l2 ∧ k ∉ l1.*1.
Proof.
  induction l as [|[k' v'] l IH]; [done|]. cbn.
  destruct (decide (k' = k)) as [->|Hne].
  - intros [= ->]. exists [], l. split; [done|]. cbn. apply not_elem_of_nil.
  - intros Hget. destruct (IH Hget) as (l1 & l2 & -> & Hnot).
    exists ((k', v') :: l1), l2. split; [done|].
    cbn. rewrite not_elem_of_cons. done.
Qed.

(** The events of one check that leave a primary that is not healthy and
    has a healthy backup: exactly one. *)
Lemma one_failover_per_check name primary backup backups h now d :
  NoDup d.*1 → names_match h d →
  dict_get name d = Some primary →
  ServiceInstance.is_healthy (deref h primary) = false →
  dict_get name backups = Some backup →
  ServiceInstance.is_healthy (deref h backup) = true →
  length (failovers_from name (omap (failover_event backups h now) d)) = 1%nat.
Proof.
  intros Hnd Hnm Hget Hp Hb Hbh.
  destruct (dict_get_split name primary d Hget) as (d1 & d2 & -> & Hnot1).
  rewrite fmap_app, fmap_cons in Hnd. apply NoDup_app in Hnd as (_ & Hdisj & Hnd2).
  apply NoDup_cons in Hnd2 as [Hnot2 _].
  assert (names_match h d1) as Hnm1.
  { intros k r Hin. apply Hnm. apply elem_of_app. by left. }
  assert (names_match h d2) as Hnm2.
  { intros k r Hin. apply Hnm. apply elem_of_app. right. by right. }
  rewrite omap_app, failovers_from_app, failovers_from_other by done.
  rewrite omap_cons_eq. unfold failover_event at 1. cbn [fst snd].
  rewrite Hp, Hb. cbn [mbind option_bind]. rewrite Hbh. cbn [app].
  unfold failovers_from at 1. rewrite filter_cons_True.
  - fold (failovers_from name (omap (failover_event backups h now) d2)).
    by rewrite failovers_from_other.
  - cbn. split; [done|]. apply Hnm. apply elem_of_app. right. by left.
Qed.

Lemma check_and_failover_many_count name primary backup h nows : ∀ fm,
  NoDup (primary_instances fm).*1 → names_match h (primary_instances fm) →
  dict_get name (primary_instances fm) = Some primary →
  ServiceInstance.is_healthy (deref h primary) = false →
  dict_get name (backup_instances fm) = Some backup →
  ServiceInstance.is_healthy (deref h backup) = true →
  length (failovers_from name (failover_history (check_and_failover_many fm h nows)))
  = length (failovers_from name (failover_history fm)) + length nows.
Proof.
  induction nows as [|now nows IH]; intros fm Hnd Hnm Hp Hph Hb Hbh; [cbn; lia|].
  unfold check_and_failover_many. cbn [foldl].
  fold (check_and_failover_many (check_and_failover fm h now) h nows).
  destruct (check_and_failover_appends fm h now) as (Hh & Hprim & Hback).
  rewrite IH by (by rewrite ?Hprim, ?Hback).
  rewrite Hh, failovers_from_app, length_app.
  rewrite (one_failover_per_check name primary backup) by done.
  cbn [length]. lia.
Qed.

(** The dictionaries that [set_primary] builds satisfy what the counting
    needs: one entry per key, each filed under its instance's name. *)
Lemma dict_set_elem_of {V} k (v : V) (l : dict V) k' v' :
  (k', v') ∈ dict_set k v l → (k', v') = (k, v) ∨ (k', v') ∈ l.
Proof.
  induction l as [|[k0 v0] l IH]; cbn.
  - rewrite list_elem_of_singleton. auto.
  - destruct (decide (k0 = k)) as [->|Hne]; rewrite !elem_of_cons.
    + intros [?|?]; auto.
    + intros [?|?]; [auto|]. destruct IH; auto.
Qed.

Lemma dict_set_keys {V} k (v : V) (l : dict V) k' :
  k' ∈ (dict_set k v l).*1 → k' = k ∨ k' ∈ l.*1.
Proof.
  intros ([k0 v0] & -> & Hin)%list_elem_of_fmap.
  apply dict_set_elem_of in Hin as [[= -> ->]|Hin]; [by left|].
  right. apply list_elem_of_fmap. by exists (k0, v0).
Qed.

Lemma dict_set_NoDup {V} k (v : V) (l : dict V) :
  NoDup l.*1 → NoDup (dict_set k v l).*1.
Proof.
  induction l as [|[k0 v0] l IH]; cbn; [repeat constructor; apply not_elem_of_nil|].
  intros [Hnot Hnd]%NoDup_cons.
  destruct (decide (k0 = k)) as [->|Hne]; cbn; apply NoDup_cons.
  - done.
  - split; [|by apply IH].
    intros [->|Hin]%dict_set_keys; done.
Qed.

Lemma get_instance_by_name_name lb h name r :
  LoadBalancer.get_instance_by_name lb h name = Some r →
  ServiceInstance.name (deref h r) = name.
Proof.
  unfold LoadBalancer.get_instance_by_name.
  destruct (list_find _ _) as [[i r']|] eqn:Hfind; [|done].
  cbn. intros [= <-]. by apply list_find_Some in Hfind as (_ & ? & _).
Qed.

Lemma set_primary_registered fm lb h name :
  NoDup (primary_instances fm).*1 → names_match h (primary_instances fm) →
  NoDup (primary_instances (set_primary fm lb h name)).*1
  ∧ names_match h (primary_instances (set_primary fm lb h name)).
Proof.
  intros Hnd Hnm. unfold set_primary.
  destruct (LoadBalancer.get_instance_by_name lb h name) as [r|] eqn:Hget; [|done].
  cbn. split; [by apply dict_set_NoDup|].
  intros k r' [[= -> ->]|Hin]%dict_set_elem_of; [|by apply Hnm].
  by eapply get_instance_by_name_name.
Qed.

End FailoverFacts.

(** C4, as the code has it. For a registered primary that is not healthy and
    whose registered backup is healthy, every call of [check_and_failover]
    appends exactly one Failover event for that primary; the manager keeps no
    record of having failed over, so calls repeated while the health state is
    unchanged append one more event each. *)
Theorem one_failover_event_per_check (fm : FailoverManager.t) (h : Heap)
    (name : string) (primary backup : loc) (nows : list Q) :
  NoDup (FailoverManager.primary_instances fm).*1 →
  names_match h (FailoverManager.primary_instances fm) →
  dict_get name (FailoverManager.primary_instances fm) = Some primary →
  ServiceInstance.is_healthy (deref h primary) = false →
  dict_get name (FailoverManager.backup_instances fm) = Some backup →
  ServiceInstance.is_healthy (deref h backup) = true →
  (∀ now, ∃ new,
     FailoverManager.failover_history (FailoverManager.check_and_failover fm h now)
     = FailoverManager.failover_history fm ++ new
     ∧ length (failovers_from name new) = 1)
  ∧ length (failovers_from name
              (FailoverManager.failover_history (check_and_failover_many fm h nows)))
    = length (failovers_from name (FailoverManager.failover_history fm)) + length nows.
Proof.
  intros Hnd Hnm Hp Hph Hb Hbh. split.
  - intros now. destruct (check_and_failover_appends fm h now) as (Hh & _ & _).
    eexists. split; [exact Hh|].
    by apply (one_failover_per_check name primary backup).
  - by apply (check_and_failover_many_count name primary backup).
Qed.

(** ** The properties on the scenarios of tests.py *)

Lemma circuit_breaker_lifecycle_witness :
  CircuitBreaker.fails (raise_error, 0%Q) = true
  ∧ CircuitBreaker.state opened_breaker = OPEN
  ∧ CircuitBreaker.call clock_time opened_breaker return_success (1 # 2)
    = (Raised CircuitBreaker.circuit_open_error, opened_breaker, 1 # 2)
  ∧ (∃ b', CircuitBreaker.state b' = HALF_OPEN
           ∧ CircuitBreaker.call clock_time opened_breaker return_success (3 # 2)
             = CircuitBreaker.execute clock_time b' return_success (3 # 2))
  ∧ CircuitBreaker.state
      (CircuitBreaker.call_many clock_time opened_breaker
         [(return_success, 3 # 2); (return_success, 2%Q); (return_success, 2%Q)])
    = CLOSED.
Proof.
  destruct (circuit_breaker_lifecycle clock_time 1 3
              (raise_error, 0%Q) (raise_error, 0%Q) (raise_error, 0%Q)
              eq_refl eq_refl eq_refl)
    as (_ & _ & _ & Hopen & _ & Hreject & Hadmit & _ & Hclose).
  split; [reflexivity|]. split; [exact Hopen|].
  split; [apply Hreject; reflexivity|]. split.
  - destruct (Hadmit string return_success (3 # 2)) as (b' & _ & _ & Hst & Hcall);
      [discriminate|lia|].
    exists b'. by split.
  - apply (Hclose string (return_success, 3 # 2)
             [(return_success, 2%Q); (return_success, 2%Q)]).
    + discriminate.
    + repeat constructor.
    + reflexivity.
Defined.

Lemma closed_failures_need_not_be_consecutive_witness :
  CircuitBreaker.state test_breaker = CLOSED
  ∧ CircuitBreaker.state
      (CircuitBreaker.call_many clock_time test_breaker
         ([(raise_error, 0%Q); (return_success, 1%Q); (raise_error, 2%Q);
           (return_success, 3%Q)] ++ [(raise_error, 4%Q)]))
    = OPEN.
Proof.
  split; [reflexivity|].
  apply (closed_failures_need_not_be_consecutive clock_time test_breaker
           [(raise_error, 0%Q); (return_success, 1%Q); (raise_error, 2%Q);
            (return_success, 3%Q)] (raise_error, 4%Q) eq_refl);
    reflexivity.
Defined.

(** C1 as stated fails on its third part for a breaker that allows no
    trial call: with [half_open_max_calls = 0], the call made after the
    timeout moves the open breaker to half-open but is not admitted; it
    raises the call-limit exception without running the wrapped function
    (the world is as it was, whatever the function). *)
Lemma elapsed_call_not_admitted :
  CircuitBreaker.state no_trial_breaker = OPEN
  ∧ CircuitBreaker.last_failure_time no_trial_breaker = Some 0%Q
  ∧ (CircuitBreaker.timeout no_trial_breaker <= clock_time 2 - 0)%Q
  ∧ ∀ f : @CircuitBreaker.Func Q string,
      CircuitBreaker.call clock_time no_trial_breaker f 2%Q
      = (Raised CircuitBreaker.half_open_limit_error,
         CircuitBreaker._transition_to_half_open no_trial_breaker, 2%Q).
Proof.
  split; [reflexivity|]. split; [reflexivity|]. split; [by vm_compute|].
  intros f. reflexivity.
Qed.

(** C2 as stated fails on the breaker: a call on the open circuit, made
    before the timeout has elapsed, does not return a value; it raises. *)
Lemma breaker_rejection_is_raised :
  CircuitBreaker.state opened_breaker = OPEN
  ∧ (CircuitBreaker.call clock_time opened_breaker return_success (1 # 2)).1.1
    = Raised CircuitBreaker.circuit_open_error
  ∧ ∀ result,
      (CircuitBreaker.call clock_time opened_breaker return_success (1 # 2)).1.1
      ≠ Returned result.
Proof. split; [reflexivity|]. split; [reflexivity|]. discriminate. Qed.

Lemma rejection_signals_witness :
  CircuitBreaker.state opened_breaker = OPEN
  ∧ CircuitBreaker.last_failure_time opened_breaker = Some 0%Q
  ∧ (clock_time (1 # 2) - 0 < CircuitBreaker.timeout opened_breaker)%Q
  ∧ CircuitBreaker.call clock_time opened_breaker return_success (1 # 2)
    = (Raised CircuitBreaker.circuit_open_error, opened_breaker, 1 # 2)
  ∧ LoadBalancer.get_healthy_instances failover_pool.1 failover_pool.2 = []
  ∧ (LoadBalancer.forward_request failover_pool.1 failover_pool.2 0 timing_out 0
       "/api" "GET" None 5).1.1
    = Returned (ErrorDict "No healthy instances available" "status" "error", 503%Z).
Proof.
  destruct (rejection_signals clock_time) as (Hopen & _ & _ & _ & _ & _ & Hnone).
  split; [reflexivity|]. split; [reflexivity|]. split; [reflexivity|].
  split; [by apply (Hopen string opened_breaker 0%Q)|].
  split; [reflexivity|]. by rewrite Hnone.
Defined.

Lemma active_connections_never_negative_witness :
  connections_nonneg []
  ∧ (0 ≤ ServiceInstance.active_connections
           (deref (pool_run (LoadBalancer.__init__ "round_robin", [])
                     [OpAddInstance "service-1" "http://localhost:5001" 1 0;
                      OpMarkHealthy 0 0;
                      OpForwardRequest 0 timing_out 0 "/api" "GET" None 5;
                      OpDecrementConnections 0;
                      OpDecrementConnections 0]).2 0))%Z.
Proof.
  split; [constructor|].
  apply active_connections_never_negative. constructor.
Defined.

Lemma weighted_round_robin_3_1_witness :
  0 ≠ 1
  ∧ ServiceInstance.weight (deref weighted_pool.2 0) = 3%Z
  ∧ ServiceInstance.weight (deref weighted_pool.2 1) = 1%Z
  ∧ times_selected 0
      (WeightedRoundRobinAlgorithm.select_many 12 weighted_pool.2
         WeightedRoundRobinAlgorithm.__init__ [0; 1]).1 = 9
  ∧ times_selected 1
      (WeightedRoundRobinAlgorithm.select_many 12 weighted_pool.2
         WeightedRoundRobinAlgorithm.__init__ [0; 1]).1 = 3.
Proof.
  split; [discriminate|]. split; [reflexivity|]. split; [reflexivity|].
  exact (proj2 (weighted_round_robin_3_1 weighted_pool.2 0 1
                  ltac:(discriminate) eq_refl eq_refl)).
Defined.

Lemma health_probe_outcome_witness :
  (1 ≤ HealthChecker.unhealthy_threshold (HealthChecker.__init__ 5 2 3))%Z
  ∧ ServiceInstance.health_status
      (HealthChecker.check_instance_health (HealthChecker.__init__ 5 2 3)
         (ServiceInstance.__init__ "service-1" "http://localhost:5001" 1 0)
         (ProbeStatus 503) 1 1).1.2 = UNHEALTHY
  ∧ ServiceInstance.consecutive_failures
      (HealthChecker.check_instance_health (HealthChecker.__init__ 5 2 3)
         (ServiceInstance.__init__ "service-1" "http://localhost:5001" 1 0)
         (ProbeStatus 503) 1 1).1.2 = (0 + 1)%Z.
Proof.
  split; [cbn; lia|].
  destruct (health_probe_outcome (HealthChecker.__init__ 5 2 3)
              (ServiceInstance.__init__ "service-1" "http://localhost:5001" 1 0)
              (ProbeStatus 503) 1 1) as (_ & _ & _ & Hchecked & _).
  exact (Hchecked ltac:(cbn; lia)).
Defined.

(** C7 as stated fails for a probe that is successful without answering
    200, and for a checker without a threshold: with the default checker a
    204 leaves a new instance Unhealthy with one failure on record, and with
    a threshold of 0 so does a 200. *)
Lemma successful_probe_marked_unhealthy :
  (ServiceInstance.health_status
     (HealthChecker.check_instance_health (HealthChecker.__init__ 5 2 3)
        (ServiceInstance.__init__ "service-1" "http://localhost:5001" 1 0)
        (ProbeStatus 204) 1 1).1.2 = UNHEALTHY
   ∧ ServiceInstance.consecutive_failures
       (HealthChecker.check_instance_health (HealthChecker.__init__ 5 2 3)
          (ServiceInstance.__init__ "service-1" "http://localhost:5001" 1 0)
          (ProbeStatus 204) 1 1).1.2 = 1%Z)
  ∧ (ServiceInstance.health_status
       (HealthChecker.check_instance_health (HealthChecker.__init__ 5 2 0)
          (ServiceInstance.__init__ "service-1" "http://localhost:5001" 1 0)
          (ProbeStatus 200) 1 1).1.2 = UNHEALTHY
     ∧ ServiceInstance.consecutive_failures
         (HealthChecker.check_instance_health (HealthChecker.__init__ 5 2 0)
            (ServiceInstance.__init__ "service-1" "http://localhost:5001" 1 0)
            (ProbeStatus 200) 1 1).1.2 = 1%Z).
Proof. repeat split; reflexivity. Qed.

Lemma escalation_unreachable_witness :
  (1 ≤ HealthChecker.unhealthy_threshold (HealthChecker.__init__ 5 2 1))%Z
  ∧ HealthChecker.check_instance_health (HealthChecker.__init__ 5 2 1)
      (ServiceInstance.__init__ "service-1" "http://localhost:5001" 1 0)
      ProbeTimeout 1 2
    = HealthChecker.probe_step
        (ServiceInstance.__init__ "service-1" "http://localhost:5001" 1 0)
        ProbeTimeout 1.
Proof.
  split; [cbn; lia|].
  destruct (escalation_unreachable (HealthChecker.__init__ 5 2 1)
              (ServiceInstance.__init__ "service-1" "http://localhost:5001" 1 0)
              ProbeTimeout 1 2 ltac:(cbn; lia)) as (Hsame & _).
  exact Hsame.
Defined.

(** C4 as stated fails on its second half: checked a second time with the
    health state unchanged, the manager appends a second Failover event for
    the same primary. *)
Lemma repeated_check_appends_again :
  let event now :=
    {| ev_timestamp := now; ev_type := Failover; ev_from := "primary";
       ev_to := "backup"; ev_reason := "primary_unhealthy" |} in
  let once := FailoverManager.check_and_failover failover_manager failover_heap 1 in
  let twice := FailoverManager.check_and_failover once failover_heap 2 in
  FailoverManager.failover_history failover_manager = []
  ∧ FailoverManager.failover_history once = [event 1%Q]
  ∧ FailoverManager.failover_history twice = [event 1%Q; event 2%Q]
  ∧ length (failovers_from "primary" (FailoverManager.failover_history twice)) = 2.
Proof. cbv zeta. repeat split; reflexivity. Qed.

Lemma one_failover_event_per_check_witness :
  NoDup (FailoverManager.primary_instances failover_manager).*1
  ∧ names_match failover_heap (FailoverManager.primary_instances failover_manager)
  ∧ dict_get "primary" (FailoverManager.primary_instances failover_manager) = Some 0
  ∧ ServiceInstance.is_healthy (deref failover_heap 0) = false
  ∧ dict_get "primary" (FailoverManager.backup_instances failover_manager) = Some 1
  ∧ ServiceInstance.is_healthy (deref failover_heap 1) = true
  ∧ length (failovers_from "primary"
              (FailoverManager.failover_history
                 (check_and_failover_many failover_manager failover_heap [1; 2; 3]%Q)))
    = length (failovers_from "primary"
                (FailoverManager.failover_history failover_manager))
      + length [1; 2; 3]%Q.
Proof.
  assert (NoDup (FailoverManager.primary_instances failover_manager).*1) as Hnd.
  { cbn. apply NoDup_singleton. }
  assert (names_match failover_heap
            (FailoverManager.primary_instances failover_manager)) as Hnm.
  { intros k r Hin. cbn in Hin. apply list_elem_of_singleton in Hin.
    injection Hin as -> ->. reflexivity. }
  split; [exact Hnd|]. split; [exact Hnm|].
  do 4 (split; [reflexivity|]).
  exact (proj2 (one_failover_event_per_check failover_manager failover_heap
                  "primary" 0 1 [1; 2; 3]%Q Hnd Hnm eq_refl eq_refl eq_refl eq_refl)).
Defined.

(** * Further properties of the code *)

(** ** Selection returns a candidate *)

Section SelectionFacts.
Implicit Types (h : Heap) (instances l : list loc) (r : loc).

Lemma py_min_from_elem {A K} (lt : K → K → bool) (key : A → K) (l : list A) :
  ∀ best, py_min_from lt key best l ∈ best :: l.
Proof.
  induction l as [|x l IH]; intros best; cbn; [left|].
  specialize (IH (if lt (key x) (key best) then x else best)).
  apply elem_of_cons in IH as [->|IH].
  - destruct (lt (key x) (key best)); [right; left|left].
  - by do 2 right.
Qed.

Lemma py_min_elem {A K} (lt : K → K → bool) (key : A → K) (l : list A) x :
  py_min lt key l = Some x → x ∈ l.
Proof.
  destruct l as [|y l]; [done|]. cbn. intros [= <-]. apply py_min_from_elem.
Qed.

Lemma py_min_nonempty {A K} (lt : K → K → bool) (key : A → K) (l : list A) :
  l ≠ [] → is_Some (py_min lt key l).
Proof. destruct l; [done|]. by eexists. Qed.

Lemma lookup_mod_is_Some {A} (l : list A) k :
  l ≠ [] → is_Some (l !! (k `mod` length l)).
Proof.
  intros Hl. apply lookup_lt_is_Some_2, Nat.mod_upper_bound.
  by destruct l.
Qed.

Lemma build_weighted_list_elem h instances r :
  r ∈ WeightedRoundRobinAlgorithm._build_weighted_list h instances → r ∈ instances.
Proof.
  unfold WeightedRoundRobinAlgorithm._build_weighted_list.
  intros (y & Hin & Hy)%list_elem_of_bind.
  by apply elem_of_replicate_inv in Hin as ->.
Qed.

(** A weighted selection on a non-empty list returns one of the candidates
    and leaves the cache coherent with the list. *)
Lemma weighted_select_candidate h s instances :
  instances ≠ [] → wrr_coherent s →
  let res := WeightedRoundRobinAlgorithm.select_instance h s instances in
  (∃ r, res.1 = Some r ∧ r ∈ instances) ∧ wrr_coherent res.2.
Proof.
  intros Hne Hco. unfold WeightedRoundRobinAlgorithm.select_instance.
  destruct instances as [|first rest]; [done|].
  set (self1 := if bool_decide _ then _ else _).
  assert (WeightedRoundRobinAlgorithm.last_instances self1 = Some (first :: rest)
          ∧ wrr_coherent self1) as [Hlast Hco1].
  { unfold self1. case_bool_decide as Hsame; [by split|].
    split; [done|]. intros l [= <-] r Hr. by eapply build_weighted_list_elem. }
  destruct (WeightedRoundRobinAlgorithm.weighted_instances self1) as [|x w] eqn:Hw.
  - cbn. split; [|done]. exists first. split; [done|left].
  - cbn [fst snd]. split.
    + destruct (lookup_mod_is_Some (x :: w)
                  (WeightedRoundRobinAlgorithm.current_index self1)) as [r Hr]; [done|].
      exists r. split; [done|]. apply (Hco1 _ Hlast). rewrite Hw.
      by eapply list_elem_of_lookup_2.
    + intros l Hl r Hr. cbn in Hl, Hr. apply (Hco1 l Hl). by rewrite Hw.
Qed.

Lemma algorithm_select_candidate h rnd a instances :
  instances ≠ [] → algorithm_coherent a →
  let res := algorithm_select h rnd a instances in
  (∃ r, res.1 = Some r ∧ r ∈ instances) ∧ algorithm_coherent res.2.
Proof.
  intros Hne Hco. destruct a as [s|s| | |]; cbn -[RoundRobinAlgorithm.select_instance
    WeightedRoundRobinAlgorithm.select_instance].
  - rewrite select_instance_nonempty by done. cbn [fst snd]. split; [|done].
    destruct (lookup_mod_is_Some instances (RoundRobinAlgorithm.current_index s))
      as [r Hr]; [done|].
    exists r. split; [done|]. by eapply list_elem_of_lookup_2.
  - pose proof (weighted_select_candidate h s instances Hne Hco) as Hw.
    by destruct (WeightedRoundRobinAlgorithm.select_instance h s instances).
  - split; [|done]. unfold LeastConnectionsAlgorithm.select_instance.
    destruct (py_min_nonempty Z.ltb
                (λ r, ServiceInstance.active_connections (deref h r)) instances Hne)
      as [r Hr].
    exists r. split; [done|]. by eapply py_min_elem.
  - split; [|done]. unfold RandomAlgorithm.select_instance.
    destruct instances as [|x l]; [done|].
    destruct (lookup_mod_is_Some (x :: l) rnd) as [r Hr]; [done|].
    exists r. split; [done|]. by eapply list_elem_of_lookup_2.
  - split; [|done]. unfold LeastResponseTimeAlgorithm.select_instance.
    destruct (py_min_nonempty (λ a b, negb (Qle_bool b a))
                (λ r, ServiceInstance.get_average_response_time (deref h r))
                instances Hne) as [r Hr].
    exists r. split; [done|]. by eapply py_min_elem.
Qed.

End SelectionFacts.

Lemma get_next_instance_facts (lb : LoadBalancer.t) (h : Heap) (rnd : nat) :
  algorithm_coherent (LoadBalancer.algorithm lb) →
  let res := LoadBalancer.get_next_instance lb h rnd in
  (res.1 = None ↔ LoadBalancer.get_healthy_instances lb h = [])
  ∧ (∀ r, res.1 = Some r →
       r ∈ LoadBalancer.instances lb ∧ ServiceInstance.is_healthy (deref h r) = true)
  ∧ LoadBalancer.instances res.2 = LoadBalancer.instances lb
  ∧ algorithm_coherent (LoadBalancer.algorithm res.2).
Proof.
  intros Hco. unfold LoadBalancer.get_next_instance.
  destruct (LoadBalancer.get_healthy_instances lb h) as [|x l] eqn:Hh.
  - cbn. by repeat split.
  - destruct (algorithm_select_candidate h rnd (LoadBalancer.algorithm lb) (x :: l))
      as [(r & Hr & Hin) Hco']; [done..|].
    destruct (algorithm_select h rnd (LoadBalancer.algorithm lb) (x :: l)) as [o a].
    cbn in *. subst o. split; [done|]. split; [|done].
    intros r' [= <-]. rewrite <-Hh in Hin.
    apply list_elem_of_filter in Hin as [Hhealthy Hin]. done.
Qed.

(** X1. Whatever algorithm the balancer uses, [get_next_instance] returns
    [None] exactly when no pooled instance is healthy, and otherwise returns
    an instance that is in the pool and healthy; it leaves the pool as it is
    and the algorithm's cache coherent. *)
Theorem get_next_instance_healthy (lb : LoadBalancer.t) (h : Heap) (rnd : nat) :
  algorithm_coherent (LoadBalancer.algorithm lb) →
  let res := LoadBalancer.get_next_instance lb h rnd in
  (res.1 = None ↔ LoadBalancer.get_healthy_instances lb h = [])
  ∧ (∀ r, res.1 = Some r →
       r ∈ LoadBalancer.instances lb ∧ ServiceInstance.is_healthy (deref h r) = true)
  ∧ LoadBalancer.instances res.2 = LoadBalancer.instances lb
  ∧ algorithm_coherent (LoadBalancer.algorithm res.2).
Proof. apply get_next_instance_facts. Qed.

(** ** Least connections *)

Section MinFacts.
Local Open Scope Z_scope.
Context {A : Type} (key : A → Z).

(** [min(..., key=...)] splits the list around its result: every element
    before it has a strictly larger key, every element after it a key at
    least as large. *)
Lemma py_min_from_split (l : list A) : ∀ best,
  ∃ l1 l2,
    best :: l = l1 ++ py_min_from Z.ltb key best l :: l2
    ∧ (∀ y, y ∈ l1 → key (py_min_from Z.ltb key best l) < key y)
    ∧ (∀ y, y ∈ l2 → key (py_min_from Z.ltb key best l) ≤ key y).
Proof.
  induction l as [|x l IH]; intros best.
  - exists [], []. cbn. split; [done|]. split; intros y Hy; by apply elem_of_nil in Hy.
  - cbn [py_min_from]. destruct (Z.ltb_spec (key x) (key best)) as [Hlt|Hge].
    + destruct (IH x) as (l1 & l2 & Heq & H1 & H2).
      remember (py_min_from Z.ltb key x l) as m eqn:Hm_def. clear Hm_def.
      exists (best :: l1), l2. split; [by rewrite Heq|]. split; [|done].
      intros y [->|Hy]%elem_of_cons; [|by apply H1].
      assert (x ∈ l1 ++ m :: l2) as Hx by (rewrite <-Heq; left).
      apply elem_of_app in Hx as [Hx|Hx].
      * specialize (H1 x Hx). lia.
      * apply elem_of_cons in Hx as [->|Hx]; [lia|]. specialize (H2 x Hx). lia.
    + destruct (IH best) as (l1 & l2 & Heq & H1 & H2).
      remember (py_min_from Z.ltb key best l) as m eqn:Hm_def. clear Hm_def.
      destruct l1 as [|b l1].
      * cbn in Heq. injection Heq as Hm Hl. subst m l. exists [], (x :: l2).
        split; [done|]. split.
        -- intros y Hy. by apply elem_of_nil in Hy.
        -- intros y [->|Hy]%elem_of_cons; [lia|]. by apply H2.
      * cbn in Heq. injection Heq as Hb Hl. subst b l.
        exists (best :: x :: l1), l2. split; [done|]. split; [|done].
        intros y [->|[->|Hy]%elem_of_cons]%elem_of_cons.
        -- apply H1. left.
        -- assert (key m < key best) by (apply H1; left). lia.
        -- apply H1. by right.
Qed.

End MinFacts.

(** X2. Least connections returns [None] only for an empty list; otherwise
    it returns a candidate with the fewest active connections, and among
    those the one that comes first in the list. *)
Theorem least_connections_first_minimum (h : Heap) (instances : list loc) :
  (LeastConnectionsAlgorithm.select_instance h instances = None ↔ instances = [])
  ∧ (∀ r, LeastConnectionsAlgorithm.select_instance h instances = Some r →
       ∃ before after,
         instances = before ++ r :: after
         ∧ (∀ y, y ∈ before →
              (ServiceInstance.active_connections (deref h r)
               < ServiceInstance.active_connections (deref h y))%Z)
         ∧ (∀ y, y ∈ after →
              (ServiceInstance.active_connections (deref h r)
               ≤ ServiceInstance.active_connections (deref h y))%Z)).
Proof.
  unfold LeastConnectionsAlgorithm.select_instance.
  destruct instances as [|x l]; cbn [py_min].
  - split; [done|]. by intros r.
  - split; [done|]. intros r [= <-].
    apply (py_min_from_split (λ r, ServiceInstance.active_connections (deref h r))).
Qed.

(** ** Weighted round robin, in general *)

Section WeightedFacts.
Import WeightedRoundRobinAlgorithm.
Implicit Types (h : Heap) (instances : list loc) (r : loc).

Lemma occurrences_replicate r n y :
  occurrences r (replicate n y) = if decide (y = r) then n else 0.
Proof.
  unfold occurrences. induction n as [|n IH]; cbn [replicate].
  - by destruct (decide (y = r)).
  - rewrite filter_cons. destruct (decide (y = r)); cbn; by rewrite IH.
Qed.

(** An instance occurs in the expansion once per unit of weight and per
    slot it occupies in the candidate list. *)
Lemma occurrences_build h instances r :
  occurrences r (_build_weighted_list h instances)
  = occurrences r instances * Z.to_nat (ServiceInstance.weight (deref h r)).
Proof.
  unfold _build_weighted_list. induction instances as [|y l IH]; [done|].
  change (y :: l) with ([y] ++ l) at 2.
  rewrite bind_cons, !occurrences_app, IH, occurrences_replicate.
  unfold occurrences at 2. rewrite filter_cons, filter_nil.
  destruct (decide (y = r)) as [->|]; cbn [length]; lia.
Qed.

Lemma length_build_nil h instances :
  Forall (λ r, (ServiceInstance.weight (deref h r) ≤ 0)%Z) instances →
  _build_weighted_list h instances = [].
Proof.
  unfold _build_weighted_list. induction 1 as [|y l Hy _ IH]; [done|].
  rewrite bind_cons, IH. replace (Z.to_nat _) with 0 by lia. done.
Qed.

(** With an empty expansion every call returns the first candidate and the
    cursor stays where it is. *)
Lemma select_many_empty_expansion n : ∀ h self first rest,
  (last_instances self = Some (first :: rest) → weighted_instances self = []) →
  _build_weighted_list h (first :: rest) = [] →
  (select_many n h self (first :: rest)).1 = replicate n (Some first)
  ∧ current_index (select_many n h self (first :: rest)).2 = current_index self.
Proof.
  induction n as [|n IH]; intros h self first rest Hcache Hbuild; [done|].
  cbn [select_many].
  set (self1 := {| current_index := current_index self;
                   weighted_instances := [];
                   last_instances := Some (first :: rest) |}).
  assert (select_instance h self (first :: rest) = (Some first, self1)
          ∨ select_instance h self (first :: rest) = (Some first, self)
            ∧ last_instances self = Some (first :: rest)) as Hsel.
  { unfold select_instance. case_bool_decide as Hsame.
    - right. symmetry in Hsame. rewrite (Hcache Hsame). done.
    - left. cbn [weighted_instances current_index last_instances].
      by rewrite Hbuild. }
  destruct Hsel as [->|[-> Hlast]].
  - destruct (IH h self1 first rest) as [Hrs Hidx]; [done..|].
    destruct (select_many n h self1 (first :: rest)) as [rs self2].
    cbn in *. by rewrite Hrs.
  - destruct (IH h self first rest) as [Hrs Hidx]; [done..|].
    destruct (select_many n h self (first :: rest)) as [rs self2].
    cbn in *. by rewrite Hrs.
Qed.

End WeightedFacts.

(** X3. A new weighted round robin, called [q * W] times with the same
    candidates over an unchanged heap, where [W > 0] is the length of the
    expansion (the sum of the positive weights), returns every instance
    [q * weight] times for each slot it occupies in the candidate list; an
    instance of weight 0 or less is never returned. *)
Theorem weighted_round_robin_proportional (h : Heap) (instances : list loc)
    (q : nat) (r : loc) :
  WeightedRoundRobinAlgorithm._build_weighted_list h instances ≠ [] →
  let W := length (WeightedRoundRobinAlgorithm._build_weighted_list h instances) in
  times_selected r
    (WeightedRoundRobinAlgorithm.select_many (q * W) h
       WeightedRoundRobinAlgorithm.__init__ instances).1
  = q * (occurrences r instances * Z.to_nat (ServiceInstance.weight (deref h r))).
Proof.
  intros Hw W.
  assert (instances ≠ []) as Hne by (by intros ->).
  rewrite select_many_fresh, slots_rotation_repeated by done.
  fold W. assert (0 < W) as HW.
  { unfold W. destruct (WeightedRoundRobinAlgorithm._build_weighted_list h instances);
      [done|cbn; lia]. }
  rewrite Nat.div_mul, Nat.Div0.mod_mul, take_0, app_nil_r by lia.
  rewrite times_selected_Some, occurrences_rounds, occurrences_rotate.
  by rewrite occurrences_build.
Qed.

(** X4. When no candidate has a positive weight the expansion is empty, and
    a new weighted round robin then returns the first candidate on every
    call and never advances its cursor. *)
Theorem weighted_round_robin_no_weight (h : Heap) (first : loc) (rest : list loc)
    (n : nat) :
  Forall (λ r, (ServiceInstance.weight (deref h r) ≤ 0)%Z) (first :: rest) →
  let res :=
    WeightedRoundRobinAlgorithm.select_many n h
      WeightedRoundRobinAlgorithm.__init__ (first :: rest) in
  WeightedRoundRobinAlgorithm._build_weighted_list h (first :: rest) = []
  ∧ res.1 = replicate n (Some first)
  ∧ WeightedRoundRobinAlgorithm.current_index res.2 = 0.
Proof.
  intros Hw res. split; [by apply length_build_nil|].
  apply select_many_empty_expansion; [done|].
  by apply length_build_nil.
Qed.

(** ** Dispatch *)

Section DispatchFacts.
Local Open Scope Z_scope.
Implicit Types (h : Heap) (r : loc) (lb : LoadBalancer.t).

Lemma deref_mutate f r h r' :
  deref (mutate f r h) r' =
    if decide (r = r' ∧ (r < length h)%nat) then f (deref h r) else deref h r'.
Proof. apply list_lookup_total_alter. Qed.

Lemma deref_mutate_other f r h r' : r ≠ r' → deref (mutate f r h) r' = deref h r'.
Proof. intros Hne. rewrite deref_mutate. apply decide_False. by intros [? _]. Qed.

Lemma deref_mutate_same f r h :
  (r < length h)%nat → deref (mutate f r h) r = f (deref h r).
Proof. intros. rewrite deref_mutate. by rewrite decide_True. Qed.

Lemma length_mutate f r h : length (mutate f r h) = length h.
Proof. apply length_alter. Qed.

Lemma mutate_mutate f g r h : mutate f r (mutate g r h) = mutate (f ∘ g) r h.
Proof.
  unfold mutate. revert r. induction h as [|i h IH]; intros [|r]; cbn; [done..|].
  by rewrite IH.
Qed.

(** A dispatch changes the heap at the selected instance only. *)
Lemma forward_request_heap lb h rnd transport now path method data timeout r lb1 :
  LoadBalancer.get_next_instance lb h rnd = (Some r, lb1) →
  let tr :=
    LoadBalancer.perform transport method
      (ServiceInstance.url (deref h r) ++ path) data timeout in
  (LoadBalancer.forward_request lb h rnd transport now path method data timeout).2
  = mutate (dispatch_effect tr timeout now) r h.
Proof.
  intros Hnext tr. unfold LoadBalancer.forward_request. rewrite Hnext.
  assert (ServiceInstance.url
            (deref (mutate ServiceInstance.increment_connections r h) r)
          = ServiceInstance.url (deref h r)) as ->.
  { rewrite deref_mutate. by case_decide. }
  fold tr. destruct tr as [status_code response_time [body|msg|e]| |msg|e];
    cbn [snd]; by rewrite ?mutate_mutate.
Qed.

Lemma perform_handled transport method url data timeout :
  (∀ m u d t, handled (transport m u d t) = true) →
  handled (LoadBalancer.perform transport method url data timeout) = true.
Proof. intros Hh. unfold LoadBalancer.perform. by destruct (String.eqb _ _). Qed.

End DispatchFacts.

(** X5. A dispatch whose transport answers with a body that decodes, times
    out or fails with a request error releases the connection it took:
    starting from non-negative counts, the count of active connections of
    every instance is afterwards what it was before. *)
Theorem forward_request_releases_connection (lb : LoadBalancer.t) (h : Heap)
    (rnd : nat) (transport : Transport) (now : Q) (path method : string)
    (data : option string) (timeout : Q) (r : loc) :
  connections_nonneg h →
  (∀ m u d t, handled (transport m u d t) = true) →
  ServiceInstance.active_connections
    (deref (LoadBalancer.forward_request lb h rnd transport now path method data
              timeout).2 r)
  = ServiceInstance.active_connections (deref h r).
Proof.
  intros Hnn Hh.
  destruct (LoadBalancer.get_next_instance lb h rnd) as [[r0|] lb1] eqn:Hnext.
  - rewrite (forward_request_heap lb h rnd transport now path method data timeout
               r0 lb1 Hnext).
    pose proof (perform_handled transport method
                  (ServiceInstance.url (deref h r0) ++ path) data timeout Hh) as Hp.
    rewrite deref_mutate. case_decide as Hr; [|done]. destruct Hr as [-> Hlt].
    assert (0 ≤ ServiceInstance.active_connections (deref h r))%Z as Hr.
    { unfold deref. rewrite list_lookup_total_alt.
      destruct (h !! r) as [i|] eqn:Hi; [|done].
      by apply (proj1 (Forall_lookup _ _) Hnn r i). }
    destruct (LoadBalancer.perform _ _ _ _ _)
      as [status_code response_time [body|msg|e]| |msg|e]; try done; cbn; lia.
  - unfold LoadBalancer.forward_request. by rewrite Hnext.
Qed.

(** X6. There is no [finally]: when the transport raises anything that is
    not a [RequestException], [forward_request] lets the exception through
    and the selected instance keeps the connection counted, one more than
    before; nothing is recorded for the request. *)
Theorem forward_request_unexpected_exception (lb : LoadBalancer.t) (h : Heap)
    (rnd : nat) (transport : Transport) (now : Q) (path method : string)
    (data : option string) (timeout : Q) (e : PyExc) (r : loc) :
  pool_wf lb h →
  algorithm_coherent (LoadBalancer.algorithm lb) →
  (∀ m u d t, transport m u d t = OtherError e) →
  (LoadBalancer.get_next_instance lb h rnd).1 = Some r →
  let res :=
    LoadBalancer.forward_request lb h rnd transport now path method data timeout in
  res.1.1 = Raised e
  ∧ ServiceInstance.active_connections (deref res.2 r)
    = (ServiceInstance.active_connections (deref h r) + 1)%Z
  ∧ ServiceInstance.total_requests (deref res.2 r)
    = ServiceInstance.total_requests (deref h r).
Proof.
  intros Hwf Hco Htr Hsel res.
  destruct (get_next_instance_facts lb h rnd Hco) as (_ & Hin & _).
  destruct (Hin r Hsel) as [Hr _].
  assert ((r < length h)%nat) as Hlt.
  { by apply (proj1 (Forall_forall _ _) Hwf r). }
  destruct (LoadBalancer.get_next_instance lb h rnd) as [o lb1] eqn:Hnext.
  cbn in Hsel. subst o.
  assert (LoadBalancer.perform transport method
            (ServiceInstance.url (deref h r) ++ path) data timeout = OtherError e)
    as Hp.
  { unfold LoadBalancer.perform. by destruct (String.eqb _ _). }
  split.
  - unfold res, LoadBalancer.forward_request. rewrite Hnext.
    assert (ServiceInstance.url
              (deref (mutate ServiceInstance.increment_connections r h) r)
            = ServiceInstance.url (deref h r)) as ->.
    { rewrite deref_mutate. by case_decide. }
    by rewrite Hp.
  - unfold res.
    rewrite (forward_request_heap lb h rnd transport now path method data timeout
               r lb1 Hnext), Hp.
    by rewrite deref_mutate_same.
Qed.

(** X7. A dispatch that selects an instance and whose transport outcome is
    handled records exactly one request on that instance, as successful
    when the answer has a status below 400 and as failed otherwise, and
    touches no other object; it returns the upstream body and status, or
    the error body with status 504 for a timeout and 502 for a request
    error. *)
Theorem forward_request_records_one_request (lb : LoadBalancer.t) (h : Heap)
    (rnd : nat) (transport : Transport) (now : Q) (path method : string)
    (data : option string) (timeout : Q) (r : loc) :
  pool_wf lb h →
  algorithm_coherent (LoadBalancer.algorithm lb) →
  (LoadBalancer.get_next_instance lb h rnd).1 = Some r →
  let tr :=
    LoadBalancer.perform transport method
      (ServiceInstance.url (deref h r) ++ path) data timeout in
  handled tr = true →
  let res :=
    LoadBalancer.forward_request lb h rnd transport now path method data timeout in
  let name := ServiceInstance.name (deref h r) in
  res.1.1 =
    match tr with
    | Response status_code _ (JsonValue body) =>
        Returned (UpstreamJson body, status_code)
    | TimeoutError => Returned (ErrorDict "Request timeout" "service" name, 504%Z)
    | RequestError msg => Returned (ErrorDict msg "service" name, 502%Z)
    | _ => res.1.1
    end
  ∧ ServiceInstance.total_requests (deref res.2 r)
    = (ServiceInstance.total_requests (deref h r) + 1)%Z
  ∧ ServiceInstance.successful_requests (deref res.2 r)
    = (ServiceInstance.successful_requests (deref h r)
       + if request_succeeded tr then 1 else 0)%Z
  ∧ ServiceInstance.failed_requests (deref res.2 r)
    = (ServiceInstance.failed_requests (deref h r)
       + if request_succeeded tr then 0 else 1)%Z
  ∧ (∀ r', r' ≠ r → deref res.2 r' = deref h r').
Proof.
  intros Hwf Hco Hsel tr Hh res name.
  destruct (get_next_instance_facts lb h rnd Hco) as (_ & Hin & _).
  destruct (Hin r Hsel) as [Hr _].
  assert ((r < length h)%nat) as Hlt.
  { by apply (proj1 (Forall_forall _ _) Hwf r). }
  destruct (LoadBalancer.get_next_instance lb h rnd) as [o lb1] eqn:Hnext.
  cbn in Hsel. subst o.
  assert (res.2 = mutate (dispatch_effect tr timeout now) r h) as Hheap
    by apply (forward_request_heap lb h rnd transport now path method data timeout
                r lb1 Hnext).
  split.
  - unfold res, LoadBalancer.forward_request. rewrite Hnext.
    assert (deref (mutate ServiceInstance.increment_connections r h) r
            = ServiceInstance.increment_connections (deref h r)) as ->
      by (by apply deref_mutate_same).
    change (ServiceInstance.url (ServiceInstance.increment_connections (deref h r)))
      with (ServiceInstance.url (deref h r)).
    fold tr. by destruct tr as [status_code response_time [body|msg|e]| |msg|e].
  - rewrite Hheap, deref_mutate_same by done.
    split; [|split; [|split]].
    + by destruct tr as [status_code response_time [body|msg|e]| |msg|e].
    + destruct tr as [status_code response_time [body|msg|e]| |msg|e];
        try done; cbn; try lia. by destruct (status_code <? 400)%Z; lia.
    + destruct tr as [status_code response_time [body|msg|e]| |msg|e];
        try done; cbn; try lia. by destruct (status_code <? 400)%Z; lia.
    + intros r' Hne. by apply deref_mutate_other.
Qed.

(** ** Request counters *)

Section PoolInvariants.
Local Open Scope Z_scope.
Context (P : ServiceInstance.t → Prop).
Hypothesis P_init : ∀ name url weight now, P (ServiceInstance.__init__ name url weight now).
Hypothesis P_increment : ∀ i, P i → P (ServiceInstance.increment_connections i).
Hypothesis P_decrement : ∀ i, P i → P (ServiceInstance.decrement_connections i).
Hypothesis P_record : ∀ i success response_time now,
  P i → P (ServiceInstance.record_request i success response_time now).
Hypothesis P_health : ∀ i st cf now, P i → P (ServiceInstance.set_health i st cf now).

Lemma mutate_preserves f r (h : Heap) :
  (∀ i, P i → P (f i)) → Forall P h → Forall P (mutate f r h).
Proof. intros Hf Hh. apply Forall_alter; auto. Qed.

Lemma dispatch_effect_preserves tr timeout now i :
  P i → P (dispatch_effect tr timeout now i).
Proof.
  intros Hi. destruct tr as [status_code response_time [body|msg|e]| |msg|e];
    cbn [dispatch_effect]; auto 10.
Qed.

Lemma check_instance_health_preserves checker probe now now' i :
  P i → P (HealthChecker.check_instance_health checker i probe now now').1.2.
Proof.
  intros Hi. unfold HealthChecker.check_instance_health, HealthChecker.probe_step.
  destruct probe as [status_code| |msg|e]; [destruct (status_code =? 200)| | |done];
    match goal with |- context [HealthChecker.should_escalate ?c ?x] =>
      destruct (HealthChecker.should_escalate c x) end;
    cbn [fst snd]; unfold ServiceInstance.mark_healthy, ServiceInstance.mark_unhealthy;
    auto.
Qed.

(** A property of instances that every method of [ServiceInstance] keeps is
    kept, for every object of the heap, by every operation on the pool. *)
Lemma pool_run_preserves ops : ∀ st,
  Forall P st.2 → Forall P (pool_run st ops).2.
Proof.
  induction ops as [|op ops IH]; intros st Hst; [done|].
  cbn [pool_run foldl]. apply IH. clear IH.
  destruct st as [lb h]. cbn [snd] in *.
  destruct op; cbn [pool_step snd];
    try (apply mutate_preserves; [|done]; intros i Hi;
         unfold ServiceInstance.mark_healthy, ServiceInstance.mark_unhealthy,
           ServiceInstance.mark_degraded; auto).
  - unfold LoadBalancer.add_instance, alloc. cbn [snd].
    apply Forall_app. split; [done|]. by repeat constructor.
  - done.
  - by apply check_instance_health_preserves.
  - destruct (LoadBalancer.get_next_instance lb h rnd) as [[r|] lb1] eqn:Hnext.
    + pose proof (forward_request_heap lb h rnd transport now path method data
                    timeout r lb1 Hnext) as Hheap.
      destruct (LoadBalancer.forward_request _ _ _ _ _ _ _ _ _) as [[o lb'] h'].
      cbn [snd] in *. subst h'. apply mutate_preserves; [|done].
      intros i Hi. by apply dispatch_effect_preserves.
    + unfold LoadBalancer.forward_request. by rewrite Hnext.
Qed.

End PoolInvariants.

(** X8. The request counters of every instance add up, whatever is done to
    the pool: after any sequence of operations (dispatches with any
    transport outcome included), [successful_requests + failed_requests =
    total_requests] and neither counter is negative, provided this held
    before. *)
Theorem request_counters_add_up (lb : LoadBalancer.t) (h : Heap) (ops : list PoolOp) :
  Forall requests_add_up h →
  Forall requests_add_up (pool_run (lb, h) ops).2.
Proof.
  intros Hh. apply (pool_run_preserves requests_add_up); try done.
  - intros i success response_time now (Hsum & Hs & Hf). unfold requests_add_up.
    cbn. destruct success; lia.
Qed.

(** ** The pool: adding, finding and removing instances *)

Section PoolFacts.
Implicit Types (h : Heap) (r : loc) (l : list loc) (lb : LoadBalancer.t).

Lemma find_name_cons h name r l :
  find_name h name (r :: l) =
    if decide (ServiceInstance.name (deref h r) = name) then Some r
    else find_name h name l.
Proof.
  unfold find_name. cbn. case_decide; [done|].
  by destruct (list_find _ l) as [[i x]|].
Qed.

Lemma find_name_app h name l1 l2 :
  find_name h name (l1 ++ l2) =
    match find_name h name l1 with
    | Some r => Some r
    | None => find_name h name l2
    end.
Proof.
  induction l1 as [|r l1 IH]; [done|].
  rewrite <-app_comm_cons, !find_name_cons. by case_decide.
Qed.

Lemma find_name_heap h h' name l :
  (∀ r, r ∈ l → deref h' r = deref h r) →
  find_name h' name l = find_name h name l.
Proof.
  induction l as [|r l IH]; intros Hsame; [done|].
  rewrite !find_name_cons, Hsame by left.
  case_decide; [done|]. apply IH. intros r' Hr'. apply Hsame. by right.
Qed.

Lemma find_name_filter_same h name l :
  find_name h name (filter (λ r, ServiceInstance.name (deref h r) ≠ name) l) = None.
Proof.
  induction l as [|r l IH]; [done|]. rewrite filter_cons.
  case_decide as Hr; [|done]. rewrite find_name_cons. by rewrite decide_False.
Qed.

Lemma find_name_filter_other h name other l :
  other ≠ name →
  find_name h other (filter (λ r, ServiceInstance.name (deref h r) ≠ name) l)
  = find_name h other l.
Proof.
  intros Hne. induction l as [|r l IH]; [done|]. rewrite filter_cons.
  case_decide as Hr.
  - rewrite !find_name_cons. by case_decide.
  - rewrite find_name_cons.
    rewrite decide_False by congruence. done.
Qed.

Lemma deref_alloc_old i h r : r < length h → deref (alloc i h).2 r = deref h r.
Proof. intros Hr. unfold deref, alloc. cbn. by apply lookup_total_app_l. Qed.

Lemma deref_alloc_new i h : deref (alloc i h).2 (alloc i h).1 = i.
Proof.
  unfold deref, alloc. cbn. rewrite list_lookup_total_alt, lookup_app_r by done.
  by rewrite Nat.sub_diag.
Qed.

End PoolFacts.

(** X9. Adding an instance appends a new object to the pool and leaves the
    existing ones as they are. Looking the name up afterwards finds the
    instance that already had that name, if there was one (the first such
    in pool order), and the new instance otherwise; names are not checked
    for uniqueness. Other names are found as before. *)
Theorem add_instance_then_lookup (lb : LoadBalancer.t) (h : Heap)
    (name url : string) (weight : Z) (now : Q) :
  pool_wf lb h →
  let res := LoadBalancer.add_instance lb h name url weight now in
  pool_wf res.1 res.2
  ∧ LoadBalancer.instances res.1 = LoadBalancer.instances lb ++ [length h]
  ∧ deref res.2 (length h) = ServiceInstance.__init__ name url weight now
  ∧ (∀ r, r < length h → deref res.2 r = deref h r)
  ∧ LoadBalancer.get_instance_by_name res.1 res.2 name
    = Some (default (length h) (LoadBalancer.get_instance_by_name lb h name))
  ∧ (∀ other, other ≠ name →
       LoadBalancer.get_instance_by_name res.1 res.2 other
       = LoadBalancer.get_instance_by_name lb h other).
Proof.
  intros Hwf res.
  set (i := ServiceInstance.__init__ name url weight now).
  assert (∀ r, r ∈ LoadBalancer.instances lb → deref (alloc i h).2 r = deref h r)
    as Hold.
  { intros r Hr. apply deref_alloc_old. by apply (proj1 (Forall_forall _ _) Hwf r). }
  assert (∀ n, LoadBalancer.get_instance_by_name res.1 res.2 n
               = match LoadBalancer.get_instance_by_name lb h n with
                 | Some r => Some r
                 | None => if decide (name = n) then Some (length h) else None
                 end) as Hget.
  { intros n. unfold LoadBalancer.get_instance_by_name.
    change (find_name (alloc i h).2 n (LoadBalancer.instances lb ++ [length h])
            = match find_name h n (LoadBalancer.instances lb) with
              | Some r => Some r
              | None => if decide (name = n) then Some (length h) else None
              end).
    rewrite find_name_app, (find_name_heap h) by done.
    destruct (find_name h n (LoadBalancer.instances lb)); [done|].
    rewrite find_name_cons.
    pose proof (deref_alloc_new i h) as Hnew. cbn [alloc fst] in Hnew.
    by rewrite Hnew. }
  split; [|split; [done|split; [apply (deref_alloc_new i h)|split]]].
  - unfold pool_wf, res. cbn. rewrite length_app. cbn. apply Forall_app. split.
    + eapply Forall_impl; [exact Hwf|]. cbn. lia.
    + repeat constructor. lia.
  - intros r Hr. by apply deref_alloc_old.
  - split.
    + rewrite Hget. destruct (LoadBalancer.get_instance_by_name lb h name); [done|].
      by rewrite decide_True.
    + intros other Hne. rewrite Hget.
      destruct (LoadBalancer.get_instance_by_name lb h other); [done|].
      by rewrite decide_False.
Qed.

(** X10. Removing by name drops every pooled instance of that name and no
    other, keeps the survivors in their order, and does not touch the
    objects: the name is no longer found, other names are found as before.
    Removing a name that is not pooled changes nothing. *)
Theorem remove_instance_then_lookup (lb : LoadBalancer.t) (h : Heap) (name : string) :
  let lb' := LoadBalancer.remove_instance lb h name in
  LoadBalancer.get_instance_by_name lb' h name = None
  ∧ (∀ other, other ≠ name →
       LoadBalancer.get_instance_by_name lb' h other
       = LoadBalancer.get_instance_by_name lb h other)
  ∧ LoadBalancer.instances lb' `sublist_of` LoadBalancer.instances lb
  ∧ (∀ r, r ∈ LoadBalancer.instances lb' ↔
          r ∈ LoadBalancer.instances lb ∧ ServiceInstance.name (deref h r) ≠ name)
  ∧ (LoadBalancer.get_instance_by_name lb h name = None →
     LoadBalancer.instances lb' = LoadBalancer.instances lb).
Proof.
  cbn zeta. split; [apply find_name_filter_same|].
  split; [intros other Hne; by apply find_name_filter_other|].
  split; [apply sublist_filter|].
  split.
  - intros r. cbn. rewrite list_elem_of_filter. split; intros [? ?]; by split.
  - unfold LoadBalancer.get_instance_by_name. cbn.
    induction (LoadBalancer.instances lb) as [|r l IH]; [done|].
    change (find_name h name (r :: l) = None →
            filter (λ r, ServiceInstance.name (deref h r) ≠ name) (r :: l) = r :: l).
    rewrite find_name_cons, filter_cons. case_decide as Hr; [done|].
    intros Hl. rewrite decide_True by done. f_equal. by apply IH.
Qed.

(** ** Health monitoring *)

Section MonitoringFacts.
Local Open Scope Z_scope.
Import HealthChecker.
Implicit Types (self : HealthChecker.t) (i : ServiceInstance.t) (h : Heap) (r : loc).

Lemma check_many_app self i ps1 ps2 :
  check_many self i (ps1 ++ ps2) = check_many self (check_many self i ps1) ps2.
Proof. apply foldl_app. Qed.

Lemma check_instance_health_returns self i probe now now' :
  probe_raises probe = None →
  (check_instance_health self i probe now now').1.1 = Returned tt.
Proof.
  intros Hnone. unfold check_instance_health, probe_step.
  destruct probe as [status_code| |msg|e]; [destruct (status_code =? 200)| | |done];
    match goal with |- context [should_escalate ?c ?x] =>
      destruct (should_escalate c x) end; done.
Qed.

Lemma check_instance_health_raises self i e now now' :
  check_instance_health self i (ProbeOtherError e) now now' = (Raised e, i, []).
Proof. done. Qed.

(** A run of probes none of which succeeds adds the number of its handled
    failures to [consecutive_failures]; the probes that raise leave the
    instance as it is. *)
Lemma check_many_failures self fs : ∀ i,
  1 ≤ unhealthy_threshold self →
  Forall (λ p, probe_succeeded p.1.1 = false) fs →
  ServiceInstance.consecutive_failures (check_many self i fs)
  = ServiceInstance.consecutive_failures i + Z.of_nat (length (handled_failures fs))
  ∧ (handled_failures fs ≠ [] →
     ServiceInstance.health_status (check_many self i fs) = UNHEALTHY)
  ∧ (handled_failures fs = [] → check_many self i fs = i).
Proof.
  induction fs as [|p fs IH]; intros i Hth Hfs.
  - cbn. split; [lia|done].
  - apply Forall_cons in Hfs as [Hp Hfs]. cbn [check_many foldl].
    destruct (probe_cases p.1.1) as [(Hs & _)|[(_ & Hf & _)|(_ & Hf & e & He)]].
    + congruence.
    + rewrite check_instance_health_is_probe_step, probe_step_failure by done.
      cbn [fst snd].
      fold (check_many self (ServiceInstance.mark_unhealthy i p.1.2) fs).
      unfold handled_failures. rewrite filter_cons_True by done.
      fold (handled_failures fs).
      destruct (IH (ServiceInstance.mark_unhealthy i p.1.2) Hth Hfs)
        as (Hcf & Hst & Hnone).
      split; [rewrite Hcf; cbn [length]; cbn; lia|]. split; [|done]. intros _.
      destruct (handled_failures fs) as [|p' fs'] eqn:Hhf.
      * by rewrite Hnone.
      * by apply Hst.
    + rewrite He, check_instance_health_raises. cbn [fst snd].
      fold (check_many self i fs).
      unfold handled_failures. rewrite filter_cons_False by (by rewrite He).
      fold (handled_failures fs). by apply IH.
Qed.

Lemma count_status_cons h s r l :
  count_status h s (r :: l) =
    ((if bool_decide (ServiceInstance.health_status (deref h r) = s) then 1 else 0)
     + count_status h s l)%nat.
Proof.
  unfold count_status. rewrite filter_cons.
  case_bool_decide; [by rewrite decide_True|by rewrite decide_False].
Qed.

Lemma count_status_total h l :
  (count_status h HEALTHY l + count_status h UNHEALTHY l
   + count_status h DEGRADED l + count_status h UNKNOWN l = length l)%nat.
Proof.
  induction l as [|r l IH]; [done|]. rewrite !count_status_cons. cbn [length].
  destruct (ServiceInstance.health_status (deref h r));
    repeat (first [rewrite bool_decide_true by done
                  | rewrite bool_decide_false by done]); lia.
Qed.

Lemma summary_fold h l : ∀ acc,
  let s := foldl (summary_step h) acc l in
  total_instances s = total_instances acc
  ∧ healthy s = (healthy acc + count_status h HEALTHY l)%nat
  ∧ unhealthy s = (unhealthy acc + count_status h UNHEALTHY l)%nat
  ∧ degraded s = (degraded acc + count_status h DEGRADED l)%nat
  ∧ unknown s = (unknown acc + count_status h UNKNOWN l)%nat
  ∧ ih_name <$> instances s
    = (ih_name <$> instances acc) ++ ((λ r, ServiceInstance.name (deref h r)) <$> l)
  ∧ ih_status <$> instances s
    = (ih_status <$> instances acc)
      ++ ((λ r, ServiceInstance.health_status (deref h r)) <$> l).
Proof.
  induction l as [|r l IH]; intros acc; cbn zeta.
  - cbn. unfold count_status. cbn. rewrite !app_nil_r. repeat split; (lia || done).
  - cbn [foldl]. destruct (IH (summary_step h acc r)) as (Ht & Hh & Hu & Hd & Hk & Hn & Hs).
    rewrite Ht, Hh, Hu, Hd, Hk, Hn, Hs, !count_status_cons. cbn.
    rewrite !fmap_app, <-!app_assoc. cbn.
    repeat split; try done; repeat case_bool_decide; lia.
Qed.

Lemma count_status_healthy lb h :
  count_status h HEALTHY (LoadBalancer.instances lb)
  = length (LoadBalancer.get_healthy_instances lb h).
Proof.
  unfold count_status, LoadBalancer.get_healthy_instances. f_equal.
  apply list_filter_iff. intros r. unfold ServiceInstance.is_healthy.
  by destruct (ServiceInstance.health_status (deref h r)).
Qed.

(** The loop over distinct references whose probes raise nothing checks
    each of them once and touches nothing else. *)
Lemma check_each_handled self probe now now' l : ∀ h log,
  NoDup l → Forall (λ r, (r < length h)%nat) l →
  (∀ r, r ∈ l → probe_raises (probe r) = None) →
  let res := check_each self probe now now' l h log in
  res.1.1 = Returned tt
  ∧ length res.1.2 = length h
  ∧ (∀ r, r ∈ l →
       deref res.1.2 r
       = (check_instance_health self (deref h r) (probe r) (now r) (now' r)).1.2)
  ∧ (∀ r, r ∉ l → deref res.1.2 r = deref h r).
Proof.
  induction l as [|r l IH]; intros h log Hnd Hwf Hok; cbn zeta.
  - cbn. split; [done|]. split; [done|]. split; [|done].
    intros r Hr. by apply elem_of_nil in Hr.
  - apply NoDup_cons in Hnd as [Hr Hnd]. apply Forall_cons in Hwf as [Hlt Hwf].
    cbn [check_each].
    pose proof (check_instance_health_returns self (deref h r) (probe r) (now r)
                  (now' r) (Hok r ltac:(left))) as Hret.
    destruct (check_instance_health self (deref h r) (probe r) (now r) (now' r))
      as [[out inst] records] eqn:Hchk. cbn [fst snd] in Hret. subst out.
    cbn [fst snd].
    destruct (IH (mutate (λ _, inst) r h) (log ++ records) Hnd) as (Hout' & Hlen & Hin & Hout).
    { by rewrite length_mutate. }
    { intros r' Hr'. apply Hok. by right. }
    split; [done|]. split; [by rewrite Hlen, length_mutate|]. split.
    + intros r' [->|Hr']%elem_of_cons.
      * rewrite Hout by done. by rewrite deref_mutate_same, Hchk.
      * rewrite Hin by done. rewrite deref_mutate_other; [done|]. by intros ->.
    + intros r' Hr'. apply not_elem_of_cons in Hr' as [Hne Hr'].
      rewrite Hout by done. by rewrite deref_mutate_other.
Qed.

(** The loop ends at the first probe that raises: the instances before it
    have been checked, all others are as they were. *)
Lemma check_each_raises self probe now now' before r after e : ∀ h log,
  NoDup (before ++ r :: after) →
  Forall (λ r, (r < length h)%nat) (before ++ r :: after) →
  (∀ r', r' ∈ before → probe_raises (probe r') = None) →
  probe r = ProbeOtherError e →
  let res := check_each self probe now now' (before ++ r :: after) h log in
  res.1.1 = Raised e
  ∧ length res.1.2 = length h
  ∧ (∀ r', r' ∈ before →
       deref res.1.2 r'
       = (check_instance_health self (deref h r') (probe r') (now r') (now' r')).1.2)
  ∧ (∀ r', r' ∉ before → deref res.1.2 r' = deref h r').
Proof.
  induction before as [|r0 before IH]; intros h log Hnd Hwf Hok He; cbn zeta.
  - cbn [app check_each]. rewrite He, check_instance_health_raises. cbn [fst snd].
    split; [done|]. split; [by rewrite length_mutate|]. split.
    + intros r' Hr'. by apply elem_of_nil in Hr'.
    + intros r' _. rewrite deref_mutate. case_decide as Hd; [|done].
      by destruct Hd as [-> _].
  - rewrite <-app_comm_cons in Hnd, Hwf |- *.
    apply NoDup_cons in Hnd as [Hr0 Hnd]. apply Forall_cons in Hwf as [Hlt Hwf].
    cbn [check_each].
    pose proof (check_instance_health_returns self (deref h r0) (probe r0) (now r0)
                  (now' r0) (Hok r0 ltac:(left))) as Hret.
    destruct (check_instance_health self (deref h r0) (probe r0) (now r0) (now' r0))
      as [[out inst] records] eqn:Hchk. cbn [fst snd] in Hret. subst out.
    cbn [fst snd].
    destruct (IH (mutate (λ _, inst) r0 h) (log ++ records) Hnd) as (Hout' & Hlen & Hin & Hout).
    { by rewrite length_mutate. }
    { intros r' Hr'. apply Hok. by right. }
    { done. }
    split; [done|]. split; [by rewrite Hlen, length_mutate|]. split.
    + intros r' [->|Hr']%elem_of_cons.
      * rewrite Hout; [by rewrite deref_mutate_same, Hchk|].
        intros Hin0. apply Hr0. apply elem_of_app. by left.
      * rewrite Hin by done. rewrite deref_mutate_other; [done|].
        intros ->. apply Hr0. apply elem_of_app. by left.
    + intros r' Hr'. apply not_elem_of_cons in Hr' as [Hne Hr'].
      rewrite Hout by done. by rewrite deref_mutate_other.
Qed.

End MonitoringFacts.

(** X11. With a threshold of at least 1, [consecutive_failures] counts the
    probes that failed in a handled way (a status other than 200, a
    timeout, a [RequestException]) since the last successful one: after any
    history of calls that ends in a successful probe followed by probes none
    of which succeeds, it is the number of handled failures among those, and
    the instance is Healthy when there is none and Unhealthy otherwise. A
    probe that raises any other exception makes the call raise it and is
    not counted: the instance stays as it was. Without any successful probe
    the handled failures add to the count the instance had. *)
Theorem consecutive_failures_count_the_run (self : HealthChecker.t)
    (i : ServiceInstance.t) (before rest : list (ProbeResult * Q * Q))
    (success : ProbeResult * Q * Q) :
  (1 ≤ HealthChecker.unhealthy_threshold self)%Z →
  Forall (λ p, probe_succeeded p.1.1 = false) rest →
  (probe_succeeded success.1.1 = true →
     let checked := HealthChecker.check_many self i (before ++ success :: rest) in
     ServiceInstance.consecutive_failures checked
     = Z.of_nat (length (handled_failures rest))
     ∧ ServiceInstance.health_status checked
       = if decide (handled_failures rest = []) then HEALTHY else UNHEALTHY)
  ∧ ServiceInstance.consecutive_failures (HealthChecker.check_many self i rest)
    = (ServiceInstance.consecutive_failures i
       + Z.of_nat (length (handled_failures rest)))%Z
  ∧ (∀ e now now',
       HealthChecker.check_instance_health self i (ProbeOtherError e) now now'
       = (Raised e, i, [])).
Proof.
  intros Hth Hfs. split; [|split; [by apply check_many_failures|done]].
  intros Hs. cbn zeta.
  change (success :: rest) with ([success] ++ rest).
  rewrite !check_many_app.
  set (i1 := HealthChecker.check_many self i before).
  assert (HealthChecker.check_many self i1 [success]
          = ServiceInstance.mark_healthy i1 success.1.2) as ->.
  { cbn. by rewrite check_instance_health_is_probe_step, probe_step_success. }
  destruct (check_many_failures self rest
              (ServiceInstance.mark_healthy i1 success.1.2) Hth Hfs)
    as (Hcf & Hst & Hnone).
  split; [rewrite Hcf; cbn; lia|].
  case_decide as Hnil; [by rewrite Hnone|by apply Hst].
Qed.

(** X12. The health summary counts every pooled instance exactly once: the
    four counters add up to [total_instances], which is the size of the
    pool; [healthy] is the number of instances [get_healthy_instances]
    returns; and the detail entries list the instances in pool order with
    their current status. *)
Theorem health_summary_counts (lb : LoadBalancer.t) (h : Heap) :
  let s := HealthChecker.get_health_summary lb h in
  HealthChecker.total_instances s = length (LoadBalancer.instances lb)
  ∧ HealthChecker.healthy s + HealthChecker.unhealthy s
    + HealthChecker.degraded s + HealthChecker.unknown s
    = HealthChecker.total_instances s
  ∧ HealthChecker.healthy s = length (LoadBalancer.get_healthy_instances lb h)
  ∧ HealthChecker.ih_name <$> HealthChecker.instances s
    = (λ r, ServiceInstance.name (deref h r)) <$> LoadBalancer.instances lb
  ∧ HealthChecker.ih_status <$> HealthChecker.instances s
    = (λ r, ServiceInstance.health_status (deref h r)) <$> LoadBalancer.instances lb.
Proof.
  cbn zeta. unfold HealthChecker.get_health_summary.
  destruct (summary_fold h (LoadBalancer.instances lb)
              {| HealthChecker.total_instances := length (LoadBalancer.instances lb);
                 HealthChecker.healthy := 0; HealthChecker.unhealthy := 0;
                 HealthChecker.degraded := 0; HealthChecker.unknown := 0;
                 HealthChecker.instances := [] |})
    as (Ht & Hh & Hu & Hd & Hk & Hn & Hs).
  rewrite Ht, Hh, Hu, Hd, Hk, Hn, Hs. cbn.
  pose proof (count_status_total h (LoadBalancer.instances lb)).
  split; [done|]. split; [lia|]. split; [apply count_status_healthy|done].
Qed.

(** X13. One monitoring pass over a pool without repeated objects, with a
    threshold of at least 1, never touches an object outside the pool. If
    no probe raises an exception other than a [RequestException], the pass
    ends normally and leaves every pooled instance Healthy if its probe
    answered 200 and Unhealthy otherwise (a failing probe of one instance
    does not affect the others), so that the summary taken afterwards
    counts no instance as degraded or unknown. If a probe does raise such
    an exception, the pass raises it at the first such instance: the
    instances before it in pool order have been marked by their probes,
    that instance and all after it are as they were, not checked. *)
Theorem check_all_instances_marks_each (self : HealthChecker.t)
    (lb : LoadBalancer.t) (h : Heap) (probe : loc → ProbeResult)
    (now now' : loc → Q) :
  (1 ≤ HealthChecker.unhealthy_threshold self)%Z →
  pool_wf lb h → NoDup (LoadBalancer.instances lb) →
  let pass := HealthChecker.check_all_instances self lb h probe now now' in
  let h' := pass.1.2 in
  let marked r :=
    deref h' r = (HealthChecker.probe_step (deref h r) (probe r) (now r)).1.2
    ∧ ServiceInstance.health_status (deref h' r)
      = if probe_succeeded (probe r) then HEALTHY else UNHEALTHY in
  ((∀ r, r ∈ LoadBalancer.instances lb → probe_raises (probe r) = None) →
     pass.1.1 = Returned tt
     ∧ length h' = length h
     ∧ (∀ r, r ∈ LoadBalancer.instances lb → marked r)
     ∧ (∀ r, r ∉ LoadBalancer.instances lb → deref h' r = deref h r)
     ∧ HealthChecker.degraded (HealthChecker.get_health_summary lb h') = 0
     ∧ HealthChecker.unknown (HealthChecker.get_health_summary lb h') = 0)
  ∧ (∀ before r after e,
       LoadBalancer.instances lb = before ++ r :: after →
       (∀ r', r' ∈ before → probe_raises (probe r') = None) →
       probe r = ProbeOtherError e →
       pass.1.1 = Raised e
       ∧ length h' = length h
       ∧ (∀ r', r' ∈ before → marked r')
       ∧ (∀ r', r' ∉ before → deref h' r' = deref h r')).
Proof.
  intros Hth Hwf Hnd pass h' marked.
  assert (∀ r, probe_raises (probe r) = None →
            deref h' r
            = (HealthChecker.check_instance_health self (deref h r) (probe r) (now r)
                 (now' r)).1.2 →
            marked r) as Hmarked.
  { intros r Hnone Hr. unfold marked.
    rewrite Hr, check_instance_health_is_probe_step by done.
    split; [done|].
    destruct (probe_cases (probe r)) as [(Hp & _)|[(Hp & Hf & _)|(_ & _ & e & He)]].
    - by rewrite Hp, probe_step_success.
    - by rewrite Hp, probe_step_failure.
    - by rewrite He in Hnone. }
  split.
  - intros Hok.
    destruct (check_each_handled self probe now now' (LoadBalancer.instances lb) h []
                Hnd Hwf Hok) as (Hret & Hlen & Hin & Hout).
    fold (HealthChecker.check_all_instances self lb h probe now now') in Hret, Hlen, Hin, Hout.
    fold pass in Hret, Hlen, Hin, Hout. fold h' in Hlen, Hin, Hout.
    assert (∀ r, r ∈ LoadBalancer.instances lb → marked r) as Hmarks.
    { intros r Hr. apply Hmarked; [by apply Hok|by apply Hin]. }
    split; [done|]. split; [done|]. split; [done|]. split; [done|].
    unfold HealthChecker.get_health_summary.
    destruct (summary_fold h' (LoadBalancer.instances lb)
                {| HealthChecker.total_instances := length (LoadBalancer.instances lb);
                   HealthChecker.healthy := 0; HealthChecker.unhealthy := 0;
                   HealthChecker.degraded := 0; HealthChecker.unknown := 0;
                   HealthChecker.instances := [] |})
      as (_ & _ & _ & Hd & Hk & _).
    rewrite Hd, Hk. cbn.
    assert (∀ s, s ≠ HEALTHY → s ≠ UNHEALTHY →
              count_status h' s (LoadBalancer.instances lb) = 0%nat) as Hnone.
    { intros s Hs1 Hs2. unfold count_status.
      destruct (filter _ _) as [|r l] eqn:Hf; [done|].
      assert (r ∈ filter (λ r, ServiceInstance.health_status (deref h' r) = s)
                    (LoadBalancer.instances lb)) as Hr by (rewrite Hf; left).
      apply list_elem_of_filter in Hr as [Hst Hr].
      destruct (Hmarks r Hr) as [_ Hst']. rewrite Hst in Hst'.
      by destruct (probe_succeeded (probe r)). }
    by rewrite !Hnone.
  - intros before r after e Hsplit Hok He.
    unfold pool_wf in Hwf. rewrite Hsplit in Hnd, Hwf.
    destruct (check_each_raises self probe now now' before r after e h []
                Hnd Hwf Hok He) as (Hret & Hlen & Hin & Hout).
    rewrite <-Hsplit in Hret, Hlen, Hin, Hout.
    fold (HealthChecker.check_all_instances self lb h probe now now') in Hret, Hlen, Hin, Hout.
    fold pass in Hret, Hlen, Hin, Hout. fold h' in Hlen, Hin, Hout.
    split; [done|]. split; [done|]. split; [|done].
    intros r' Hr'. apply Hmarked; [by apply Hok|by apply Hin].
Qed.

(** ** Circuit breaker: every state it can reach *)

Section BreakerInvariant.
Local Open Scope Z_scope.
Import CircuitBreaker.
Context {World : Type} (time_time : World → Q).
Implicit Types (b : CircuitBreaker.t).

Ltac breaker_cases :=
  repeat (cbn in *;
          match goal with
          | |- context [Qle_bool ?a ?c] => destruct (Qle_bool a c)
          | |- context [?a <=? ?c] => destruct (Z.leb_spec a c)
          | |- context [exc_class ?e] => destruct (exc_class e)
          end);
  cbn in *.

Lemma call_consistent {A} b (f : Func A) w :
  consistent b →
  consistent (call time_time b f w).1.2
  ∧ config (call time_time b f w).1.2 = config b.
Proof.
  destruct b as [ft tmo hm st fc sc lft hoc].
  unfold consistent, config, call, check_open, check_half_open_limit, execute,
    _should_attempt_reset. cbn.
  intros (Hfc & Hsc & Hhoc & Hst).
  destruct st; cbn in *.
  - destruct (f w) as [[result|e] w']; unfold _on_success, _on_failure;
      breaker_cases; repeat split; (done || lia).
  - destruct lft as [last|]; [|by destruct Hst as [? _]].
    destruct (Qle_bool tmo (time_time w - last)); cbn;
      [|repeat split; (done || lia)].
    destruct (Z.leb_spec hm 0); cbn; [repeat split; (done || lia)|].
    destruct (f w) as [[result|e] w']; unfold _on_success, _on_failure;
      breaker_cases; repeat split; (done || lia).
  - destruct (Z.leb_spec hm hoc); cbn; [repeat split; (done || lia)|].
    destruct (f w) as [[result|e] w']; unfold _on_success, _on_failure;
      breaker_cases; repeat split; (done || lia).
Qed.

Lemma reset_consistent b : consistent (reset b) ∧ config (reset b) = config b.
Proof. unfold consistent, config. cbn. repeat split; (done || lia || by left). Qed.

Lemma run_consistent {A} (ops : list (Op A)) : ∀ b,
  consistent b →
  consistent (run time_time b ops) ∧ config (run time_time b ops) = config b.
Proof.
  induction ops as [|op ops IH]; intros b Hb; [done|].
  cbn [run foldl]. fold (run time_time (step time_time b op) ops).
  assert (consistent (step time_time b op) ∧ config (step time_time b op) = config b)
    as [Hc Hcfg].
  { destruct op as [c|]; [by apply call_consistent|apply reset_consistent]. }
  destruct (IH _ Hc) as [Hc' Hcfg']. split; [done|congruence].
Qed.

End BreakerInvariant.

(** X14. However a breaker is driven from its construction (calls that
    succeed, fail or are rejected, manual resets, at any clock readings),
    it stays consistent: counters never negative; while closed, fewer
    failures on record than the threshold (or none); while open, the time of
    the last failure is on record; while half-open, no more trial calls
    issued than [half_open_max_calls] (none when that is negative) and no
    more successes than trial calls. No method changes the constructor
    arguments. *)
Theorem breaker_stays_consistent {World : Type} (time_time : World → Q) {A : Type}
    (failure_threshold : Z) (timeout : Q) (half_open_max_calls : Z)
    (ops : list (CircuitBreaker.Op A)) :
  let b :=
    CircuitBreaker.run time_time
      (CircuitBreaker.__init__ failure_threshold timeout half_open_max_calls) ops in
  CircuitBreaker.consistent b
  ∧ CircuitBreaker.config b = (failure_threshold, timeout, half_open_max_calls).
Proof.
  apply (run_consistent time_time ops
           (CircuitBreaker.__init__ failure_threshold timeout half_open_max_calls)).
  unfold CircuitBreaker.consistent. cbn. repeat split; (done || lia || by left).
Qed.

Section BreakerPassThrough.
Local Open Scope Z_scope.
Import CircuitBreaker.
Context {World : Type} (time_time : World → Q).

(** X15. The breaker adds two rejections and nothing else: a call either
    is rejected as open (breaker and world untouched), or is rejected at the
    half-open limit (world untouched), or runs the wrapped function once
    and hands back exactly what it returned or raised, in the world it
    left. A closed breaker always runs it. *)
Theorem call_rejects_or_passes_through {A} (b : CircuitBreaker.t) (f : Func A)
    (w : World) :
  let res := call time_time b f w in
  ((res = (Raised circuit_open_error, b, w) ∧ state b = OPEN)
   ∨ (res.1.1 = Raised half_open_limit_error ∧ res.2 = w ∧ state b ≠ CLOSED)
   ∨ (res.1.1 = (f w).1 ∧ res.2 = (f w).2))
  ∧ (state b = CLOSED → res.1.1 = (f w).1 ∧ res.2 = (f w).2).
Proof.
  assert (∀ b', (execute time_time b' f w).1.1 = (f w).1
                ∧ (execute time_time b' f w).2 = (f w).2) as Hexec.
  { intros b'. unfold execute. destruct (f w) as [[result|e] w']; [done|].
    by destruct (exc_class e). }
  cbn zeta. split; [|intros Hst; rewrite call_closed by done; apply Hexec].
  destruct b as [ft tmo hm st fc sc lft hoc].
  unfold call, check_open, check_half_open_limit. cbn [state].
  destruct st.
  - right. right. apply Hexec.
  - destruct (_should_attempt_reset _ (time_time w)); [|by left].
    cbn [_transition_to_half_open state half_open_max_calls half_open_calls].
    destruct (_ <=? _); [|right; right; apply Hexec].
    right. left. done.
  - cbn [half_open_max_calls half_open_calls].
    destruct (_ <=? _); [|right; right; apply Hexec].
    right. left. done.
Qed.

(** X16. A failed trial call reopens the circuit at once: from half-open
    with a trial call left, a call whose function fails leaves the breaker
    open with the time of that failure on record, and until [timeout] has
    elapsed since then every call is rejected without running its
    function. *)
Theorem half_open_failure_reopens {A} (b : CircuitBreaker.t) (c : Func A * World) :
  state b = HALF_OPEN →
  half_open_calls b < half_open_max_calls b →
  fails c = true →
  let b' := (call time_time b c.1 c.2).1.2 in
  let last := time_time (c.1 c.2).2 in
  state b' = OPEN
  ∧ last_failure_time b' = Some last
  ∧ (∀ B (f : Func B) w,
       (time_time w - last < timeout b)%Q →
       call time_time b' f w = (Raised circuit_open_error, b', w)).
Proof.
  intros Hst Hlt Hc b' last.
  assert (b' = _transition_to_open
                 (mk (failure_threshold b) (timeout b) (half_open_max_calls b)
                     HALF_OPEN (failure_count b + 1) (success_count b)
                     (Some last) (half_open_calls b + 1))) as Hb'.
  { unfold b', call, check_open, check_half_open_limit. rewrite Hst.
    cbv beta iota. rewrite Hst.
    destruct (Z.leb_spec (half_open_max_calls b) (half_open_calls b)); [lia|].
    rewrite execute_fails by done. done. }
  split; [by rewrite Hb'|]. split; [by rewrite Hb'|].
  intros B f w Hw. apply (open_rejects time_time b' last); by rewrite Hb'.
Qed.

(** X17. A manual reset closes the breaker whatever its state and zeroes
    the three counters, so that the next call runs its function even if the
    circuit was open and its timeout had not elapsed; the time of the last
    failure stays on record. *)
Theorem reset_readmits {A} (b : CircuitBreaker.t) (f : Func A) (w : World) :
  state (reset b) = CLOSED
  ∧ failure_count (reset b) = 0 ∧ success_count (reset b) = 0
  ∧ half_open_calls (reset b) = 0
  ∧ last_failure_time (reset b) = last_failure_time b
  ∧ (call time_time (reset b) f w).1.1 = (f w).1
  ∧ (call time_time (reset b) f w).2 = (f w).2.
Proof.
  do 5 (split; [done|]). rewrite call_closed by done.
  unfold execute. destruct (f w) as [[result|e] w']; [done|].
  by destruct (exc_class e).
Qed.

End BreakerPassThrough.

(** ** Failover manager: registration, failback, statistics *)

Section RegistrationFacts.
Import FailoverManager.
Implicit Types (fm : FailoverManager.t) (h : Heap) (lb : LoadBalancer.t).

Lemma dict_get_set_eq {V} k (v : V) (l : dict V) : dict_get k (dict_set k v l) = Some v.
Proof.
  induction l as [|[k' v'] l IH]; cbn; [by rewrite decide_True|].
  destruct (decide (k' = k)) as [->|Hne]; cbn; [by rewrite decide_True|].
  by rewrite decide_False.
Qed.

Lemma dict_get_set_ne {V} k k' (v : V) (l : dict V) :
  k' ≠ k → dict_get k' (dict_set k v l) = dict_get k' l.
Proof.
  intros Hne. induction l as [|[k0 v0] l IH]; cbn; [by rewrite decide_False|].
  destruct (decide (k0 = k)) as [->|Hk]; cbn.
  - by rewrite !decide_False by done.
  - by rewrite IH.
Qed.

Lemma dict_get_None {V} k (l : dict V) : k ∉ l.*1 → dict_get k l = None.
Proof.
  induction l as [|[k' v'] l IH]; [done|]. cbn.
  intros [Hne Hnot]%not_elem_of_cons. rewrite decide_False by done. by apply IH.
Qed.

(** The events of one pass over a dictionary that carry a given key: one
    if the key's entry gives rise to an event, none otherwise. *)
Lemma events_of_key (ev : string * loc → option Event) (sel : Event → Prop)
    `{∀ e, Decision (sel e)} (tag : Event → string) name (d : dict loc) :
  (∀ k v e, (k, v) ∈ d → ev (k, v) = Some e → sel e ∧ tag e = k) →
  NoDup d.*1 →
  length (filter (λ e, sel e ∧ tag e = name) (omap ev d))
  = match dict_get name d with
    | Some v => match ev (name, v) with Some _ => 1 | None => 0 end
    | None => 0
    end.
Proof.
  induction d as [|[k v] d IH]; intros Hev Hnd; [done|].
  rewrite fmap_cons in Hnd. apply NoDup_cons in Hnd as [Hk Hnd].
  assert (∀ k v e, (k, v) ∈ d → ev (k, v) = Some e → sel e ∧ tag e = k) as Hev'
    by (intros ??? Hin; apply Hev; by right).
  specialize (IH Hev' Hnd). rewrite omap_cons_eq. cbn [dict_get].
  destruct (decide (k = name)) as [->|Hne].
  - rewrite dict_get_None in IH by done.
    destruct (ev (name, v)) as [e|] eqn:He; [|done].
    destruct (Hev name v e) as [Hsel Htag]; [left|done|].
    rewrite filter_cons_True by done. cbn [length]. by rewrite IH.
  - destruct (ev (k, v)) as [e|] eqn:He; [|done].
    destruct (Hev k v e) as [Hsel Htag]; [left|done|].
    rewrite filter_cons_False; [done|]. intros [_ Htag']. congruence.
Qed.

Lemma failover_event_tag backups h now d k v e :
  names_match h d → (k, v) ∈ d →
  failover_event backups h now (k, v) = Some e →
  ev_type e = Failover ∧ ev_from e = k.
Proof.
  intros Hnm Hin. unfold failover_event. cbn [fst snd].
  destruct (ServiceInstance.is_healthy (deref h v)); [done|].
  destruct (dict_get k backups) as [rb|]; [|done]. cbn [mbind option_bind].
  destruct (ServiceInstance.is_healthy (deref h rb)); [|done].
  intros [= <-]. split; [done|]. cbn. by apply Hnm.
Qed.

Lemma failback_event_tag backups h now d k v e :
  names_match h d → (k, v) ∈ d →
  failback_event backups h now (k, v) = Some e →
  ev_type e = Failback ∧ ev_to e = k.
Proof.
  intros Hnm Hin. unfold failback_event. cbn [fst snd].
  destruct (ServiceInstance.is_healthy (deref h v)); [|done].
  destruct (dict_get k backups) as [rb|]; [|done]. cbn [mbind option_bind].
  destruct (_ <? _)%Z; [|done].
  intros [= <-]. split; [done|]. cbn. by apply Hnm.
Qed.

Lemma failback_step_event h now fm entry :
  failback_step h now fm entry =
    match failback_event (backup_instances fm) h now entry with
    | Some e => record_event fm e
    | None => fm
    end.
Proof.
  destruct entry as [k r]. unfold failback_step, failback_event.
  cbn [fst snd].
  destruct (ServiceInstance.is_healthy (deref h r)); [|done].
  destruct (dict_get k (backup_instances fm)) as [rb|]; [|done].
  cbn [mbind option_bind]. by destruct (_ <? _)%Z.
Qed.

Lemma failback_fold entries : ∀ fm h now,
  let fm' := foldl (failback_step h now) fm entries in
  failover_history fm' =
    failover_history fm ++ omap (failback_event (backup_instances fm) h now) entries
  ∧ primary_instances fm' = primary_instances fm
  ∧ backup_instances fm' = backup_instances fm
  ∧ enable_failback fm' = enable_failback fm.
Proof.
  induction entries as [|entry entries IH]; intros fm h now; cbn zeta.
  - cbn. by rewrite app_nil_r.
  - cbn [foldl]. rewrite failback_step_event, omap_cons_eq.
    destruct (failback_event (backup_instances fm) h now entry) as [e|].
    + destruct (IH (record_event fm e) h now) as (Hh & Hp & Hb & He).
      rewrite Hh, Hp, Hb, He. cbn. by rewrite <-app_assoc.
    + apply IH.
Qed.

End RegistrationFacts.

(** X18. Registration files an instance under a key, one entry per key:
    [set_primary] and [set_backup] with the name of a pooled instance make
    that instance the entry of the key (replacing an earlier entry, so a
    primary has at most one backup), leave the other keys and the event log
    alone and keep the keys distinct; with a name that is not pooled they
    change nothing. *)
Theorem registration_files_by_key (fm : FailoverManager.t) (lb : LoadBalancer.t)
    (h : Heap) (primary_name name : string) :
  let with_primary := FailoverManager.set_primary fm lb h name in
  let with_backup := FailoverManager.set_backup fm lb h primary_name name in
  (LoadBalancer.get_instance_by_name lb h name = None →
     with_primary = fm ∧ with_backup = fm)
  ∧ (∀ r, LoadBalancer.get_instance_by_name lb h name = Some r →
       ServiceInstance.name (deref h r) = name
       ∧ dict_get name (FailoverManager.primary_instances with_primary) = Some r
       ∧ dict_get primary_name (FailoverManager.backup_instances with_backup) = Some r
       ∧ (∀ k, k ≠ name →
            dict_get k (FailoverManager.primary_instances with_primary)
            = dict_get k (FailoverManager.primary_instances fm))
       ∧ (∀ k, k ≠ primary_name →
            dict_get k (FailoverManager.backup_instances with_backup)
            = dict_get k (FailoverManager.backup_instances fm))
       ∧ (NoDup (FailoverManager.primary_instances fm).*1 →
          NoDup (FailoverManager.primary_instances with_primary).*1)
       ∧ (NoDup (FailoverManager.backup_instances fm).*1 →
          NoDup (FailoverManager.backup_instances with_backup).*1)
       ∧ FailoverManager.backup_instances with_primary
         = FailoverManager.backup_instances fm
       ∧ FailoverManager.primary_instances with_backup
         = FailoverManager.primary_instances fm
       ∧ FailoverManager.failover_history with_primary
         = FailoverManager.failover_history fm
       ∧ FailoverManager.failover_history with_backup
         = FailoverManager.failover_history fm).
Proof.
  cbn zeta. unfold FailoverManager.set_primary, FailoverManager.set_backup.
  split.
  - by intros ->.
  - intros r Hr. rewrite Hr. cbn.
    split; [by eapply get_instance_by_name_name|].
    split; [apply dict_get_set_eq|]. split; [apply dict_get_set_eq|].
    split; [intros k Hk; by apply dict_get_set_ne|].
    split; [intros k Hk; by apply dict_get_set_ne|].
    split; [apply dict_set_NoDup|]. split; [apply dict_set_NoDup|]. done.
Qed.

(** X19. A failover check logs for a primary only when there is cause: the
    number of Failover events one call of [check_and_failover] appends for a
    name is 1 if the name is registered as a primary that is not healthy
    and has a registered backup that is healthy, and 0 in every other case
    (not registered, healthy, no backup, backup not healthy). The call only
    appends to the log and leaves both dictionaries as they are. *)
Theorem failover_only_with_cause (fm : FailoverManager.t) (h : Heap) (now : Q)
    (name : string) :
  NoDup (FailoverManager.primary_instances fm).*1 →
  names_match h (FailoverManager.primary_instances fm) →
  let fm' := FailoverManager.check_and_failover fm h now in
  ∃ new,
    FailoverManager.failover_history fm' = FailoverManager.failover_history fm ++ new
    ∧ FailoverManager.primary_instances fm' = FailoverManager.primary_instances fm
    ∧ FailoverManager.backup_instances fm' = FailoverManager.backup_instances fm
    ∧ length (failovers_from name new)
      = match dict_get name (FailoverManager.primary_instances fm),
              dict_get name (FailoverManager.backup_instances fm) with
        | Some primary, Some backup =>
            if negb (ServiceInstance.is_healthy (deref h primary))
               && ServiceInstance.is_healthy (deref h backup)
            then 1 else 0
        | _, _ => 0
        end.
Proof.
  intros Hnd Hnm fm'.
  destruct (check_and_failover_appends fm h now) as (Hh & Hp & Hb).
  eexists. split; [exact Hh|]. split; [done|]. split; [done|].
  unfold failovers_from.
  rewrite (events_of_key _ (λ e, ev_type e = Failover) ev_from name
             (FailoverManager.primary_instances fm)); [|by eauto using failover_event_tag|done].
  destruct (dict_get name (FailoverManager.primary_instances fm)) as [primary|]; [|done].
  unfold failover_event. cbn [fst snd].
  destruct (ServiceInstance.is_healthy (deref h primary)); [by destruct (dict_get _ _)|].
  destruct (dict_get name (FailoverManager.backup_instances fm)) as [backup|]; [|done].
  cbn. by destruct (ServiceInstance.is_healthy (deref h backup)).
Qed.

(** X20. A failback check appends exactly one Failback event for a
    registered primary when failback is enabled, the primary is healthy and
    its registered backup has served strictly more requests in total, and
    none otherwise; with failback disabled the call changes nothing. The
    call only appends to the log and leaves both dictionaries as they
    are. *)
Theorem failback_only_with_cause (fm : FailoverManager.t) (h : Heap) (now : Q)
    (name : string) :
  NoDup (FailoverManager.primary_instances fm).*1 →
  names_match h (FailoverManager.primary_instances fm) →
  let fm' := FailoverManager.check_and_failback fm h now in
  (FailoverManager.enable_failback fm = false → fm' = fm)
  ∧ ∃ new,
      FailoverManager.failover_history fm' = FailoverManager.failover_history fm ++ new
      ∧ FailoverManager.primary_instances fm' = FailoverManager.primary_instances fm
      ∧ FailoverManager.backup_instances fm' = FailoverManager.backup_instances fm
      ∧ failovers_from name new = []
      ∧ length (failbacks_to name new)
        = match dict_get name (FailoverManager.primary_instances fm),
                dict_get name (FailoverManager.backup_instances fm) with
          | Some primary, Some backup =>
              if FailoverManager.enable_failback fm
                 && ServiceInstance.is_healthy (deref h primary)
                 && (ServiceInstance.total_requests (deref h primary)
                     <? ServiceInstance.total_requests (deref h backup))%Z
              then 1 else 0
          | _, _ => 0
          end.
Proof.
  intros Hnd Hnm fm'. unfold fm', FailoverManager.check_and_failback.
  destruct (FailoverManager.enable_failback fm) eqn:Hen.
  - split; [done|].
    destruct (failback_fold (FailoverManager.primary_instances fm) fm h now)
      as (Hh & Hp & Hb & _).
    eexists. split; [exact Hh|]. split; [done|]. split; [done|]. split.
    + unfold failovers_from.
      destruct (filter _ _) as [|e l] eqn:Hf; [done|].
      assert (e ∈ filter (λ e, ev_type e = Failover ∧ ev_from e = name)
                    (omap (failback_event (FailoverManager.backup_instances fm) h now)
                       (FailoverManager.primary_instances fm))) as He
        by (rewrite Hf; left).
      apply list_elem_of_filter in He as [[Hty _] He].
      apply list_elem_of_omap in He as ([k v] & Hin & Hev).
      apply (failback_event_tag _ _ _ _ _ _ _ Hnm Hin) in Hev as [Hty' _].
      congruence.
    + unfold failbacks_to.
      rewrite (events_of_key _ (λ e, ev_type e = Failback) ev_to name
                 (FailoverManager.primary_instances fm));
        [|by eauto using failback_event_tag|done].
      destruct (dict_get name (FailoverManager.primary_instances fm)) as [primary|];
        [|done].
      unfold failback_event. cbn [fst snd andb].
      destruct (ServiceInstance.is_healthy (deref h primary));
        [|by destruct (dict_get _ _)].
      destruct (dict_get name (FailoverManager.backup_instances fm)) as [backup|];
        [|done].
      cbn. by destruct (_ <? _)%Z.
  - split; [done|]. exists []. rewrite app_nil_r. repeat split; try done.
    by destruct (dict_get name (FailoverManager.primary_instances fm)),
         (dict_get name (FailoverManager.backup_instances fm)).
Qed.

(** X21. The failover statistics account for the whole log: the numbers of
    failovers and of failbacks add up to the length of the history, and
    [recent_events] is its tail, the last five events in order (all of them
    when there are fewer). *)
Theorem failover_stats_account (fm : FailoverManager.t) :
  let stats := FailoverManager.get_failover_stats fm in
  FailoverManager.total_failovers stats + FailoverManager.total_failbacks stats
  = length (FailoverManager.failover_history fm)
  ∧ length (FailoverManager.recent_events stats)
    = length (FailoverManager.failover_history fm) `min` 5
  ∧ ∃ older,
      FailoverManager.failover_history fm
      = older ++ FailoverManager.recent_events stats.
Proof.
  cbn zeta. unfold FailoverManager.get_failover_stats, FailoverManager.last_n.
  cbn [FailoverManager.total_failovers FailoverManager.total_failbacks
       FailoverManager.recent_events].
  split; [|split].
  - induction (FailoverManager.failover_history fm) as [|e l IH]; [done|].
    rewrite !filter_cons.
    destruct (ev_type e);
      repeat (first [rewrite decide_True by done | rewrite decide_False by done]);
      cbn [length]; lia.
  - rewrite length_drop. lia.
  - eexists. symmetry. apply take_drop.
Qed.

(** ** The pool under its operations *)

Section PoolOperationFacts.
Implicit Types (h : Heap) (r : loc) (lb : LoadBalancer.t).

Lemma forward_request_balancer lb h rnd transport now path method data timeout :
  (LoadBalancer.forward_request lb h rnd transport now path method data timeout).1.2
  = (LoadBalancer.get_next_instance lb h rnd).2.
Proof.
  unfold LoadBalancer.forward_request.
  destruct (LoadBalancer.get_next_instance lb h rnd) as [[r|] lb1]; [|done].
  by destruct (LoadBalancer.perform _ _ _ _ _) as [? ? [?|?|?]| |?|?].
Qed.

Lemma forward_request_heap_shape lb h rnd transport now path method data timeout :
  ∃ f r,
    (LoadBalancer.forward_request lb h rnd transport now path method data timeout).2
    = mutate f r h
    ∧ ∀ i, identity (f i) = identity i.
Proof.
  destruct (LoadBalancer.get_next_instance lb h rnd) as [[r|] lb1] eqn:Hnext.
  - eexists _, r. split; [by apply (forward_request_heap _ _ _ _ _ _ _ _ _ _ _ Hnext)|].
    intros i. by destruct (LoadBalancer.perform _ _ _ _ _) as [? ? [?|?|?]| |?|?].
  - exists id, 0. split; [|done].
    unfold LoadBalancer.forward_request. rewrite Hnext. cbn.
    unfold mutate. by rewrite list_alter_id.
Qed.

Lemma check_instance_health_identity checker probe now now' i :
  identity (HealthChecker.check_instance_health checker i probe now now').1.2
  = identity i.
Proof.
  unfold HealthChecker.check_instance_health, HealthChecker.probe_step.
  destruct probe as [status_code| |msg|e]; [destruct (status_code =? 200)%Z| | |done];
    match goal with |- context [HealthChecker.should_escalate ?c ?x] =>
      destruct (HealthChecker.should_escalate c x) end; done.
Qed.

(** One operation: the pool stays well formed, the heap only grows, and
    the objects that were there keep their identity. *)
Lemma pool_step_ok lb h op :
  pool_ok lb h →
  let st := pool_step (lb, h) op in
  pool_ok st.1 st.2
  ∧ length h ≤ length st.2
  ∧ (∀ r, r < length h → identity (deref st.2 r) = identity (deref h r)).
Proof.
  intros (Hwf & Hnd & Hco).
  assert (∀ f r0, (∀ i, identity (f i) = identity i) →
            pool_ok lb (mutate f r0 h)
            ∧ length h ≤ length (mutate f r0 h)
            ∧ (∀ r, r < length h →
                 identity (deref (mutate f r0 h) r) = identity (deref h r)))
    as Hmut.
  { intros f r0 Hf. rewrite length_mutate. split; [|split; [done|]].
    - split; [|done]. unfold pool_wf. by rewrite length_mutate.
    - intros r Hr. rewrite deref_mutate. case_decide as Hd; [|done].
      destruct Hd as [-> _]. apply Hf. }
  destruct op; cbn [pool_step]; try (apply Hmut; intros i; done).
  - cbn. rewrite length_app. cbn. split; [|split; [lia|]].
    + split; [|split; [|done]].
      * unfold pool_wf. cbn. rewrite length_app. cbn. apply Forall_app. split.
        -- eapply Forall_impl; [exact Hwf|]. cbn. lia.
        -- repeat constructor. lia.
      * cbn. apply NoDup_app. split; [done|]. split; [|apply NoDup_singleton].
        intros r Hr ->%list_elem_of_singleton.
        apply (proj1 (Forall_forall _ _) Hwf) in Hr. lia.
    + intros r Hr. unfold deref. by rewrite lookup_total_app_l.
  - cbn. split; [|done]. split; [|split; [|done]].
    + unfold pool_wf. cbn. apply Forall_forall.
      intros r [_ Hr]%list_elem_of_filter. by apply (proj1 (Forall_forall _ _) Hwf).
    + cbn. by apply NoDup_filter.
  - apply Hmut. intros i. apply check_instance_health_identity.
  - pose proof (forward_request_balancer lb h rnd transport now path method data
                  timeout) as Hlb.
    destruct (forward_request_heap_shape lb h rnd transport now path method data
                timeout) as (f & r0 & Hheap & Hf).
    destruct (get_next_instance_facts lb h rnd Hco) as (_ & _ & Hinst & Hco').
    destruct (LoadBalancer.forward_request _ _ _ _ _ _ _ _ _) as [[o lb'] h'].
    cbn [fst snd] in *. subst lb' h'.
    destruct (Hmut f r0 Hf) as ((Hwf' & _ & _) & Hlen & Hid).
    split; [|done]. split; [|split; [by rewrite Hinst|done]].
    unfold pool_wf in *. by rewrite Hinst.
Qed.

Lemma pool_run_ok ops : ∀ lb h,
  pool_ok lb h →
  let st := pool_run (lb, h) ops in
  pool_ok st.1 st.2
  ∧ length h ≤ length st.2
  ∧ (∀ r, r < length h → identity (deref st.2 r) = identity (deref h r)).
Proof.
  induction ops as [|op ops IH]; intros lb h Hok; cbn zeta; [done|].
  cbn [pool_run foldl]. fold (pool_run (pool_step (lb, h) op) ops).
  destruct (pool_step_ok lb h op Hok) as (Hok1 & Hlen1 & Hid1).
  destruct (pool_step (lb, h) op) as [lb1 h1]. cbn [fst snd] in *.
  destruct (IH lb1 h1 Hok1) as (Hok2 & Hlen2 & Hid2).
  split; [done|]. split; [lia|].
  intros r Hr. rewrite Hid2 by lia. by apply Hid1.
Qed.

End PoolOperationFacts.

(** X22. A pool stays well formed under every sequence of operations:
    every pooled reference points to an object, no object is pooled twice,
    the weighted algorithm's cache stays coherent, and objects are never
    freed (the heap only grows, so a reference held elsewhere stays
    valid). The empty pool of a new balancer is well formed. *)
Theorem pool_stays_well_formed (lb : LoadBalancer.t) (h : Heap) (ops : list PoolOp) :
  pool_ok lb h →
  pool_ok (pool_run (lb, h) ops).1 (pool_run (lb, h) ops).2
  ∧ length h ≤ length (pool_run (lb, h) ops).2
  ∧ ∀ algorithm, pool_ok (LoadBalancer.__init__ algorithm) [].
Proof.
  intros Hok. destruct (pool_run_ok ops lb h Hok) as (Hok' & Hlen & _).
  split; [done|]. split; [done|].
  intros algorithm. split; [constructor|]. split; [constructor|].
  unfold LoadBalancer.__init__, get_algorithm. cbn.
  repeat (destruct (String.eqb _ _); [done|]). done.
Qed.

(** X23. No operation on the pool changes what an instance was created
    with: its name, URL, weight and creation time are the same after any
    sequence of operations, so an instance registered with the failover
    manager under its name stays filed under the right key. *)
Theorem instance_identity_is_fixed (lb : LoadBalancer.t) (h : Heap)
    (ops : list PoolOp) (d : dict loc) :
  pool_ok lb h →
  (∀ r, r < length h →
     identity (deref (pool_run (lb, h) ops).2 r) = identity (deref h r))
  ∧ (Forall (λ e, e.2 < length h) d → names_match h d →
     names_match (pool_run (lb, h) ops).2 d).
Proof.
  intros Hok. destruct (pool_run_ok ops lb h Hok) as (_ & _ & Hid).
  split; [done|]. intros Hd Hnm k r Hin.
  assert (r < length h) as Hr by (by apply (proj1 (Forall_forall _ _) Hd (k, r))).
  specialize (Hid r Hr). unfold identity in Hid.
  injection Hid as Hname _ _ _. rewrite Hname. by apply Hnm.
Qed.

(** ** Traffic analytics *)

Section AnalyticsFacts.
Local Open Scope Z_scope.
Import TrafficAnalytics.
Implicit Types (a : TrafficAnalytics.t) (d : gmap string Z)
  (rs : list (string * bool * Q * Q)).

Lemma sum_values_comm (j1 j2 : string) (z1 z2 y : Z) :
  z1 + (z2 + y) = z2 + (z1 + y).
Proof. lia. Qed.

Lemma sum_values_incr k d : sum_values (incr k d) = sum_values d + 1.
Proof.
  unfold sum_values, incr. destruct (d !! k) as [v|] eqn:Hk; cbn [default].
  - rewrite <-insert_delete_eq.
    rewrite (map_fold_insert_L (λ _ v acc, v + acc)) by
      (first [by intros; apply sum_values_comm | apply lookup_delete_eq]).
    rewrite (map_fold_delete_L (λ _ v acc, v + acc) 0 k v d) by
      (first [by intros; apply sum_values_comm | done]).
    cbv beta. unfold id. lia.
  - rewrite (map_fold_insert_L (λ _ v acc, v + acc)) by
      (first [by intros; apply sum_values_comm | done]).
    cbv beta. lia.
Qed.

Lemma lookup_incr k k' d :
  default 0 (incr k d !! k') = default 0 (d !! k') + if decide (k = k') then 1 else 0.
Proof.
  unfold incr. destruct (decide (k = k')) as [->|Hne].
  - rewrite lookup_insert_eq. cbn. lia.
  - rewrite lookup_insert_ne by done. lia.
Qed.

Lemma record_many_snoc a rs r :
  record_many a (rs ++ [r]) = record_request (record_many a rs) r.1.1.1 r.1.1.2 r.1.2 r.2.
Proof. unfold record_many. by rewrite foldl_snoc. Qed.

Lemma requests_to_snoc name rs r :
  Z.of_nat (length (requests_to name (rs ++ [r])))
  = Z.of_nat (length (requests_to name rs)) + if decide (r.1.1.1 = name) then 1 else 0.
Proof.
  unfold requests_to. rewrite filter_app, length_app, filter_cons, filter_nil.
  destruct (decide (r.1.1.1 = name)); cbn [length]; lia.
Qed.

Lemma failed_among_snoc rs r :
  Z.of_nat (length (failed_among (rs ++ [r])))
  = Z.of_nat (length (failed_among rs)) + if r.1.1.2 then 0 else 1.
Proof.
  unfold failed_among. rewrite filter_app, length_app, filter_cons, filter_nil.
  destruct (r.1.1.2); cbn [length]; [rewrite decide_False by done|rewrite decide_True by done];
    cbn [length]; lia.
Qed.

(** The counters after a series of records, relative to the counters
    before. *)
Lemma record_many_counters rs : ∀ a name,
  let a' := record_many a rs in
  default 0 (requests_by_instance a' !! name)
  = default 0 (requests_by_instance a !! name)
    + Z.of_nat (length (requests_to name rs))
  ∧ default 0 (errors_by_instance a' !! name)
    = default 0 (errors_by_instance a !! name)
      + Z.of_nat (length (failed_among (requests_to name rs)))
  ∧ sum_values (requests_by_instance a')
    = sum_values (requests_by_instance a) + Z.of_nat (length rs)
  ∧ sum_values (errors_by_instance a')
    = sum_values (errors_by_instance a) + Z.of_nat (length (failed_among rs)).
Proof.
  induction rs as [|r rs IH] using rev_ind; intros a name; cbn zeta.
  - cbn. repeat split; lia.
  - destruct (IH a name) as (Hreq & Herr & Hsum & Hesum).
    rewrite record_many_snoc. cbn [record_request requests_by_instance errors_by_instance].
    rewrite lookup_incr, sum_values_incr, Hreq, Hsum, requests_to_snoc,
      failed_among_snoc, length_app.
    unfold requests_to in *. rewrite filter_app, filter_cons, filter_nil.
    unfold failed_among in *. rewrite filter_app, length_app.
    destruct r as [[[n success] rt] t]. cbn [fst snd] in *.
    destruct success.
    + rewrite Herr, Hesum. cbn [length].
      destruct (decide (n = name)); cbn [app length filter];
        rewrite ?filter_cons, ?filter_nil, ?decide_False by done;
        cbn [length]; repeat split; lia.
    + rewrite lookup_incr, sum_values_incr, Herr, Hesum. cbn [length].
      destruct (decide (n = name)); cbn [app length filter];
        rewrite ?filter_cons, ?filter_nil, ?decide_True by done;
        cbn [length]; repeat split; lia.
Qed.

(** The history after one more record is the last 1000 entries of the
    history extended by the new entry. *)
Lemma history_window_step (hist : list RequestRecord) e :
  (length hist ≤ 1000)%nat →
  (if (1000 <? length (hist ++ [e]))%nat then tail (hist ++ [e]) else hist ++ [e])
  = drop (length (hist ++ [e]) - 1000) (hist ++ [e]).
Proof.
  intros Hlen. rewrite length_app. cbn [length].
  destruct (Nat.ltb_spec 1000 (length hist + 1)) as [Hgt|Hle].
  - replace (length hist + 1 - 1000)%nat with 1%nat by lia.
    by destruct (hist ++ [e]).
  - by replace (length hist + 1 - 1000)%nat with 0%nat by lia.
Qed.

Lemma history_window rs : ∀ a,
  (length (request_history a) ≤ 1000)%nat →
  request_history (record_many a rs)
  = drop (length (request_history a ++ (history_entry <$> rs)) - 1000)
      (request_history a ++ (history_entry <$> rs)).
Proof.
  induction rs as [|r rs IH] using rev_ind; intros a Hlen.
  - cbn. rewrite app_nil_r. by replace (_ - 1000)%nat with 0%nat by lia.
  - rewrite record_many_snoc. cbn [record_request request_history].
    specialize (IH a Hlen).
    set (full := request_history a ++ (history_entry <$> rs)) in *.
    change {| rr_timestamp := r.2; rr_instance := r.1.1.1;
              rr_success := r.1.1.2; rr_response_time := r.1.2 |}
      with (history_entry r).
    rewrite history_window_step by (rewrite IH, length_drop; lia).
    rewrite fmap_app, app_assoc. fold full. cbn [fmap list_fmap].
    rewrite IH, !length_app, length_drop. cbn [length].
    destruct (decide (length full ≤ 1000)%nat) as [Hle|Hgt].
    + replace (length full - 1000)%nat with 0%nat by lia. cbn [drop].
      by replace (length full - 0 + 1 - 1000)%nat with (length full + 1 - 1000)%nat by lia.
    + replace (length full - (length full - 1000) + 1 - 1000)%nat with 1%nat by lia.
      rewrite <-drop_app_le by lia. rewrite drop_drop. f_equal. lia.
Qed.

End AnalyticsFacts.

(** X24. The request history is a sliding window: starting from a history
    of at most 1000 entries, after any series of records it holds the last
    1000 entries of the old history followed by the new records, in order
    (all of them while there are fewer), and so never more than 1000. *)
Theorem request_history_is_a_window (a : TrafficAnalytics.t)
    (rs : list (string * bool * Q * Q)) :
  length (TrafficAnalytics.request_history a) ≤ 1000 →
  let all := TrafficAnalytics.request_history a ++ (history_entry <$> rs) in
  TrafficAnalytics.request_history (TrafficAnalytics.record_many a rs)
  = drop (length all - 1000) all
  ∧ length (TrafficAnalytics.request_history (TrafficAnalytics.record_many a rs))
    = length all `min` 1000.
Proof.
  intros Hlen all. rewrite history_window by done. fold all.
  split; [done|]. rewrite length_drop. lia.
Qed.

(** X25. The counters of new analytics count the records: after any series
    of records, the overall statistics report as many requests as were
    recorded and as many failures as records that were not successful, and
    the statistics of each instance report the records that named it;
    successes and failures add up to the total and none is negative. An
    instance that was never named reports zero throughout. *)
Theorem analytics_count_the_records (now : Q) (rs : list (string * bool * Q * Q))
    (name : string) :
  let a := TrafficAnalytics.record_many (TrafficAnalytics.__init__ now) rs in
  let overall := TrafficAnalytics.get_overall_stats a in
  let stats := TrafficAnalytics.get_instance_stats a name in
  TrafficAnalytics.total_requests overall = Z.of_nat (length rs)
  ∧ TrafficAnalytics.failed_requests overall = Z.of_nat (length (failed_among rs))
  ∧ TrafficAnalytics.successful_requests overall
    = Z.of_nat (length rs - length (failed_among rs))
  ∧ TrafficAnalytics.total_requests stats = Z.of_nat (length (requests_to name rs))
  ∧ TrafficAnalytics.failed_requests stats
    = Z.of_nat (length (failed_among (requests_to name rs)))
  ∧ TrafficAnalytics.successful_requests stats
    = Z.of_nat (length (requests_to name rs)
                - length (failed_among (requests_to name rs))).
Proof.
  cbn zeta.
  destruct (record_many_counters rs (TrafficAnalytics.__init__ now) name)
    as (Hreq & Herr & Hsum & Hesum).
  unfold TrafficAnalytics.get_overall_stats, TrafficAnalytics.get_instance_stats.
  cbn [TrafficAnalytics.total_requests TrafficAnalytics.failed_requests
       TrafficAnalytics.successful_requests].
  rewrite Hreq, Herr, Hsum, Hesum. cbn.
  pose proof (length_filter (λ r : string * bool * Q * Q, r.1.1.2 = false) rs).
  pose proof (length_filter (λ r : string * bool * Q * Q, r.1.1.2 = false)
                (requests_to name rs)).
  unfold failed_among in *. unfold TrafficAnalytics.sum_values.
  rewrite !map_fold_empty, !lookup_empty. cbn. repeat split; lia.
Qed.

(** X26. [get_recent_requests(limit)] on new analytics: for a limit of at
    least 1 it returns the entries of the last [min(limit, 1000)] recorded
    requests, oldest first (all of them when fewer were recorded); for a
    limit of 0 the slice [[-0:]] is the whole retained history, not the
    empty list. *)
Theorem recent_requests_are_the_last (now : Q) (rs : list (string * bool * Q * Q))
    (limit : Z) :
  let a := TrafficAnalytics.record_many (TrafficAnalytics.__init__ now) rs in
  ((1 ≤ limit)%Z →
     TrafficAnalytics.get_recent_requests a limit
     = history_entry <$> drop (length rs - Z.to_nat limit `min` 1000) rs)
  ∧ TrafficAnalytics.get_recent_requests a 0
    = history_entry <$> drop (length rs - 1000) rs.
Proof.
  cbn zeta. unfold TrafficAnalytics.get_recent_requests.
  rewrite history_window by (cbn; lia). cbn [TrafficAnalytics.request_history
    TrafficAnalytics.__init__ app]. rewrite length_fmap, <-fmap_drop.
  split.
  - intros Hlimit. destruct (Z.ltb_spec 0 limit) as [_|?]; [|lia].
    rewrite length_fmap, length_drop, <-fmap_drop, drop_drop. do 2 f_equal. lia.
  - cbn. done.
Qed.

(** ** Balancer statistics *)

Section StatsFacts.
Local Open Scope Z_scope.

Lemma sum_over_le (f g : ServiceInstance.t → Z) h l : ∀ a b,
  (∀ r, f (deref h r) ≤ g (deref h r)) → a ≤ b →
  foldl (λ acc r, acc + f (deref h r)) a l ≤ foldl (λ acc r, acc + g (deref h r)) b l.
Proof.
  induction l as [|r l IH]; intros a b Hfg Hab; [done|].
  cbn. apply IH; [done|]. specialize (Hfg r). lia.
Qed.

Lemma deref_Forall (P : ServiceInstance.t → Prop) (h : Heap) r :
  P inhabitant → Forall P h → P (deref h r).
Proof.
  intros Hd Hh. unfold deref. rewrite list_lookup_total_alt.
  destruct (h !! r) as [i|] eqn:Hi; [|done].
  by apply (proj1 (Forall_lookup _ _) Hh r i).
Qed.

End StatsFacts.

(** X27. The balancer's statistics are consistent: [total_instances] is the
    size of the pool, [healthy_instances] is at most that, and, when the
    request counters of the instances add up, the total of failures lies
    between 0 and the total of requests (so the overall error rate is a
    percentage between 0 and 100). *)
Theorem balancer_stats_consistent (lb : LoadBalancer.t) (h : Heap) :
  let s := LoadBalancer.get_stats lb h in
  LoadBalancer.total_instances s = length (LoadBalancer.instances lb)
  ∧ LoadBalancer.healthy_instances s ≤ LoadBalancer.total_instances s
  ∧ (Forall requests_add_up h →
     (0 ≤ LoadBalancer.total_failures s ≤ LoadBalancer.total_requests s)%Z).
Proof.
  cbn zeta. unfold LoadBalancer.get_stats. cbn.
  split; [done|]. split; [apply length_filter|].
  intros Hh. unfold LoadBalancer.sum_over.
  assert (∀ r, requests_add_up (deref h r)) as Hall.
  { intros r. apply deref_Forall; [|done]. unfold requests_add_up. cbn. lia. }
  split.
  - etrans; [|apply (sum_over_le (λ _, 0%Z) ServiceInstance.failed_requests h
                       (LoadBalancer.instances lb) 0%Z 0%Z)]; [| |done].
    + clear. generalize 0%Z at 1 3.
      induction (LoadBalancer.instances lb) as [|r l IH]; intros a; [done|]. cbn.
      rewrite Z.add_0_r. apply IH.
    + intros r. by destruct (Hall r) as (_ & _ & ?).
  - apply sum_over_le; [|done]. intros r. destruct (Hall r) as (? & ? & ?). lia.
Qed.

(** ** The further properties on the scenarios of tests.py *)

Lemma failover_pool_ok : pool_ok failover_pool.1 failover_pool.2.
Proof.
  split; [|split; [|done]].
  - unfold pool_wf. cbn. repeat constructor.
  - cbn. apply NoDup_cons. split; [|apply NoDup_singleton].
    by intros ?%list_elem_of_singleton.
Qed.

Lemma failover_heap_wf : pool_wf failover_pool.1 failover_heap.
Proof. unfold pool_wf. cbn. repeat constructor. Qed.

Lemma failover_manager_registered :
  NoDup (FailoverManager.primary_instances failover_manager).*1
  ∧ names_match failover_heap (FailoverManager.primary_instances failover_manager).
Proof.
  split; [cbn; apply NoDup_singleton|].
  intros k r Hin. cbn in Hin. apply list_elem_of_singleton in Hin.
  by injection Hin as -> ->.
Qed.

Lemma get_next_instance_healthy_witness :
  algorithm_coherent (LoadBalancer.algorithm failover_pool.1)
  ∧ 1 ∈ LoadBalancer.instances failover_pool.1
  ∧ ServiceInstance.is_healthy (deref failover_heap 1) = true.
Proof.
  split; [exact I|].
  exact (proj1 (proj2 (get_next_instance_healthy failover_pool.1 failover_heap 0 I))
           1 eq_refl).
Defined.

Lemma weighted_round_robin_proportional_witness :
  WeightedRoundRobinAlgorithm._build_weighted_list weighted_pool.2 [0; 1] ≠ []
  ∧ times_selected 0
      (WeightedRoundRobinAlgorithm.select_many 8 weighted_pool.2
         WeightedRoundRobinAlgorithm.__init__ [0; 1]).1
    = 2 * (occurrences 0 [0; 1] * 3).
Proof.
  split; [discriminate|].
  exact (weighted_round_robin_proportional weighted_pool.2 [0; 1] 2 0
           ltac:(discriminate)).
Defined.

Lemma weighted_round_robin_no_weight_witness :
  Forall (λ r, (ServiceInstance.weight (deref weightless_heap r) ≤ 0)%Z) [0; 1]
  ∧ (WeightedRoundRobinAlgorithm.select_many 3 weightless_heap
       WeightedRoundRobinAlgorithm.__init__ [0; 1]).1
    = [Some 0; Some 0; Some 0].
Proof.
  assert (Forall (λ r, (ServiceInstance.weight (deref weightless_heap r) ≤ 0)%Z)
            [0; 1]) as Hw by (repeat constructor; cbn; lia).
  split; [exact Hw|].
  exact (proj1 (proj2 (weighted_round_robin_no_weight weightless_heap 0 [1] 3 Hw))).
Defined.

Lemma forward_request_releases_connection_witness :
  connections_nonneg failover_heap
  ∧ (∀ m u d t, handled (timing_out m u d t) = true)
  ∧ ServiceInstance.active_connections
      (deref (LoadBalancer.forward_request failover_pool.1 failover_heap 0
                timing_out 0 "/api/data" "GET" None 5).2 1)
    = ServiceInstance.active_connections (deref failover_heap 1).
Proof.
  assert (connections_nonneg failover_heap) as Hnn by (repeat constructor; cbn; lia).
  split; [exact Hnn|]. split; [reflexivity|].
  apply forward_request_releases_connection; [exact Hnn|reflexivity].
Defined.

Lemma forward_request_unexpected_exception_witness :
  pool_wf failover_pool.1 failover_heap
  ∧ algorithm_coherent (LoadBalancer.algorithm failover_pool.1)
  ∧ (∀ m u d t, crashing m u d t = OtherError (Exception "boom"))
  ∧ (LoadBalancer.get_next_instance failover_pool.1 failover_heap 0).1 = Some 1
  ∧ ServiceInstance.active_connections
      (deref (LoadBalancer.forward_request failover_pool.1 failover_heap 0
                crashing 0 "/api/data" "GET" None 5).2 1)
    = (ServiceInstance.active_connections (deref failover_heap 1) + 1)%Z.
Proof.
  split; [exact failover_heap_wf|]. split; [exact I|]. split; [reflexivity|].
  split; [reflexivity|].
  exact (proj1 (proj2 (forward_request_unexpected_exception failover_pool.1
                         failover_heap 0 crashing 0 "/api/data" "GET" None 5
                         (Exception "boom") 1 failover_heap_wf I
                         (λ _ _ _ _, eq_refl) eq_refl))).
Defined.

Lemma forward_request_records_one_request_witness :
  pool_wf failover_pool.1 failover_heap
  ∧ algorithm_coherent (LoadBalancer.algorithm failover_pool.1)
  ∧ (LoadBalancer.get_next_instance failover_pool.1 failover_heap 0).1 = Some 1
  ∧ handled TimeoutError = true
  ∧ (LoadBalancer.forward_request failover_pool.1 failover_heap 0 timing_out 0
       "/api/data" "GET" None 5).1.1
    = Returned (ErrorDict "Request timeout" "service" "backup", 504%Z).
Proof.
  split; [exact failover_heap_wf|]. split; [exact I|]. split; [reflexivity|].
  split; [reflexivity|].
  exact (proj1 (forward_request_records_one_request failover_pool.1 failover_heap 0
                  timing_out 0 "/api/data" "GET" None 5 1 failover_heap_wf I
                  eq_refl eq_refl)).
Defined.

Lemma request_counters_add_up_witness :
  Forall requests_add_up failover_heap
  ∧ Forall requests_add_up
      (pool_run (failover_pool.1, failover_heap)
         [OpForwardRequest 0 timing_out 0 "/api/data" "GET" None 5;
          OpRecordRequest 0 true 1 2]).2.
Proof.
  assert (Forall requests_add_up failover_heap) as Hh
    by (repeat constructor; cbn; lia).
  split; [exact Hh|]. by apply request_counters_add_up.
Defined.

Lemma add_instance_then_lookup_witness :
  pool_wf (LoadBalancer.__init__ "round_robin") []
  ∧ LoadBalancer.get_instance_by_name
      (LoadBalancer.add_instance (LoadBalancer.__init__ "round_robin") []
         "service-1" "http://localhost:5001" 1 0).1
      (LoadBalancer.add_instance (LoadBalancer.__init__ "round_robin") []
         "service-1" "http://localhost:5001" 1 0).2 "service-1"
    = Some 0.
Proof.
  assert (pool_wf (LoadBalancer.__init__ "round_robin") []) as Hwf by constructor.
  split; [exact Hwf|].
  destruct (add_instance_then_lookup (LoadBalancer.__init__ "round_robin") []
              "service-1" "http://localhost:5001" 1 0 Hwf)
    as (_ & _ & _ & _ & Hget & _).
  exact Hget.
Defined.

Lemma consecutive_failures_count_the_run_witness :
  (1 ≤ HealthChecker.unhealthy_threshold (HealthChecker.__init__ 5 2 3))%Z
  ∧ Forall (λ p : ProbeResult * Q * Q, probe_succeeded p.1.1 = false)
      [(ProbeTimeout, 3%Q, 3%Q); (ProbeOtherError (Exception "boom"), 4%Q, 4%Q);
       (ProbeStatus 503, 5%Q, 5%Q)]
  ∧ ServiceInstance.consecutive_failures
      (HealthChecker.check_many (HealthChecker.__init__ 5 2 3)
         (ServiceInstance.__init__ "service-1" "http://localhost:5001" 1 0)
         ([(ProbeStatus 500, 1%Q, 1%Q)]
          ++ (ProbeStatus 200, 2%Q, 2%Q)
             :: [(ProbeTimeout, 3%Q, 3%Q);
                 (ProbeOtherError (Exception "boom"), 4%Q, 4%Q);
                 (ProbeStatus 503, 5%Q, 5%Q)]))
    = 2%Z.
Proof.
  assert (Forall (λ p : ProbeResult * Q * Q, probe_succeeded p.1.1 = false)
            [(ProbeTimeout, 3%Q, 3%Q); (ProbeOtherError (Exception "boom"), 4%Q, 4%Q);
             (ProbeStatus 503, 5%Q, 5%Q)]) as Hfs
    by (by repeat constructor).
  split; [cbn; lia|]. split; [exact Hfs|].
  exact (proj1 (proj1 (consecutive_failures_count_the_run
                         (HealthChecker.__init__ 5 2 3)
                         (ServiceInstance.__init__ "service-1" "http://localhost:5001" 1 0)
                         [(ProbeStatus 500, 1%Q, 1%Q)]
                         [(ProbeTimeout, 3%Q, 3%Q);
                          (ProbeOtherError (Exception "boom"), 4%Q, 4%Q);
                          (ProbeStatus 503, 5%Q, 5%Q)]
                         (ProbeStatus 200, 2%Q, 2%Q) ltac:(cbn; lia) Hfs)
                  eq_refl)).
Defined.

Lemma check_all_instances_marks_each_witness :
  (1 ≤ HealthChecker.unhealthy_threshold (HealthChecker.__init__ 5 2 3))%Z
  ∧ pool_wf failover_pool.1 failover_pool.2
  ∧ NoDup (LoadBalancer.instances failover_pool.1)
  ∧ ServiceInstance.health_status
      (deref (HealthChecker.check_all_instances (HealthChecker.__init__ 5 2 3)
                failover_pool.1 failover_pool.2 first_only (λ _, 1%Q) (λ _, 1%Q)).1.2 1)
    = UNHEALTHY
  ∧ (HealthChecker.check_all_instances (HealthChecker.__init__ 5 2 3)
       failover_pool.1 failover_pool.2 first_raises (λ _, 1%Q) (λ _, 1%Q)).1.1
    = Raised (Exception "invalid timeout")
  ∧ deref (HealthChecker.check_all_instances (HealthChecker.__init__ 5 2 3)
             failover_pool.1 failover_pool.2 first_raises (λ _, 1%Q) (λ _, 1%Q)).1.2 1
    = deref failover_pool.2 1.
Proof.
  destruct failover_pool_ok as (Hwf & Hnd & _).
  split; [cbn; lia|]. split; [exact Hwf|]. split; [exact Hnd|].
  split.
  - destruct (check_all_instances_marks_each (HealthChecker.__init__ 5 2 3)
                failover_pool.1 failover_pool.2 first_only (λ _, 1%Q) (λ _, 1%Q)
                ltac:(cbn; lia) Hwf Hnd) as [Hhandled _].
    destruct Hhandled as (_ & _ & Hin & _).
    + intros r Hr. unfold first_only. by destruct (r =? 0)%nat.
    + refine (proj2 (Hin 1 _)). cbn. right. left.
  - destruct (check_all_instances_marks_each (HealthChecker.__init__ 5 2 3)
                failover_pool.1 failover_pool.2 first_raises (λ _, 1%Q) (λ _, 1%Q)
                ltac:(cbn; lia) Hwf Hnd) as [_ Hraises].
    destruct (Hraises [] 0 [1]
                (Exception "invalid timeout")
                eq_refl) as (Hout & _ & _ & Hrest).
    + intros r' Hr'. by apply elem_of_nil in Hr'.
    + reflexivity.
    + split; [exact Hout|]. apply Hrest. apply not_elem_of_nil.
Defined.

Lemma half_open_failure_reopens_witness :
  CircuitBreaker.state trial_breaker = HALF_OPEN
  ∧ (CircuitBreaker.half_open_calls trial_breaker
     < CircuitBreaker.half_open_max_calls trial_breaker)%Z
  ∧ CircuitBreaker.fails (raise_error, 2%Q) = true
  ∧ CircuitBreaker.state
      (CircuitBreaker.call clock_time trial_breaker raise_error 2%Q).1.2 = OPEN.
Proof.
  split; [reflexivity|]. split; [reflexivity|]. split; [reflexivity|].
  exact (proj1 (half_open_failure_reopens clock_time trial_breaker (raise_error, 2%Q)
                  eq_refl eq_refl eq_refl)).
Defined.

Lemma failover_only_with_cause_witness :
  NoDup (FailoverManager.primary_instances failover_manager).*1
  ∧ names_match failover_heap (FailoverManager.primary_instances failover_manager)
  ∧ ∃ new,
      FailoverManager.failover_history
        (FailoverManager.check_and_failover failover_manager failover_heap 1)
      = FailoverManager.failover_history failover_manager ++ new
      ∧ length (failovers_from "backup" new) = 0.
Proof.
  destruct failover_manager_registered as [Hnd Hnm].
  split; [exact Hnd|]. split; [exact Hnm|].
  destruct (failover_only_with_cause failover_manager failover_heap 1 "backup"
              Hnd Hnm) as (new & Hh & _ & _ & Hcount).
  exists new. split; [exact Hh|exact Hcount].
Defined.

Lemma failback_only_with_cause_witness :
  NoDup (FailoverManager.primary_instances failover_manager).*1
  ∧ names_match failover_heap (FailoverManager.primary_instances failover_manager)
  ∧ ∃ new,
      FailoverManager.failover_history
        (FailoverManager.check_and_failback failover_manager failover_heap 1)
      = FailoverManager.failover_history failover_manager ++ new
      ∧ length (failbacks_to "primary" new) = 0.
Proof.
  destruct failover_manager_registered as [Hnd Hnm].
  split; [exact Hnd|]. split; [exact Hnm|].
  destruct (failback_only_with_cause failover_manager failover_heap 1 "primary"
              Hnd Hnm) as (_ & new & Hh & _ & _ & _ & Hcount).
  exists new. split; [exact Hh|exact Hcount].
Defined.

Lemma pool_stays_well_formed_witness :
  pool_ok failover_pool.1 failover_pool.2
  ∧ pool_ok
      (pool_run failover_pool
         [OpMarkHealthy 0 0; OpForwardRequest 0 timing_out 0 "/api/data" "GET" None 5;
          OpRemoveInstance "backup";
          OpAddInstance "service-3" "http://localhost:5003" 2 1]).1
      (pool_run failover_pool
         [OpMarkHealthy 0 0; OpForwardRequest 0 timing_out 0 "/api/data" "GET" None 5;
          OpRemoveInstance "backup";
          OpAddInstance "service-3" "http://localhost:5003" 2 1]).2.
Proof.
  split; [exact failover_pool_ok|].
  exact (proj1 (pool_stays_well_formed failover_pool.1 failover_pool.2
                  [OpMarkHealthy 0 0;
                   OpForwardRequest 0 timing_out 0 "/api/data" "GET" None 5;
                   OpRemoveInstance "backup";
                   OpAddInstance "service-3" "http://localhost:5003" 2 1]
                  failover_pool_ok)).
Defined.

Lemma instance_identity_is_fixed_witness :
  pool_ok failover_pool.1 failover_pool.2
  ∧ identity
      (deref (pool_run failover_pool
                [OpMarkUnhealthy 0 0;
                 OpForwardRequest 0 timing_out 0 "/api/data" "GET" None 5]).2 0)
    = identity (deref failover_pool.2 0).
Proof.
  split; [exact failover_pool_ok|].
  refine (proj1 (instance_identity_is_fixed failover_pool.1 failover_pool.2
                   [OpMarkUnhealthy 0 0;
                    OpForwardRequest 0 timing_out 0 "/api/data" "GET" None 5]
                   [] failover_pool_ok) 0 _).
  cbn. lia.
Defined.

Lemma request_history_is_a_window_witness :
  length (TrafficAnalytics.request_history (TrafficAnalytics.__init__ 0)) ≤ 1000
  ∧ length (TrafficAnalytics.request_history
              (TrafficAnalytics.record_many (TrafficAnalytics.__init__ 0)
                 [("service-1", true, 5 # 100, 1%Q); ("service-1", true, 3 # 100, 2%Q);
                  ("service-2", false, 1 # 10, 3%Q)]))
    = 3 `min` 1000.
Proof.
  split; [cbn; lia|].
  exact (proj2 (request_history_is_a_window (TrafficAnalytics.__init__ 0)
                  [("service-1", true, 5 # 100, 1%Q); ("service-1", true, 3 # 100, 2%Q);
                   ("service-2", false, 1 # 10, 3%Q)] ltac:(cbn; lia))).
Defined.
